(** * A shallow embedding of the realtime relay server

    The development follows the JavaScript sources module by module:
    - [Js]: the little of the JavaScript run time the sources rely on
      (exceptions, numbers, JSON values, truthiness, property access);
    - [Binary64]: the value of a number, for the statements on rounding;
    - [AudioUtils]: utils/audioUtils.js;
    - [Relay]: services/openaiService.js, websocket/sessionManager.js,
      websocket/wsHandler.js and websocket/wsServer.js over one explicit
      store, since the four modules are singletons sharing sockets and maps.

    Definitions come first, the properties verified about them follow. *)

From Stdlib Require Import ZArith List Lia Bool String Ascii Floats.
From Stdlib Require Import Strings.Byte.
From Stdlib Require Import Reals Lra.
From stdpp Require Import base gmap strings list option pretty.

Open Scope Z_scope.
Set Warnings "-register-all".

(* ===================================================================== *)
(** * Part I: the embedding                                               *)
(* ===================================================================== *)

Module Js.

(** ** Exceptions *)

(** A thrown [Error] object: its constructor name and its message. *)
Record JsError := mkError { err_name : string; err_message : string }.

Inductive Result (A : Type) : Type :=
| Ok (a : A)
| Throw (e : JsError).
Arguments Ok {A} a.
Arguments Throw {A} e.

Definition is_ok {A} (r : Result A) : bool :=
  match r with Ok _ => true | Throw _ => false end.

Definition RangeError (msg : string) : JsError := mkError "RangeError" msg.
Definition TypeError (msg : string) : JsError := mkError "TypeError" msg.
Definition SyntaxError (msg : string) : JsError := mkError "SyntaxError" msg.
Definition Error (msg : string) : JsError := mkError "Error" msg.

(** ** Numbers

    A JavaScript number is an IEEE 754 binary64 value: Rocq's primitive
    [float]. Typed arrays convert on store; the two conversions used by the
    sources are [fround] (store into a [Float32Array]) and [ToInt16] (store
    into an [Int16Array]). *)

Definition number_of_Z (z : Z) : float :=
  match z with
  | Z0 => zero
  | Zpos _ => of_uint63 (Uint63.of_Z z)
  | Zneg p => opp (of_uint63 (Uint63.of_Z (Zpos p)))
  end.

(** Round to the nearest binary32 value, ties to even (24 bits of
    precision, infinities at exponent 128), kept as a binary64. *)
Definition fround (x : float) : float :=
  match Prim2SF x with
  | S754_finite s m e => SF2Prim (binary_round 24 128 s m e)
  | _ => x
  end.

(** The integer part of a number, towards zero; [0] for NaN and the
    infinities, as the integer conversions of typed arrays take it. *)
Definition trunc (x : float) : Z :=
  match Prim2SF x with
  | S754_finite s m e =>
      cond_Zopp s
        match e with
        | Z0 => Zpos m
        | Zpos _ => Z.shiftl (Zpos m) e
        | Zneg p => Z.shiftr (Zpos m) (Zpos p)
        end
  | _ => 0
  end.

(** ToInt16: the integer part modulo 2^16, read as a signed 16-bit value. *)
Definition ToInt16 (x : float) : Z := (trunc x + 32768) mod 65536 - 32768.

(** [Math.min] and [Math.max] on two arguments: NaN is contagious and
    [-0] is below [+0]. *)
Definition Math_min (a b : float) : float :=
  if is_nan a || is_nan b then nan
  else if (a <? b)%float then a
  else if (b <? a)%float then b
  else if get_sign a then a else b.

Definition Math_max (a b : float) : float :=
  if is_nan a || is_nan b then nan
  else if (a <? b)%float then b
  else if (b <? a)%float then a
  else if get_sign a then b else a.

(** [Math.floor]: an integer, a zero, an infinity or NaN is its own
    floor. *)
Definition Math_floor (x : float) : float :=
  match Prim2SF x with
  | S754_finite s m (Zneg p) => number_of_Z (Z.shiftr (cond_Zopp s (Zpos m)) (Zpos p))
  | _ => x
  end.

(** [Math.round]: the nearest integer, a tie going up; [-0] for the
    numbers from [-0.5] up to [-0]. *)
Definition Math_round (x : float) : float :=
  match Prim2SF x with
  | S754_finite s m (Zneg p) =>
      let q := Z.shiftr (2 * cond_Zopp s (Zpos m) + 2 ^ Zpos p) (Zpos p + 1) in
      if (q =? 0) && s then neg_zero else number_of_Z q
  | _ => x
  end.

(** ** The text of a number

    Number::toString: the digits are the fewest that read back as the
    number, and of those with that many digits the nearest to it. The
    number is [m * 2 ^ e]; the numbers that read back as it are those
    nearer to it than to its neighbours, here [Low / unit] to
    [High / unit] around [X / unit]. *)

(** The least [n] from [n] on with [X / unit < 10 ^ n]: the place of
    the decimal point after the first digit. *)
Fixpoint decimal_point (fuel : nat) (n X unit : Z) {struct fuel} : Z :=
  match fuel with
  | O => n
  | S fuel' =>
      if X * 10 ^ Z.max (- n) 0 <? unit * 10 ^ Z.max n 0 then n
      else decimal_point fuel' (n + 1) X unit
  end.

(** The least [k] from [k] on for which some [s * 10 ^ (n - k)] lies
    between [Low / unit] and [High / unit] (the bounds counted in when
    [closed]), with the [s] nearest to [X / unit], the even one of two
    at the same distance. *)
Fixpoint shortest_digits (fuel : nat) (k n X Low High unit : Z) (closed : bool)
    {struct fuel} : Z * Z :=
  match fuel with
  | O => (0, k)
  | S fuel' =>
      let P := 10 ^ Z.max (n - k) 0 in
      let Q := 10 ^ Z.max (k - n) 0 in
      let below := (X * Q) / (unit * P) in
      let above := below + 1 in
      let fits s :=
        let v := s * P * unit in
        if closed then (Low * Q <=? v) && (v <=? High * Q)
        else (Low * Q <? v) && (v <? High * Q) in
      let gap_below := X * Q - below * P * unit in
      let gap_above := above * P * unit - X * Q in
      if fits below && fits above then
        (if gap_below <? gap_above then below
         else if gap_above <? gap_below then above
         else if Z.even below then below else above, k)
      else if fits below then (below, k)
      else if fits above then (above, k)
      else shortest_digits fuel' (k + 1) n X Low High unit closed
  end.

Definition zeros (n : Z) : string :=
  String.concat EmptyString (replicate (Z.to_nat n) "0"%string).

(** The text of [m * 2 ^ e]: plain digits up to [1e21], a leading
    [0.] down to [1e-6], an exponent beyond. *)
Definition decimal_text (m : positive) (e : Z) : string :=
  let scale := 2 ^ Z.max e 0 in
  let unit := 4 * 2 ^ Z.max (- e) 0 in
  let X := 4 * Zpos m * scale in
  let narrow := (Zpos m =? 2 ^ 52) && (-1074 <? e) in
  let Low := (4 * Zpos m - (if narrow then 1 else 2)) * scale in
  let High := (4 * Zpos m + 2) * scale in
  let n0 := decimal_point 640 (-323) X unit in
  let '(s0, k0) := shortest_digits 17 1 n0 X Low High unit (Z.even (Zpos m)) in
  let '(s, k, n) := if s0 =? 10 ^ k0 then (1, 1, n0 + 1) else (s0, k0, n0) in
  let digits := pretty s in
  if (k <=? n) && (n <=? 21) then digits +:+ zeros (n - k)
  else if (0 <? n) && (n <=? 21) then
    substring 0 (Z.to_nat n) digits +:+ "." +:+ substring (Z.to_nat n) (Z.to_nat (k - n)) digits
  else if (-6 <? n) && (n <=? 0) then "0." +:+ zeros (- n) +:+ digits
  else
    (if k =? 1 then digits
     else substring 0 1 digits +:+ "." +:+ substring 1 (Z.to_nat (k - 1)) digits)
    +:+ "e" +:+ (if 1 <=? n then "+" else "-") +:+ pretty (Z.abs (n - 1)).

Definition Number_toString (x : float) : string :=
  match Prim2SF x with
  | S754_nan => "NaN"
  | S754_zero _ => "0"
  | S754_infinity s => if s then "-Infinity" else "Infinity"
  | S754_finite s m e => (if s then "-" else EmptyString) +:+ decimal_text m e
  end.

#[global] Arguments Number_toString : simpl never.

(** ToIndex, for the length of a new typed array: the integer part,
    which must be between 0 and 2^53 - 1; the error shows the length. *)
Definition ToIndex (x : float) : Result nat :=
  let invalid := Throw (RangeError ("Invalid typed array length: " +:+ Number_toString x)) in
  match Prim2SF x with
  | S754_infinity _ => invalid
  | _ =>
      let n := trunc x in
      if (n <? 0) || (2 ^ 53 - 1 <? n) then invalid
      else Ok (Z.to_nat n)
  end.

(** [array[index]] on a typed array, for a number [index]: the element
    when the index is one of the array, NaN (from [undefined]) otherwise. *)
Definition typed_array_get (a : list float) (index : float) : float :=
  match Prim2SF index with
  | S754_zero _ => default nan (a !! 0%nat)
  | S754_finite false m Z0 => default nan (a !! Pos.to_nat m)
  | S754_finite false m (Zpos p) => default nan (a !! Z.to_nat (Z.shiftl (Zpos m) (Zpos p)))
  | S754_finite false m (Zneg p) =>
      let k := Z.shiftr (Zpos m) (Zpos p) in
      if Z.shiftl k (Zpos p) =? Zpos m then default nan (a !! Z.to_nat k) else nan
  | _ => nan
  end.

(** ** JSON values

    What [JSON.parse] returns and [JSON.stringify] prints. An object is
    its list of properties in insertion order. A JavaScript value is a
    JSON value or [undefined] ([None]). *)

Inductive json :=
| JNull
| JBool (b : bool)
| JNum (x : float)
| JStr (s : string)
| JArr (items : list json)
| JObj (props : list (string * json)).

Definition jsval := option json.
Definition undefined : jsval := None.

(** ToBoolean. *)
Definition truthy (v : jsval) : bool :=
  match v with
  | None | Some JNull => false
  | Some (JBool b) => b
  | Some (JNum x) => negb (is_zero x || is_nan x)
  | Some (JStr s) => negb (String.eqb s "")
  | Some (JArr _) | Some (JObj _) => true
  end.

(** A string is truthy unless empty (identifiers are strings). *)
Definition truthy_string (s : string) : bool := negb (String.eqb s "").

Fixpoint obj_get (props : list (string * json)) (k : string) : jsval :=
  match props with
  | [] => None
  | (k', v) :: rest => if String.eqb k' k then Some v else obj_get rest k
  end.

(** [obj.k = v]: an existing property keeps its place, a new one goes
    last. *)
Fixpoint obj_set (props : list (string * json)) (k : string) (v : json)
  : list (string * json) :=
  match props with
  | [] => [(k, v)]
  | (k', v') :: rest =>
      if String.eqb k' k then (k, v) :: rest else (k', v') :: obj_set rest k v
  end.

(** [v.k] for the property names the sources read ([type], [event_id],
    [session], [conversation], [error], [id], [message], [delta]), none
    of which a string, number, boolean or array has: reading them off
    [null] or [undefined] throws, off any other non-object gives
    [undefined]. *)
Definition get_prop (v : jsval) (k : string) : Result jsval :=
  match v with
  | None =>
      Throw (TypeError ("Cannot read properties of undefined (reading '" +:+ k +:+ "')"))
  | Some JNull =>
      Throw (TypeError ("Cannot read properties of null (reading '" +:+ k +:+ "')"))
  | Some (JObj props) => Ok (obj_get props k)
  | Some _ => Ok None
  end.

(** [v === "text"]. *)
Definition is_string (v : jsval) (text : string) : bool :=
  match v with
  | Some (JStr s) => String.eqb s text
  | _ => false
  end.

(** [JSON.stringify] leaves out the properties whose value is
    [undefined]. *)
Definition object_literal (props : list (string * jsval)) : json :=
  JObj (omap (fun '(k, v) => match v with Some j => Some (k, j) | None => None end) props).

(** [JSON.stringify(v)], as the value its text denotes: a number that
    is not finite is written [null], and [-0] is written [0]. (No JSON
    value is callable, so that a [toJSON] property is a property like
    any other.) *)
Fixpoint JSON_value (v : json) : json :=
  match v with
  | JNum x =>
      if is_nan x || is_infinity x then JNull
      else if is_zero x then JNum zero
      else JNum x
  | JArr items => JArr (map JSON_value items)
  | JObj props => JObj (map (fun p => (p.1, JSON_value p.2)) props)
  | _ => v
  end.

(** ** Template literals

    [`${v}`] converts [v] to a string. The conversion of an object calls
    its [toString]: [Object.prototype.toString] unless the object has a
    property of that name, which holds a JSON value, and no JSON value
    can be called; [Object.prototype.valueOf], tried next, gives the
    object back, and the conversion throws. An array is joined: its
    elements are converted in turn, but for [null]. *)
Fixpoint to_string_throws (v : json) : bool :=
  match v with
  | JObj props => bool_decide (is_Some (obj_get props "toString"))
  | JArr items => existsb to_string_throws items
  | _ => false
  end.

(** The value interpolated, when it has a string. *)
Definition interpolate (v : jsval) : Result jsval :=
  match v with
  | Some j =>
      if to_string_throws j then Throw (TypeError "Cannot convert object to primitive value")
      else Ok v
  | None => Ok v
  end.

End Js.

(** ** The value of a number

    The numbers of the language are the binary64 numbers: a sign, a
    mantissa [m] below [2 ^ 53] and an exponent [e] stand for
    [m * 2 ^ e]. The statements about [resampleAudio] compare what the
    operations round to with the exact results, over the real numbers. *)

Module Binary64.

Definition pow2 (e : Z) : R := powerRZ 2 e.

(** The value of a mantissa and an exponent. *)
Definition F2R (m e : Z) : R := (IZR m * pow2 e)%R.

(** The value of a finite number; [0] for the others. *)
Definition SF2R (x : spec_float) : R :=
  match x with
  | S754_finite s m e => F2R (cond_Zopp s (Zpos m)) e
  | _ => 0%R
  end.

(** The canonical representation of an integer from [1] to below
    [2 ^ 53]: the mantissa has 53 digits. *)
Definition int_mantissa (z : Z) : positive := Z.to_pos (z * 2 ^ (53 - Zdigits2 z)).
Definition int_exponent (z : Z) : Z := Zdigits2 z - 53.

(** A number that is not below zero: [+0] or a finite positive number
    in canonical representation. *)
Definition nonneg (x : spec_float) : Prop :=
  match x with
  | S754_zero false => True
  | S754_finite false m e => SpecFloat.bounded prec emax m e = true
  | _ => False
  end.


(** A zero or a finite number in canonical representation. *)
Definition finite (x : spec_float) : Prop :=
  match x with
  | S754_zero _ => True
  | S754_finite _ m e => SpecFloat.bounded prec emax m e = true
  | _ => False
  end.

End Binary64.

Module AudioUtils.
Import Js.

(** ** Buffers

    A Node [Buffer] is a window on an [ArrayBuffer]: the bytes before the
    window, the window itself and the bytes after it. [byteOffset] and
    [byteLength] are the window's position and size; [buffer] is the whole
    backing store, which is what the typed-array constructor receives. *)
Record Buffer := mkBuffer {
  pool_before : list byte;
  contents : list byte;
  pool_after : list byte
}.

Definition buffer (b : Buffer) : list byte :=
  pool_before b ++ contents b ++ pool_after b.
Definition byteOffset (b : Buffer) : nat := length (pool_before b).
Definition byteLength (b : Buffer) : nat := length (contents b).

(** The argument of [pcm16ToFloat32]: a [Buffer], or a [Uint8Array] that
    [Buffer.from] copies. *)
Inductive ByteSource :=
| IsBuffer (b : Buffer)
| IsUint8Array (bytes : list byte).

(** [Buffer.from(typedArray)] copies the bytes into a buffer of its own.
    (Node may carve the copy out of its pool, at an offset that is a
    multiple of 8; only the parity of the offset is observable below.) *)
Definition Buffer_from (bytes : list byte) : Buffer := mkBuffer [] bytes [].

Definition source_bytes (p : ByteSource) : list byte :=
  match p with
  | IsBuffer b => contents b
  | IsUint8Array bytes => bytes
  end.

(** ** 16-bit little-endian samples

    A typed array reads and writes its store in the byte order of the
    machine: little-endian wherever Node runs. *)

Definition byte_to_Z (b : byte) : Z := Z.of_N (Byte.to_N b).

Definition byte_of_Z (z : Z) : byte :=
  match Byte.of_N (Z.to_N (z mod 256)) with
  | Some b => b
  | None => x00
  end.

Definition int16_of_bytes (lo hi : byte) : Z :=
  let u := byte_to_Z lo + 256 * byte_to_Z hi in
  if u <? 32768 then u else u - 65536.

Definition int16_to_bytes (z : Z) : list byte :=
  [byte_of_Z (z mod 256); byte_of_Z ((z / 256) mod 256)].

(** The first [n] 16-bit elements stored in [bytes]. *)
Fixpoint int16_elements (bytes : list byte) (n : nat) {struct n} : list Z :=
  match n, bytes with
  | S k, lo :: hi :: rest => int16_of_bytes lo hi :: int16_elements rest k
  | _, _ => []
  end.

(** [new Int16Array(arrayBuffer, byteOffset, length)]: the offset must be
    a multiple of the element size and the view must fit in the store. *)
Definition Int16Array_new (ab : list byte) (offset len : nat) : Result (list Z) :=
  if negb (Nat.even offset) then
    Throw (RangeError "start offset of Int16Array should be a multiple of 2")
  else if (length ab <? offset + 2 * len)%nat then
    Throw (RangeError ("Invalid typed array length: " +:+ pretty len))
  else Ok (int16_elements (drop offset ab) len).

(** ** isAudioFormatSupported *)

Definition supportedFormats : list string := ["pcm16"; "g711_ulaw"; "g711_alaw"].

Definition isAudioFormatSupported (format : string) : bool :=
  bool_decide (format ∈ supportedFormats).

(** ** pcm16ToFloat32 *)

(** One iteration of the conversion loop:
    [int16Array[i] / (int16Array[i] < 0 ? 0x8000 : 0x7fff)], stored into
    the [Float32Array]. *)
Definition int16_to_float32 (x : Z) : float :=
  let v := number_of_Z x in
  fround (v / (if (v <? 0)%float then 32768 else 32767))%float.

(** The length argument [buffer.byteLength / 2] is a number; the
    constructor takes its integer part (ToIndex), so that an odd byte
    length gives the quotient rounded down. *)
Definition pcm16ToFloat32 (pcm16Buffer : ByteSource) : Result (list float) :=
  let buffer_ :=
    match pcm16Buffer with
    | IsBuffer b => b
    | IsUint8Array bytes => Buffer_from bytes
    end in
  match Int16Array_new (buffer buffer_) (byteOffset buffer_) (byteLength buffer_ / 2)%nat with
  | Throw e => Throw e
  | Ok int16Array => Ok (map int16_to_float32 int16Array)
  end.

(** ** float32ToPcm16 *)

(** One iteration: clamp to [-1, 1], scale, store into the [Int16Array]. *)
Definition float32_to_int16 (x : float) : Z :=
  let s := Math_max (-1)%float (Math_min 1%float x) in
  ToInt16 (if (s <? 0)%float then s * 32768 else s * 32767)%float.

(** [Buffer.from(int16Array.buffer)] is a window on the whole store of
    the fresh array. *)
Definition float32ToPcm16 (float32Array : list float) : Buffer :=
  mkBuffer [] (flat_map int16_to_bytes (map float32_to_int16 float32Array)) [].

(** ** resampleAudio *)

(** One iteration of the interpolation loop, for the output index [i]. *)
Definition resample_at (audioData : list float) (ratio : float) (i : nat) : float :=
  let indexOriginal := (number_of_Z (Z.of_nat i) * ratio)%float in
  let index := Math_floor indexOriginal in
  let fraction := (indexOriginal - index)%float in
  if (index + 1 <? number_of_Z (Z.of_nat (length audioData)))%float then
    fround (typed_array_get audioData index * (1 - fraction) +
            typed_array_get audioData (index + 1) * fraction)%float
  else fround (typed_array_get audioData index).

Definition resampleAudio (audioData : list float)
    (originalSampleRate targetSampleRate : float) : Result (list float) :=
  if (originalSampleRate =? targetSampleRate)%float then Ok audioData
  else
    let ratio := (originalSampleRate / targetSampleRate)%float in
    let newLength := Math_round (number_of_Z (Z.of_nat (length audioData)) / ratio)%float in
    match ToIndex newLength with
    | Throw e => Throw e
    | Ok n => Ok (map (resample_at audioData ratio) (seq 0 n))
    end.

(** ** Vocabulary of the statements *)

(** The samples a byte sequence holds, two bytes each. *)
Definition samples (bytes : list byte) : list Z :=
  int16_elements bytes (length bytes / 2).

Definition in_unit_interval (x : float) : bool :=
  ((-1 <=? x) && (x <=? 1))%float.

(** The view of [pcm16ToFloat32] starts on a sample boundary. *)
Definition aligned (p : ByteSource) : bool :=
  match p with
  | IsBuffer b => Nat.even (byteOffset b)
  | IsUint8Array _ => true
  end.

(** What one 16-bit sample must satisfy through both conversions. *)
Definition sample_ok (x : Z) : bool :=
  let f := int16_to_float32 x in
  let y := float32_to_int16 f in
  in_unit_interval f && (x - 1 <=? y) && (y <=? x + 1).

(** [p] holds on the [n] integers from [z] on. *)
Fixpoint forall_from (n : nat) (z : Z) (p : Z -> bool) : bool :=
  match n with
  | O => true
  | S k => p z && forall_from k (z + 1) p
  end.

(** The sample [y] is the output of index [i]: with [k] the index of the
    input at or below the position [i * ratio], the interpolation of the
    samples [k] and [k + 1], or the sample [k] when it is the last one,
    as the [Float32Array] stores it. *)
Definition interpolation (audioData : list float) (ratio : float) (i : nat) (y : float) : Prop :=
  exists k a,
    audioData !! k = Some a /\
    let position := (number_of_Z (Z.of_nat i) * ratio)%float in
    let fraction := (position - number_of_Z (Z.of_nat k))%float in
    (number_of_Z (Z.of_nat k) <=? position)%float = true /\
    (position <? number_of_Z (Z.of_nat (S k)))%float = true /\
    y = match audioData !! S k with
        | Some b => fround (a * (1 - fraction) + b * fraction)%float
        | None => fround a
        end.


(** ** Vocabulary of further statements *)

(** What holds of [n] samples from [z] on, [f] being the conversion of
    [z]: the conversion of the next sample is above, and the sample
    comes back through both conversions as it was when negative, as it
    was or one below otherwise. *)
Fixpoint steps_ok (n : nat) (z : Z) (f : float) : bool :=
  match n with
  | O => true
  | S k =>
      let g := int16_to_float32 (z + 1) in
      let y := float32_to_int16 f in
      (f <? g)%float &&
      (if z <? 0 then y =? z else (z - 1 <=? y) && (y <=? z)) &&
      steps_ok k (z + 1) g
  end.

(** The sample [y] that comes back for [x]. *)
Definition comes_back (x y : Z) : Prop :=
  if x <? 0 then y = x else x - 1 <= y <= x.

End AudioUtils.

Module Relay.
Import Js.

(** ** The store

    The four modules are singletons ([module.exports = new ...]) holding
    maps of plain objects, and they share [WebSocket] objects by
    reference: a client's socket is reachable from the server's client
    record and from its session. Sockets therefore live in one store and
    are named by handles; so do the message objects [JSON.parse] creates,
    which [sendEvent] updates in place. *)

Definition handle := nat.
Definition loc := nat.

Inductive ReadyState := CONNECTING | OPEN | CLOSING | CLOSED.

#[global] Instance ReadyState_eq_dec : EqDecision ReadyState.
Proof. solve_decision. Defined.

Inductive Frame :=
| TextFrame (data : json)     (* ws.send(text): the value the JSON text denotes *)
| PingFrame (data : json).    (* ws.ping(text): the value the JSON text denotes *)

(** The closures the sources attach with [ws.on], by what they close
    over. *)
Inductive Listener :=
| ClientListeners (clientId : string)
    (* "message", "close", "error" and "pong" of handleConnection *)
| OpenAIMessageListener (connectionId sessionId : string).
    (* "message" of setMessageHandler, calling handleOpenAIMessage *)

Record Socket := mkSocket {
  readyState : ReadyState;
  url : string;                 (* empty for an accepted socket *)
  sent : list Frame;            (* what was written to the peer, oldest first *)
  listeners : list Listener
}.

Inductive Level := LError | LWarn | LInfo | LDebug.

(** A log line: the level, the text of the template literal without its
    interpolations, and the interpolated values in order. *)
Record LogEntry := mkLog {
  level : Level;
  template : string;
  interpolated : list jsval
}.

Module Client.
Record t := mk { ws : handle; ip : string; connected : Z; lastPong : Z }.
End Client.

Module Connection.
Record t := mk { ws : handle; clientId : string; created : Z }.
End Connection.

Module Session.
Record State := mkState {
  sessionId : jsval;
  conversationId : jsval;
  isRecording : bool;
  isConnected : bool
}.
Record t := mk {
  id : string;
  clientId : string;
  openaiConnectionId : string;
  ws : handle;
  created : Z;
  state : State
}.
End Session.

(** config/config.js, the part the relay reads. *)
Record Config := mkConfig { apiUrl : string; model : string; apiKey : string }.

Record World := mkWorld {
  config : Config;
  sockets : gmap handle Socket;
  heap : gmap loc json;
  clients : gmap string Client.t;              (* wsServer.clients *)
  sessions : gmap string Session.t;            (* sessionManager.sessions *)
  clientToSession : gmap string string;        (* sessionManager.clientToSession *)
  connections : gmap string Connection.t;      (* openaiService.connections *)
  logs : list LogEntry
}.

Definition set_sockets (f : gmap handle Socket -> gmap handle Socket) (w : World) : World :=
  mkWorld (config w) (f (sockets w)) (heap w) (clients w) (sessions w)
    (clientToSession w) (connections w) (logs w).
Definition set_heap (f : gmap loc json -> gmap loc json) (w : World) : World :=
  mkWorld (config w) (sockets w) (f (heap w)) (clients w) (sessions w)
    (clientToSession w) (connections w) (logs w).
Definition set_clients (f : gmap string Client.t -> gmap string Client.t) (w : World) : World :=
  mkWorld (config w) (sockets w) (heap w) (f (clients w)) (sessions w)
    (clientToSession w) (connections w) (logs w).
Definition set_sessions (f : gmap string Session.t -> gmap string Session.t) (w : World) : World :=
  mkWorld (config w) (sockets w) (heap w) (clients w) (f (sessions w))
    (clientToSession w) (connections w) (logs w).
Definition set_clientToSession (f : gmap string string -> gmap string string) (w : World) : World :=
  mkWorld (config w) (sockets w) (heap w) (clients w) (sessions w)
    (f (clientToSession w)) (connections w) (logs w).
Definition set_connections (f : gmap string Connection.t -> gmap string Connection.t) (w : World) : World :=
  mkWorld (config w) (sockets w) (heap w) (clients w) (sessions w)
    (clientToSession w) (f (connections w)) (logs w).
Definition set_logs (f : list LogEntry -> list LogEntry) (w : World) : World :=
  mkWorld (config w) (sockets w) (heap w) (clients w) (sessions w)
    (clientToSession w) (connections w) (f (logs w)).

(** The process at start-up: empty maps, no socket. *)
Definition initial (cfg : Config) : World := mkWorld cfg ∅ ∅ ∅ ∅ ∅ ∅ [].

(** ** Computations

    A method body reads and writes the store and may throw: a state and
    error monad. What was written before a [throw] stays written. *)

Definition M (A : Type) : Type := World -> Result A * World.

#[global] Instance M_ret : MRet M := fun A a w => (Ok a, w).
#[global] Instance M_bind : MBind M := fun A B f m w =>
  match m w with
  | (Ok a, w') => f a w'
  | (Throw e, w') => (Throw e, w')
  end.

Definition throw {A} (e : JsError) : M A := fun w => (Throw e, w).

Definition try_catch {A} (body : M A) (handler : JsError -> M A) : M A := fun w =>
  match body w with
  | (Ok a, w') => (Ok a, w')
  | (Throw e, w') => handler e w'
  end.

Definition gets {A} (f : World -> A) : M A := fun w => (Ok (f w), w).
Definition modify (f : World -> World) : M unit := fun w => (Ok tt, f w).
Definition lift {A} (r : Result A) : M A := fun w => (r, w).
Definition when (b : bool) (m : M unit) : M unit := if b then m else mret tt.

(** ** Asynchronous functions

    An [async] function runs up to its first [await] when called and
    hands back a promise; the rest runs later, from the microtask queue.
    A task is a computation that ends with its result or stops at an
    [await] with the rest of the work ([Yield]). A [throw] in a task is a
    rejection of its promise. *)

Inductive Step (A : Type) : Type :=
| Done (a : A)
| Yield (rest : World -> Result (Step A) * World).
Arguments Done {A} a.
Arguments Yield {A} rest.

Definition Task (A : Type) : Type := M (Step A).

Fixpoint step_bind {A B} (s : Step A) (f : A -> Task B) {struct s} : Task B :=
  match s with
  | Done a => f a
  | Yield rest => fun w =>
      (Ok (Yield (fun w1 =>
         match rest w1 with
         | (Ok s', w2) => step_bind s' f w2
         | (Throw e, w2) => (Throw e, w2)
         end)), w)
  end.

Definition task_ret {A} (a : A) : Task A := fun w => (Ok (Done a), w).
Definition task_bind {A B} (t : Task A) (f : A -> Task B) : Task B := fun w =>
  match t w with
  | (Ok s, w') => step_bind s f w'
  | (Throw e, w') => (Throw e, w')
  end.

Notation "x ⇐ t ; k" := (task_bind t (fun x => k))
  (at level 20, t at level 100, k at level 200, only parsing).
Notation "t ;;; k" := (task_bind t (fun _ => k))
  (at level 100, k at level 200, right associativity, only parsing).

(** A synchronous computation inside an [async] body. *)
Definition sync {A} (m : M A) : Task A := fun w =>
  match m w with
  | (Ok a, w') => (Ok (Done a), w')
  | (Throw e, w') => (Throw e, w')
  end.

(** [try { body } catch (error) { handler }] inside an [async] body. *)
Fixpoint step_catch {A} (s : Step A) (handler : JsError -> Task A) {struct s} : Step A :=
  match s with
  | Done a => Done a
  | Yield rest =>
      Yield (fun w1 =>
        match rest w1 with
        | (Ok s', w2) => (Ok (step_catch s' handler), w2)
        | (Throw e, w2) => handler e w2
        end)
  end.

Definition task_catch {A} (body : Task A) (handler : JsError -> Task A) : Task A := fun w =>
  match body w with
  | (Ok s, w') => (Ok (step_catch s handler), w')
  | (Throw e, w') => handler e w'
  end.

(** The outcome of a task as a value: how a promise settles. *)
Fixpoint step_settle {A} (s : Step A) {struct s} : Step (Result A) :=
  match s with
  | Done a => Done (Ok a)
  | Yield rest =>
      Yield (fun w1 =>
        match rest w1 with
        | (Ok s', w2) => (Ok (step_settle s'), w2)
        | (Throw e, w2) => (Ok (Done (Throw e)), w2)
        end)
  end.

Definition settle {A} (t : Task A) : Task (Result A) := fun w =>
  match t w with
  | (Ok s, w') => (Ok (step_settle s), w')
  | (Throw e, w') => (Ok (Done (Throw e)), w')
  end.

(** [await callee(...)]: the callee runs to its first [await] at once;
    the caller stops, and goes on, with the value or the exception,
    once the callee's promise has settled. *)
Definition await {A} (callee : Task A) : Task A :=
  r ⇐ settle callee;
  (fun w => (Ok (Yield (fun w1 =>
     match r with
     | Ok a => (Ok (Done a), w1)
     | Throw e => (Throw e, w1)
     end)), w)).

(** The rest of a task, run to its end: the microtask queue emptied. *)
Fixpoint finish {A} (s : Step A) {struct s} : M A :=
  match s with
  | Done a => mret a
  | Yield rest => fun w =>
      match rest w with
      | (Ok s', w') => finish s' w'
      | (Throw e, w') => (Throw e, w')
      end
  end.

(** ** Sockets (the [ws] package) and the logger *)

(** A handle always names a socket of the store; a handle that names
    none reads as a closed socket. *)
Definition readyState_of (w : World) (h : handle) : ReadyState :=
  match sockets w !! h with Some s => readyState s | None => CLOSED end.

Definition ws_readyState (h : handle) : M ReadyState :=
  gets (fun w => readyState_of w h).

Definition update_socket (h : handle) (f : Socket -> Socket) : M unit :=
  modify (set_sockets (alter f h)).

Definition push_frame (fr : Frame) (s : Socket) : Socket :=
  mkSocket (readyState s) (url s) (sent s ++ [fr]) (listeners s).

(** [ws.send(data)] without a callback: throws while the socket is
    connecting, writes when it is open, and otherwise drops the data. *)
Definition ws_send (h : handle) (data : json) : M unit :=
  rs ← ws_readyState h;
  match rs with
  | CONNECTING => throw (Error "WebSocket is not open: readyState 0 (CONNECTING)")
  | OPEN => update_socket h (push_frame (TextFrame data))
  | CLOSING | CLOSED => mret tt
  end.

Definition ws_ping (h : handle) (data : json) : M unit :=
  rs ← ws_readyState h;
  match rs with
  | CONNECTING => throw (Error "WebSocket is not open: readyState 0 (CONNECTING)")
  | OPEN => update_socket h (push_frame (PingFrame data))
  | CLOSING | CLOSED => mret tt
  end.

(** [ws.close()]: starts the closing handshake unless already closed. *)
Definition closing (s : Socket) : Socket :=
  match readyState s with
  | CLOSED => s
  | _ => mkSocket CLOSING (url s) (sent s) (listeners s)
  end.

Definition ws_close (h : handle) : M unit := update_socket h closing.

Definition ws_set_readyState (h : handle) (rs : ReadyState) : M unit :=
  update_socket h (fun s => mkSocket rs (url s) (sent s) (listeners s)).

Definition ws_on (h : handle) (l : Listener) : M unit :=
  update_socket h (fun s => mkSocket (readyState s) (url s) (sent s) (listeners s ++ [l])).

(** [new WebSocket(url, options)]: a new socket, connecting. *)
Definition ws_new (address : string) : M handle := fun w =>
  let h := fresh (dom (sockets w)) in
  (Ok h, set_sockets (insert h (mkSocket CONNECTING address [] [])) w).

(** [logger.level(text, meta)]: the metadata object is not kept. *)
Definition log (lvl : Level) (text : string) (values : list jsval) : M unit :=
  modify (set_logs (fun l => l ++ [mkLog lvl text values])).

Definition str (s : string) : jsval := Some (JStr s).

(** [JSON.stringify(buffer)] for a Node [Buffer] holding the bytes of
    [data]: the text of what [buffer.toJSON()] returns, an object with
    the [type] [Buffer] and the bytes as numbers under [data]. *)
Definition quoted (s : string) : string :=
  String "034"%char s +:+ String "034"%char EmptyString.

Definition Buffer_JSON_text (data : string) : string :=
  "{" +:+ quoted "type" +:+ ":" +:+ quoted "Buffer" +:+ "," +:+ quoted "data" +:+ ":[" +:+
  String.concat "," (map (fun c => pretty (N_of_ascii c)) (list_ascii_of_string data)) +:+
  "]}".

(** ** Message objects *)

(** [JSON.parse] gives a new object. *)
Definition alloc (v : json) : M loc := fun w =>
  let l := fresh (dom (heap w)) in
  (Ok l, set_heap (insert l v) w).

Definition deref (l : loc) : M jsval := gets (fun w => heap w !! l).

(** [message.k] *)
Definition read_field (l : loc) (k : string) : M jsval :=
  v ← deref l; lift (get_prop v k).

(** [message.k = v], in strict code (a class body). *)
Definition write_field (l : loc) (k : string) (v : json) : M unit :=
  cell ← deref l;
  match cell with
  | Some (JObj props) => modify (set_heap (insert l (JObj (obj_set props k v))))
  | None =>
      throw (TypeError ("Cannot set properties of undefined (setting '" +:+ k +:+ "')"))
  | Some JNull =>
      throw (TypeError ("Cannot set properties of null (setting '" +:+ k +:+ "')"))
  | Some _ => throw (TypeError ("Cannot create property '" +:+ k +:+ "'"))
  end.

(** [JSON.stringify(message)] for the object at [l], as the value the
    text denotes. *)
Definition JSON_stringify (l : loc) : M json :=
  gets (fun w => JSON_value (default JNull (heap w !! l))).

(** ** services/openaiService.js *)

(** How the handshake of a new upstream socket ends: the first of
    "open", "error" and the 10 s timer. *)
Inductive Handshake := HsOpen | HsError (message : string) | HsTimeout.

(** [`evt_${Date.now()}_${uuidv4().slice(0, 8)}`] *)
Definition new_event_id (now : Z) (uuid : string) : string :=
  "evt_" +:+ pretty now +:+ "_" +:+ substring 0 8 uuid.

(** [sendEvent(connectionId, event)]; [now] and [uuid] are what
    [Date.now()] and [uuidv4()] return if called. The function is
    [async] without an [await]: its body runs in one go. *)
Definition sendEvent (connectionId : string) (event : loc) (now : Z) (uuid : string)
  : M jsval :=
  connection ← gets (fun w => connections w !! connectionId);
  match connection with
  | None => throw (Error ("Conexão não encontrada: " +:+ connectionId))
  | Some connection =>
      try_catch
        (event_id ← read_field event "event_id";
         when (negb (truthy event_id))
           (write_field event "event_id" (JStr (new_event_id now uuid)));;
         data ← JSON_stringify event;
         ws_send (Connection.ws connection) data;;
         log LDebug "Evento enviado para OpenAI" [];;
         read_field event "event_id")
        (fun error =>
           log LError "Erro ao enviar evento para OpenAI: " [str (err_message error)];;
           throw error)
  end.

(** [createConnection(clientId)]: [connectionId] is the [uuidv4()] drawn,
    [now] the [Date.now()] read, [hs] how the awaited handshake ends.
    The call is taken from its start to the settlement of its promise. *)
Definition createConnection (clientId : string)
    (connectionId : string) (now : Z) (hs : Handshake) : M string :=
  try_catch
    (log LInfo "Criando nova conexão com OpenAI para cliente " [str clientId];;
     cfg ← gets config;
     ws ← ws_new (apiUrl cfg +:+ "?model=" +:+ model cfg);
     modify (set_connections (insert connectionId (Connection.mk ws clientId now)));;
     match hs with
     | HsOpen =>
         ws_set_readyState ws OPEN;;
         log LInfo "Conexão estabelecida com OpenAI" [];;
         mret connectionId
     | HsError message =>
         ws_set_readyState ws CLOSED;;
         log LError "Erro na conexão OpenAI: " [str message];;
         throw (Error message)
     | HsTimeout => throw (Error "Timeout ao conectar com OpenAI")
     end)
    (fun error =>
       log LError "Falha ao criar conexão com OpenAI: " [str (err_message error)];;
       throw error).

Definition closeConnection (connectionId : string) : M unit :=
  connection ← gets (fun w => connections w !! connectionId);
  match connection with
  | Some connection =>
      log LInfo "Fechando conexão com OpenAI" [];;
      ws_close (Connection.ws connection);;
      modify (set_connections (delete connectionId))
  | None => mret tt
  end.

(** [setMessageHandler(connectionId, handler)], for the one handler the
    sources pass: [(message) => this.handleOpenAIMessage(sessionId, message)]. *)
Definition setMessageHandler (connectionId sessionId : string) : M unit :=
  connection ← gets (fun w => connections w !! connectionId);
  match connection with
  | Some connection =>
      ws_on (Connection.ws connection) (OpenAIMessageListener connectionId sessionId)
  | None => mret tt
  end.

(** ** websocket/sessionManager.js *)

Definition initial_state : Session.State := Session.mkState (Some JNull) (Some JNull) false true.

Definition set_state_sessionId (v : jsval) (s : Session.t) : Session.t :=
  Session.mk (Session.id s) (Session.clientId s) (Session.openaiConnectionId s)
    (Session.ws s) (Session.created s)
    (Session.mkState v (Session.conversationId (Session.state s))
       (Session.isRecording (Session.state s)) (Session.isConnected (Session.state s))).

Definition set_state_conversationId (v : jsval) (s : Session.t) : Session.t :=
  Session.mk (Session.id s) (Session.clientId s) (Session.openaiConnectionId s)
    (Session.ws s) (Session.created s)
    (Session.mkState (Session.sessionId (Session.state s)) v
       (Session.isRecording (Session.state s)) (Session.isConnected (Session.state s))).

(** [updateSessionState(session, message)]: [session] is the object
    stored under [key] in [sessions], updated in place. The identifier
    is stored first and read back into the log line: a value without a
    string makes the template literal throw after the write. *)
Definition updateSessionState (key : string) (message : json) : M unit :=
  type ← lift (get_prop (Some message) "type");
  if is_string type "session.created" then
    session ← lift (get_prop (Some message) "session");
    id ← lift (get_prop session "id");
    modify (set_sessions (alter (set_state_sessionId id) key));;
    text ← lift (interpolate id);
    log LInfo "Sessão OpenAI criada: " [text]
  else if is_string type "conversation.created" then
    conversation ← lift (get_prop (Some message) "conversation");
    id ← lift (get_prop conversation "id");
    modify (set_sessions (alter (set_state_conversationId id) key));;
    text ← lift (interpolate id);
    log LInfo "Conversa criada: " [text]
  else if is_string type "error" then
    error ← lift (get_prop (Some message) "error");
    description ← lift (get_prop error "message");
    text ← lift (interpolate description);
    log LError "Erro da API OpenAI: " [text]
  else mret tt.

Definition handleOpenAIMessage (sessionId : string) (message : json) : M unit :=
  session ← gets (fun w => sessions w !! sessionId);
  match session with
  | None => log LError "Sessão não encontrada: " [str sessionId]
  | Some session =>
      try_catch
        (updateSessionState sessionId message;;
         rs ← ws_readyState (Session.ws session);
         if decide (rs = OPEN) then
           ws_send (Session.ws session) (JSON_value message);;
           log LDebug "Mensagem enviada ao cliente" []
         else mret tt)
        (fun error =>
           log LError "Erro ao processar mensagem da OpenAI: " [str (err_message error)])
  end.

(** What one call of [createSession] takes from outside: the two
    identifiers [uuidv4()] returns (for the session, then for the
    connection), the times [Date.now()] returns (for the connection
    record, then for the session), and how the handshake ends. *)
Record Drawn := mkDrawn {
  drawn_sessionId : string;
  drawn_connectionId : string;
  connection_time : Z;
  handshake : Handshake;
  session_time : Z
}.

(** [createSession(clientId, ws)]. The result is [None] for
    [undefined]. The call is taken from its start to the settlement of
    its promise. *)
Definition createSession (clientId : string) (ws : handle) (d : Drawn)
  : M (option Session.t) :=
  try_catch
    (existing ← gets (fun w => clientToSession w !! clientId);
     match existing with
     | Some existingSessionId =>
         log LWarn "Cliente já possui uma sessão ativa: " [str existingSessionId];;
         gets (fun w => sessions w !! existingSessionId)
     | None =>
         let sessionId := drawn_sessionId d in
         log LInfo "Criando nova sessão" [];;
         openaiConnectionId ←
           createConnection clientId (drawn_connectionId d) (connection_time d) (handshake d);
         let session :=
           Session.mk sessionId clientId openaiConnectionId ws (session_time d) initial_state in
         setMessageHandler openaiConnectionId sessionId;;
         modify (set_sessions (insert sessionId session));;
         modify (set_clientToSession (insert clientId sessionId));;
         mret (Some session)
     end)
    (fun error =>
       log LError "Erro ao criar sessão: " [str (err_message error)];;
       throw error).

Definition closeSession (sessionId : string) : M unit :=
  session ← gets (fun w => sessions w !! sessionId);
  match session with
  | None => log LWarn "Tentativa de fechar sessão inexistente: " [str sessionId]
  | Some session =>
      log LInfo "Encerrando sessão" [];;
      when (truthy_string (Session.openaiConnectionId session))
        (closeConnection (Session.openaiConnectionId session));;
      modify (set_clientToSession (delete (Session.clientId session)));;
      modify (set_sessions (delete sessionId))
  end.

Definition closeClientSessions (clientId : string) : M unit :=
  sessionId ← gets (fun w => clientToSession w !! clientId);
  match sessionId with
  | Some sessionId => when (truthy_string sessionId) (closeSession sessionId)
  | None => mret tt
  end.

Definition getSession (sessionId : string) : M (option Session.t) :=
  gets (fun w => sessions w !! sessionId).

(** [None] stands for [null] and for [undefined]: the callers only test
    the result for truth. *)
Definition getClientSession (clientId : string) : M (option Session.t) :=
  sessionId ← gets (fun w => clientToSession w !! clientId);
  match sessionId with
  | Some sessionId =>
      if truthy_string sessionId then gets (fun w => sessions w !! sessionId)
      else mret None
  | None => mret None
  end.

(** [sendToOpenAI(sessionId, event)] *)
Definition sendToOpenAI (sessionId : string) (event : loc) (now : Z) (uuid : string)
  : Task jsval :=
  session ⇐ sync (gets (fun w => sessions w !! sessionId));
  match session with
  | None => sync (throw (Error ("Sessão não encontrada: " +:+ sessionId)))
  | Some session =>
      await (sync (sendEvent (Session.openaiConnectionId session) event now uuid))
  end.

(** ** websocket/wsHandler.js *)

Definition forward (sessionId : string) (message : loc) (now : Z) (uuid : string)
  : Task unit :=
  await (sendToOpenAI sessionId message now uuid) ;;; task_ret tt.

Definition handleSessionUpdate := forward.
Definition handleAudioBufferClear := forward.
Definition handleResponseCreate := forward.
Definition handleResponseCancel := forward.
Definition handleConversationItemCreate := forward.
Definition handleConversationItemDelete := forward.

Definition handleAudioBufferAppend (sessionId : string) (message : loc)
    (now : Z) (uuid : string) : Task unit :=
  session ⇐ sync (getSession sessionId);
  match session with
  | None => sync (throw (Error ("Sessão não encontrada: " +:+ sessionId)))
  | Some _ =>
      sync (log LInfo "Recebido buffer de áudio para encaminhar à OpenAI" []) ;;;
      task_catch
        (await (sendToOpenAI sessionId message now uuid) ;;;
         sync (log LInfo "Buffer de áudio encaminhado com sucesso à OpenAI" []))
        (fun error =>
           sync (log LError "Falha ao encaminhar áudio para OpenAI: " [str (err_message error)]) ;;;
           sync (throw error))
  end.

Definition handleAudioBufferCommit (sessionId : string) (message : loc)
    (now : Z) (uuid : string) : Task unit :=
  sync (log LInfo "Recebida solicitação para commit do buffer de áudio" []) ;;;
  task_catch
    (await (sendToOpenAI sessionId message now uuid) ;;;
     sync (log LInfo "Commit do buffer de áudio enviado com sucesso à OpenAI" []))
    (fun error =>
       sync (log LError "Falha no commit do buffer de áudio: " [str (err_message error)]) ;;;
       sync (throw error)).

(** The [catch] block of [handleClientMessage]. *)
Definition reportInternalError (clientId : string) (message : loc) (error : JsError)
  : M unit :=
  log LError "Erro ao processar mensagem do cliente: " [str (err_message error)];;
  session ← getClientSession clientId;
  match session with
  | Some session =>
      rs ← ws_readyState (Session.ws session);
      if decide (rs = OPEN) then
        event_id ← read_field message "event_id";
        ws_send (Session.ws session)
          (JSON_value
             (object_literal
                [("type", str "error");
                 ("error",
                   Some (JObj [("message", JStr ("Erro ao processar solicitação: " +:+ err_message error));
                               ("code", JStr "internal_error")]));
                 ("event_id", event_id)]))
      else mret tt
  | None => mret tt
  end.

(** [handleClientMessage(clientId, message)]: the dispatcher. *)
Definition handleClientMessage (clientId : string) (message : loc)
    (now : Z) (uuid : string) : Task unit :=
  task_catch
    (session ⇐ sync (getClientSession clientId);
     match session with
     | None => sync (log LError "Cliente não possui sessão ativa" [])
     | Some session =>
         let sessionId := Session.id session in
         type ⇐ sync (read_field message "type");
         text ⇐ sync (lift (interpolate type));
         sync (log LDebug "Mensagem recebida do cliente: " [text]) ;;;
         if is_string type "session.update" then
           await (handleSessionUpdate sessionId message now uuid)
         else if is_string type "input_audio_buffer.append" then
           await (handleAudioBufferAppend sessionId message now uuid)
         else if is_string type "input_audio_buffer.commit" then
           await (handleAudioBufferCommit sessionId message now uuid)
         else if is_string type "input_audio_buffer.clear" then
           await (handleAudioBufferClear sessionId message now uuid)
         else if is_string type "response.create" then
           await (handleResponseCreate sessionId message now uuid)
         else if is_string type "response.cancel" then
           await (handleResponseCancel sessionId message now uuid)
         else if is_string type "conversation.item.create" then
           await (handleConversationItemCreate sessionId message now uuid)
         else if is_string type "conversation.item.delete" then
           await (handleConversationItemDelete sessionId message now uuid)
         else
           text ⇐ sync (lift (interpolate type));
           sync (log LWarn "Tipo de mensagem desconhecido: " [text])
     end)
    (fun error => sync (reportInternalError clientId message error)).

(** ** websocket/wsServer.js *)

Definition error_frame (text code : string) : json :=
  JObj [("type", JStr "error");
        ("error", JObj [("message", JStr text); ("code", JStr code)])].

Definition handleClientDisconnect (clientId : string) : M unit :=
  log LInfo "Cliente desconectado" [];;
  closeClientSessions clientId;;
  modify (set_clients (delete clientId)).

Definition handleClientError (clientId : string) (error : JsError) : M unit :=
  log LError "Erro em conexão de cliente: " [str (err_message error)].

(** The "pong" listener: [this.clients.get(clientId).lastPong = Date.now()]. *)
Definition onPong (clientId : string) (now : Z) : M unit :=
  client ← gets (fun w => clients w !! clientId);
  match client with
  | Some client =>
      modify (set_clients (insert clientId
        (Client.mk (Client.ws client) (Client.ip client) (Client.connected client) now)))
  | None =>
      throw (TypeError "Cannot set properties of undefined (setting 'lastPong')")
  end.

(** One client of the liveness check, at time [now]. *)
Definition checkClient (now : Z) (clientId : string) (client : Client.t) : M unit :=
  rs ← ws_readyState (Client.ws client);
  if decide (rs = OPEN) then
    ws_ping (Client.ws client) (JObj [("type", JStr "ping")]);;
    if negb (Client.lastPong client =? 0) && (60000 <? now - Client.lastPong client) then
      log LWarn "Cliente não respondeu ao ping, fechando conexão" [];;
      handleClientDisconnect clientId
    else mret tt
  else if negb (bool_decide (rs = CONNECTING)) then handleClientDisconnect clientId
  else mret tt.

Fixpoint forEach {A} (f : string -> A -> M unit) (entries : list (string * A)) : M unit :=
  match entries with
  | [] => mret tt
  | (k, v) :: rest => f k v;; forEach f rest
  end.

(** The body of the 30 s timer of [startPingInterval]. A callback only
    removes the entry it is visiting, so that visiting the entries
    present at the start is visiting them all. *)
Definition pingInterval (now : Z) : M unit := fun w =>
  forEach (checkClient now) (map_to_list (clients w)) w.

(** [close()]: the server is shutting down. *)
Definition closeClient (clientId : string) (client : Client.t) : M unit :=
  try_catch
    (closeClientSessions clientId;;
     rs ← ws_readyState (Client.ws client);
     if decide (rs = OPEN) then ws_close (Client.ws client) else mret tt)
    (fun error =>
       log LError "Erro ao fechar conexão de cliente: " [str (err_message error)]).

Definition close : M unit := fun w =>
  (log LInfo "Encerrando servidor WebSocket" [];;
   forEach closeClient (map_to_list (clients w));;
   modify (set_clients (fun _ => ∅))) w.

(** The promise of an [async] call nobody awaits: the call runs to its
    first [await] and leaves the rest pending. *)
Definition spawn {A} (t : Task A) : M (Step (Result A)) := settle t.

(** The pending rest run when the stack is empty; a rejection nobody
    handles ends in the process's "unhandledRejection" listener
    (app.js), which logs it. *)
Definition drain (pending : Step (Result unit)) : M unit :=
  r ← finish pending;
  match r with
  | Ok _ => mret tt
  | Throw _ => log LError "Rejeição de Promise não tratada" []
  end.

Section WithParser.

(** [JSON.parse]: the value read, or the [SyntaxError] thrown. *)
Variable JSON_parse : string -> Result json.

(** The "message" listener [setMessageHandler] attaches to an upstream
    socket. Where the line shows the JSON text of a value (of
    [message.error], or of the message, cut after 1000 characters), the
    log keeps the value that text denotes. *)
Definition onOpenAIMessage (connectionId sessionId : string) (data : string) : M unit :=
  try_catch
    (message ← lift (JSON_parse data);
     type ← lift (get_prop (Some message) "type");
     text ← lift (interpolate type);
     log LInfo "RECEBIDO DA OPENAI: " [text];;
     (if is_string type "response.text.delta" then
        delta ← lift (get_prop (Some message) "delta");
        text ← lift (interpolate delta);
        log LInfo "Delta de texto recebido: " [text]
      else if is_string type "response.audio.delta" then
        delta ← lift (get_prop (Some message) "delta");
        log LInfo "Delta de áudio recebido: "
          [str (if truthy delta then "dados presentes" else "sem dados")]
      else if is_string type "error" then
        error ← lift (get_prop (Some message) "error");
        log LError "Erro recebido da OpenAI: " [JSON_value <$> error]
      else log LInfo "Mensagem completa da OpenAI: " [Some (JSON_value message)]);;
     handleOpenAIMessage sessionId message)
    (fun error =>
       log LError "Erro ao processar mensagem da OpenAI: " [str (err_message error)]).

(** [WebSocketServer.handleClientMessage(clientId, data)]. The
    dispatcher is called without [await]: what it leaves pending is
    returned, [None] when it was not reached. *)
Definition wsServer_handleClientMessage (clientId : string) (data : string)
    (now : Z) (uuid : string) : M (option (Step (Result unit))) :=
  try_catch
    (log LDebug "Mensagem recebida" [];;
     parsed ← lift (JSON_parse data);
     message ← alloc parsed;
     pending ← spawn (handleClientMessage clientId message now uuid);
     mret (Some pending))
    (fun error =>
       log LError "Erro ao processar mensagem: " [str (err_message error)];;
       client ← gets (fun w => clients w !! clientId);
       match client with
       | Some client =>
           rs ← ws_readyState (Client.ws client);
           if decide (rs = OPEN) then
             ws_send (Client.ws client)
               (error_frame ("Erro no formato da mensagem: " +:+ err_message error)
                  "invalid_message_format")
           else mret tt
       | None => mret tt
       end;;
       mret None).

(** The "message" listener of [handleConnection], for the frame
    [data] of the client [clientId] on its socket [ws]. The frame
    arrives as a [Buffer]; the first line logged shows the start of its
    JSON text. *)
Definition onClientMessage (clientId : string) (ws : handle) (data : string)
    (now : Z) (uuid : string) : M unit :=
  log LInfo "CHegou alguma coisa! " [str (substring 0 100 (Buffer_JSON_text data))];;
  pending ← wsServer_handleClientMessage clientId data now uuid;
  ws_send ws
    (JObj [("type", JStr "message");
           ("error", JObj [("message", JStr "Teste de mensagem..... opa");
                           ("code", JStr "no_code_here")])]);;
  match pending with
  | Some rest => drain rest
  | None => mret tt
  end.

End WithParser.

(** [handleConnection(ws, req)]: [clientId] is the [uuidv4()] drawn,
    [clientIp] the address read off the request, [now] the time of the
    connection, [d] what [createSession] takes, [established] the time
    when the session is there. *)
Definition handleConnection (ws : handle) (clientIp : string)
    (clientId : string) (now : Z) (d : Drawn) (established : Z) : M unit :=
  log LInfo "Nova conexão WebSocket" [];;
  modify (set_clients (insert clientId (Client.mk ws clientIp now now)));;
  try_catch
    (createSession clientId ws d;;
     ws_on ws (ClientListeners clientId);;
     ws_send ws
       (JObj [("type", JStr "connection.established");
              ("clientId", JStr clientId);
              ("timestamp", JNum (number_of_Z established))]))
    (fun error =>
       log LError "Erro ao inicializar sessão: " [str (err_message error)];;
       ws_send ws
         (error_frame ("Erro ao inicializar: " +:+ err_message error) "initialization_failed");;
       ws_close ws;;
       modify (set_clients (delete clientId))).

(** ** Vocabulary of the statements *)

Definition sent_to (w : World) (h : handle) : list Frame :=
  match sockets w !! h with Some s => sent s | None => [] end.

Definition add_log (e : LogEntry) (w : World) : World := set_logs (fun l => l ++ [e]) w.

(** A socket the server accepted, open. *)
Definition accepted_socket : Socket := mkSocket OPEN "" [] [].

(** What [ws.send] leaves of a socket that is not connecting. *)
Definition after_send (data : json) (s : Socket) : Socket :=
  if decide (readyState s = OPEN) then push_frame (TextFrame data) s else s.

(** Tearing down only removes entries and closes sockets. *)
Definition evolves (w w' : World) : Prop :=
  clients w' ⊆ clients w /\
  sessions w' ⊆ sessions w /\
  clientToSession w' ⊆ clientToSession w /\
  connections w' ⊆ connections w /\
  forall h, readyState_of w' h = readyState_of w h \/ readyState_of w' h = CLOSING.

(** What [handleClientDisconnect] leaves of a client, from [w] to [w']:
    no client record, no entry in [clientToSession], and the session the
    client had and its upstream connection are in no map. *)
Definition evicted (w w' : World) (clientId : string) : Prop :=
  clients w' !! clientId = None /\
  clientToSession w' !! clientId = None /\
  forall sessionId session,
    clientToSession w !! clientId = Some sessionId ->
    sessions w !! sessionId = Some session ->
    sessions w' !! sessionId = None /\
    connections w' !! Session.openaiConnectionId session = None.

(** The test of the liveness check on one client at time [now]. *)
Definition evictable (now : Z) (w : World) (client : Client.t) : Prop :=
  (readyState_of w (Client.ws client) = OPEN /\
   Client.lastPong client <> 0 /\ 60000 < now - Client.lastPong client) \/
  readyState_of w (Client.ws client) = CLOSING \/
  readyState_of w (Client.ws client) = CLOSED.

(** What an upstream event does to the state of its session, as the
    specification words it: [session.created] sets the session
    identifier, [conversation.created] the conversation identifier, any
    other type nothing. *)
Inductive Update :=
| Unchanged
| SetsSessionId (v : jsval)
| SetsConversationId (v : jsval).

Definition event_type (message : json) : option string :=
  match message with
  | JObj props =>
      match obj_get props "type" with Some (JStr t) => Some t | _ => None end
  | _ => None
  end.

(** The object an event carries under [k], when it does. *)
Definition carried (message : json) (k : string) : option json :=
  match message with
  | JObj props =>
      match obj_get props k with Some JNull | None => None | Some v => Some v end
  | _ => None
  end.

Definition field (v : json) (k : string) : jsval :=
  match v with JObj props => obj_get props k | _ => None end.

(** An event that lacks the object its type goes with sets nothing. *)
Definition expected_update (message : json) : Update :=
  match event_type message with
  | Some t =>
      if String.eqb t "session.created" then
        match carried message "session" with
        | Some session => SetsSessionId (field session "id")
        | None => Unchanged
        end
      else if String.eqb t "conversation.created" then
        match carried message "conversation" with
        | Some conversation => SetsConversationId (field conversation "id")
        | None => Unchanged
        end
      else Unchanged
  | None => Unchanged
  end.

(** The line an event of one of the three types is logged with: the
    object the type goes with, the property of it the line shows, and
    the level and the text of the line. *)
Record Shown := mkShown {
  shown_object : string;
  shown_property : string;
  shown_level : Level;
  shown_text : string
}.

Definition shown (message : json) : option Shown :=
  match event_type message with
  | Some t =>
      if String.eqb t "session.created" then
        Some (mkShown "session" "id" LInfo "Sessão OpenAI criada: ")
      else if String.eqb t "conversation.created" then
        Some (mkShown "conversation" "id" LInfo "Conversa criada: ")
      else if String.eqb t "error" then
        Some (mkShown "error" "message" LError "Erro da API OpenAI: ")
      else None
  | None => None
  end.

(** The error the update of the state raises, when it does: the event
    is [null]; or it is of one of the three types and lacks the object
    its type goes with; or the value its line shows has no string. *)
Definition update_failure (message : json) : option JsError :=
  match message with
  | JNull => Some (TypeError "Cannot read properties of null (reading 'type')")
  | _ =>
      match shown message with
      | Some line =>
          match field message (shown_object line) with
          | None =>
              Some (TypeError ("Cannot read properties of undefined (reading '"
                               +:+ shown_property line +:+ "')"))
          | Some JNull =>
              Some (TypeError ("Cannot read properties of null (reading '"
                               +:+ shown_property line +:+ "')"))
          | Some object =>
              match field object (shown_property line) with
              | Some v =>
                  if to_string_throws v
                  then Some (TypeError "Cannot convert object to primitive value")
                  else None
              | None => None
              end
          end
      | None => None
      end
  end.

(** The line the update logs when it does not raise. *)
Definition update_lines (message : json) : list LogEntry :=
  match shown message with
  | Some line =>
      match carried message (shown_object line) with
      | Some object =>
          [mkLog (shown_level line) (shown_text line) [field object (shown_property line)]]
      | None => []
      end
  | None => []
  end.

Definition apply_update (u : Update) (sessionId : string)
    (m : gmap string Session.t) : gmap string Session.t :=
  match u with
  | SetsSessionId v => alter (set_state_sessionId v) sessionId m
  | SetsConversationId v => alter (set_state_conversationId v) sessionId m
  | Unchanged => m
  end.

(** The two maps of the session manager agree: a client's entry names a
    session stored under that identifier, which is that client's, and
    identifiers are not empty. *)
Definition registry_consistent (w : World) : Prop :=
  forall clientId sessionId,
    clientToSession w !! clientId = Some sessionId ->
    sessionId <> "" /\
    exists session,
      sessions w !! sessionId = Some session /\
      Session.clientId session = clientId /\
      Session.openaiConnectionId session <> "".


(** ** Vocabulary of further statements *)

(** The message types the dispatcher forwards upstream. *)
Definition forwarded_types : list string :=
  ["session.update"; "input_audio_buffer.append"; "input_audio_buffer.commit";
   "input_audio_buffer.clear"; "response.create"; "response.cancel";
   "conversation.item.create"; "conversation.item.delete"].

(** The [type] of a message, when it is a string. *)
Definition message_type (v : jsval) : option string :=
  match v with
  | Some (JObj props) =>
      match obj_get props "type" with Some (JStr t) => Some t | _ => None end
  | _ => None
  end.

(** The properties of an event after [sendEvent]: a truthy [event_id]
    is kept, any other is set to the new identifier. *)
Definition stamp (now : Z) (uuid : string) (props : list (string * json))
  : list (string * json) :=
  if truthy (obj_get props "event_id") then props
  else obj_set props "event_id" (JStr (new_event_id now uuid)).

(** The client [clientId] has the session [session], stored under its
    own identifier. *)
Definition has_session (w : World) (clientId : string) (session : Session.t) : Prop :=
  clientToSession w !! clientId = Some (Session.id session) /\
  Session.id session <> "" /\
  sessions w !! Session.id session = Some session.

(** Nothing was registered or removed, and no socket changed its state. *)
Definition steady (w w' : World) : Prop :=
  clients w' = clients w /\
  sessions w' = sessions w /\
  clientToSession w' = clientToSession w /\
  connections w' = connections w /\
  forall h, readyState_of w' h = readyState_of w h.

(** A computation, the rest of a task and a task that leave every store
    steady, whenever they are run. *)
Definition m_steady {A} (m : M A) : Prop := forall w, steady w (m w).2.

Fixpoint step_steady {A} (s : Step A) {struct s} : Prop :=
  match s with
  | Done _ => True
  | Yield rest =>
      forall w,
        match rest w with
        | (Ok s', w') => steady w w' /\ step_steady s'
        | (Throw _, w') => steady w w'
        end
  end.

Definition task_steady {A} (t : Task A) : Prop :=
  forall w,
    match t w with
    | (Ok s, w') => steady w w' /\ step_steady s
    | (Throw _, w') => steady w w'
    end.

(** Two records of one session: all but the conversation state agree. *)
Definition same_identity (s s' : Session.t) : Prop :=
  Session.id s' = Session.id s /\
  Session.clientId s' = Session.clientId s /\
  Session.openaiConnectionId s' = Session.openaiConnectionId s /\
  Session.ws s' = Session.ws s /\
  Session.created s' = Session.created s.

(** The same sessions under the same identifiers, up to their
    conversation state. *)
Definition sessions_updated (m m' : gmap string Session.t) : Prop :=
  forall sessionId,
    match m !! sessionId, m' !! sessionId with
    | Some s, Some s' => same_identity s s'
    | None, None => True
    | _, _ => False
    end.

(** No registered upstream connection runs over the socket [h]. *)
Definition not_upstream (w : World) (h : handle) : Prop :=
  forall connectionId connection,
    connections w !! connectionId = Some connection -> Connection.ws connection <> h.

(** What [closeClientSessions] leaves of a client, from [w] to [w']:
    no entry in [clientToSession], and the session the client had and
    its upstream connection are in no map. *)
Definition unsessioned (w w' : World) (clientId : string) : Prop :=
  clientToSession w' !! clientId = None /\
  forall sessionId session,
    clientToSession w !! clientId = Some sessionId ->
    sessions w !! sessionId = Some session ->
    sessions w' !! sessionId = None /\
    connections w' !! Session.openaiConnectionId session = None.

(** The value [v] has a string: a template literal shows it and does
    not throw. *)
Definition has_string (v : jsval) : Prop := interpolate v = Ok v.

(** The frame the "message" listener sends after every frame received. *)
Definition test_frame : json :=
  JObj [("type", JStr "message");
        ("error", JObj [("message", JStr "Teste de mensagem..... opa");
                        ("code", JStr "no_code_here")])].

End Relay.

Module Examples.
Import Js Relay.

Definition cfg : Config :=
  mkConfig "wss://api.openai.com/v1/realtime" "gpt-4o-realtime-preview" "sk-test".

(** A client socket was accepted (handle 0); nothing else happened. *)
Definition accepted : World := set_sockets (insert 0%nat accepted_socket) (initial cfg).

Definition timing_out : Drawn := mkDrawn "session-1" "connection-1" 1000 HsTimeout 11000.
Definition opening : Drawn := mkDrawn "session-1" "connection-1" 1000 HsOpen 1200.

(** The client of socket 0 has its session. *)
Definition in_session : World :=
  (handleConnection 0%nat "10.0.0.1" "client-1" 900 opening 1201 accepted).2.

(** The same, with a message object of the client at location 0. *)
Definition with_event : World :=
  (alloc (JObj [("type", JStr "response.create")]) in_session).2.

(** A parser for the examples: it reads the literals and rejects the
    rest. *)
Definition parse_literals (data : string) : Result json :=
  if String.eqb data "null" then Ok JNull
  else if String.eqb data "true" then Ok (JBool true)
  else if String.eqb data "false" then Ok (JBool false)
  else Throw (SyntaxError "Unexpected token in JSON").


(** The records of the client of [in_session]. *)
Definition client_1 : Client.t := Client.mk 0%nat "10.0.0.1" 900 900.
Definition session_1 : Session.t :=
  Session.mk "session-1" "client-1" "connection-1" 0%nat 1200 initial_state.
Definition connection_1 : Connection.t := Connection.mk 1%nat "client-1" 1000.

(** The session of the client is there, the record of its upstream
    connection is not. *)
Definition orphaned : World := set_connections (delete "connection-1") in_session.

(** A parser for the examples that reads one text as [v] and rejects
    the rest. *)
Definition parse_one (text : string) (v : json) (data : string) : Result json :=
  if String.eqb data text then Ok v else Throw (SyntaxError "Unexpected token in JSON").

Definition response_create : list (string * json) := [("type", JStr "response.create")].

(** What [{"type":"response.create","n":1e400}] parses to: the number
    is beyond the largest binary64 number. *)
Definition response_overflowing : list (string * json) :=
  [("type", JStr "response.create"); ("n", JNum infinity)].

(** What [{"type":"response.create","event_id":1e400}] parses to. *)
Definition response_numbered : list (string * json) :=
  [("type", JStr "response.create"); ("event_id", JNum infinity)].

(** What [{"type":{"toString":1}}] parses to: no template literal can
    show its [type]. *)
Definition typed_by_object : list (string * json) :=
  [("type", JObj [("toString", JNum 1)])].

(** The client of [in_session] with four event objects, at the
    locations 0 to 3: one without [event_id], one with an identifier of
    the caller, one whose [event_id] is the empty string and one whose
    [event_id] is [Infinity], as [1e400] parses. *)
Definition with_events : World :=
  (alloc (JObj [("type", JStr "response.create"); ("event_id", JNum infinity)])
     (alloc (JObj [("type", JStr "response.create"); ("event_id", JStr "")])
        (alloc (JObj [("type", JStr "response.create"); ("event_id", JStr "evt_client_1")])
           (alloc (JObj response_create) in_session).2).2).2).2.

(** The handshake of the client's upstream connection timed out: the
    connection is registered, its socket (handle 1) still connecting.
    An event object is at location 0. *)
Definition stalled : World :=
  (alloc (JObj response_create)
     (handleConnection 0%nat "10.0.0.1" "client-1" 900 timing_out 11001 accepted).2).2.

End Examples.

(* ===================================================================== *)
(** * Part II: verified properties                                        *)
(* ===================================================================== *)

(** ** Binary64 arithmetic

    What the rounding of [SpecFloat] does to a product, a quotient and a
    sum, as far as the index computation of [resampleAudio] needs it. *)

Module Binary64Spec.
Import Js Binary64.

(** *** Powers of two and values *)

Lemma pow2_pos e : (0 < pow2 e)%R.
Proof. apply powerRZ_lt. lra. Qed.

Lemma pow2_add a b : pow2 (a + b) = (pow2 a * pow2 b)%R.
Proof. apply powerRZ_add. lra. Qed.

Lemma pow2_IZR e : 0 <= e -> pow2 e = IZR (2 ^ e).
Proof.
  intros H. unfold pow2. rewrite <- (Z2Nat.id e H) at 1.
  rewrite <- pow_powerRZ, pow_IZR, Z2Nat.id by exact H. reflexivity.
Qed.

Lemma pow2_le a b : a <= b -> (pow2 a <= pow2 b)%R.
Proof.
  intros H. replace b with (a + (b - a)) by lia.
  rewrite pow2_add, (pow2_IZR (b - a)) by lia.
  assert (1 <= 2 ^ (b - a)) as H1 by (apply Z.lt_pred_le, Z.pow_pos_nonneg; lia).
  apply IZR_le in H1. pose proof (pow2_pos a). nra.
Qed.

Lemma pow2_succ e : pow2 (e + 1) = (2 * pow2 e)%R.
Proof. rewrite pow2_add. unfold pow2 at 2. simpl. lra. Qed.

Lemma pow2_opp e : (pow2 (- e) * pow2 e = 1)%R.
Proof. rewrite <- pow2_add. replace (- e + e) with 0 by lia. reflexivity. Qed.

Lemma F2R_shift m e j : 0 <= j -> F2R (m * 2 ^ j) e = F2R m (e + j).
Proof.
  intros H. unfold F2R. rewrite mult_IZR, pow2_add, (pow2_IZR j H). lra.
Qed.

Lemma F2R_le m1 m2 e : m1 <= m2 -> (F2R m1 e <= F2R m2 e)%R.
Proof.
  intros H. unfold F2R. apply Rmult_le_compat_r; [left; apply pow2_pos | apply IZR_le, H].
Qed.

Lemma F2R_lt m1 m2 e : m1 < m2 -> (F2R m1 e < F2R m2 e)%R.
Proof.
  intros H. unfold F2R. apply Rmult_lt_compat_r; [apply pow2_pos | apply IZR_lt, H].
Qed.

(** *** The number of binary digits *)

Lemma digits2_pos_bounds p :
  2 ^ (Zpos (digits2_pos p) - 1) <= Zpos p < 2 ^ Zpos (digits2_pos p).
Proof.
  induction p as [p IH|p IH|]; cbn [digits2_pos].
  - rewrite Pos2Z.inj_succ. replace (Z.succ (Zpos (digits2_pos p)) - 1) with (Z.succ (Zpos (digits2_pos p) - 1)) by lia.
    rewrite !Z.pow_succ_r by lia. lia.
  - rewrite Pos2Z.inj_succ. replace (Z.succ (Zpos (digits2_pos p)) - 1) with (Z.succ (Zpos (digits2_pos p) - 1)) by lia.
    rewrite !Z.pow_succ_r by lia. lia.
  - cbn. lia.
Qed.

Lemma digits2_pos_unique p d :
  2 ^ (d - 1) <= Zpos p < 2 ^ d -> Zpos (digits2_pos p) = d.
Proof.
  intros [Hlo Hhi]. pose proof (digits2_pos_bounds p) as [Hlo' Hhi'].
  assert (0 < d).
  { destruct (Z_lt_le_dec 0 d); [assumption|].
    assert (2 ^ d <= 2 ^ 0) by (destruct (Z_lt_le_dec d 0); [rewrite Z.pow_neg_r by assumption; cbn; lia | apply Z.pow_le_mono_r; lia]).
    cbn in *. lia. }
  destruct (Z.lt_trichotomy (Zpos (digits2_pos p)) d) as [Hlt | [Heq | Hgt]]; [|assumption|].
  - assert (2 ^ Zpos (digits2_pos p) <= 2 ^ (d - 1)) by (apply Z.pow_le_mono_r; lia). lia.
  - assert (2 ^ d <= 2 ^ (Zpos (digits2_pos p) - 1)) by (apply Z.pow_le_mono_r; lia). lia.
Qed.

Lemma digits2_pos_shift p j q :
  0 <= j -> Zpos q = Zpos p * 2 ^ j -> Zpos (digits2_pos q) = Zpos (digits2_pos p) + j.
Proof.
  intros Hj Hq. apply digits2_pos_unique. rewrite Hq.
  pose proof (digits2_pos_bounds p) as [Hlo Hhi].
  replace (Zpos (digits2_pos p) + j - 1) with (Zpos (digits2_pos p) - 1 + j) by lia.
  rewrite !Z.pow_add_r by lia.
  assert (0 < 2 ^ j) by (apply Z.pow_pos_nonneg; lia). nia.
Qed.

Lemma Pos_iter_xO m d : Zpos (Pos.iter xO m d) = Zpos m * 2 ^ Zpos d.
Proof.
  induction d as [|d IH] using Pos.peano_ind.
  - cbn. lia.
  - rewrite Pos.iter_succ, Pos2Z.inj_succ, Z.pow_succ_r by lia.
    rewrite Pos2Z.inj_xO, IH. lia.
Qed.

(** *** Shifting right *)

Lemma iter_pos_iter {A} (f : A -> A) n x : SpecFloat.iter_pos f n x = Pos.iter f x n.
Proof.
  revert x. induction n as [n IH|n IH|]; intros x; cbn.
  - rewrite !IH. rewrite <- !Pos.iter_swap. reflexivity.
  - rewrite !IH. reflexivity.
  - reflexivity.
Qed.

Lemma shr_1_m mrs : 0 <= shr_m mrs -> shr_m (shr_1 mrs) = shr_m mrs / 2.
Proof.
  destruct mrs as [m r s]. cbn. intros H.
  destruct m as [|[p|p|]|p]; cbn [shr_m]; try lia; try reflexivity.
  - apply Z.div_unique with 1; lia.
  - apply Z.div_unique with 0; lia.
Qed.

Lemma shr_m_iter mrs n :
  0 <= shr_m mrs -> shr_m (SpecFloat.iter_pos shr_1 n mrs) = shr_m mrs / 2 ^ Zpos n.
Proof.
  intros H. rewrite iter_pos_iter.
  induction n as [|n IH] using Pos.peano_ind.
  - cbn [Pos.iter]. rewrite shr_1_m by assumption. reflexivity.
  - rewrite Pos.iter_succ, shr_1_m.
    + rewrite IH, Pos2Z.inj_succ, Z.pow_succ_r, Z.div_div by lia.
      f_equal. lia.
    + rewrite IH. apply Z.div_pos; [assumption | apply Z.pow_pos_nonneg; lia].
Qed.

Lemma shr_1_exact m :
  0 <= m -> shr_1 (Build_shr_record (2 * m) false false) = Build_shr_record m false false.
Proof. intros _. destruct m; reflexivity. Qed.

Lemma shr_iter_exact m n :
  0 <= m ->
  SpecFloat.iter_pos shr_1 n (Build_shr_record (m * 2 ^ Zpos n) false false) = Build_shr_record m false false.
Proof.
  intros H. rewrite iter_pos_iter.
  induction n as [|n IH] using Pos.peano_ind.
  - cbn [Pos.iter]. replace (m * 2 ^ 1) with (2 * m) by lia. apply shr_1_exact, H.
  - rewrite Pos.iter_succ_r, Pos2Z.inj_succ, Z.pow_succ_r by lia.
    replace (m * (2 * 2 ^ Zpos n)) with (2 * (m * 2 ^ Zpos n)) by lia.
    rewrite shr_1_exact; [exact IH|].
    assert (0 < 2 ^ Zpos n) by (apply Z.pow_pos_nonneg; lia). nia.
Qed.

(** *** Rounding to nearest, ties to even *)

Lemma fexp_spec e : fexp prec emax e = Z.max (e - 53) (-1074).
Proof. reflexivity. Qed.

Lemma Zdigits2_bounds m : 0 < m -> 2 ^ (Zdigits2 m - 1) <= m < 2 ^ Zdigits2 m.
Proof. destruct m as [|p|p]; try lia. intros _. apply digits2_pos_bounds. Qed.

Lemma Zdigits2_pos m : 0 < m -> 0 < Zdigits2 m.
Proof. destruct m; cbn; lia. Qed.

Lemma Zdigits2_le m k : 0 < m < 2 ^ k -> Zdigits2 m <= k.
Proof.
  intros [H0 Hk]. pose proof (Zdigits2_bounds m H0) as [Hlo _].
  destruct (Z_le_gt_dec (Zdigits2 m) k); [assumption|].
  assert (2 ^ k <= 2 ^ (Zdigits2 m - 1)); [|lia].
  destruct (Z_lt_le_dec k 0); [rewrite Z.pow_neg_r in Hk by assumption; lia|].
  apply Z.pow_le_mono_r; lia.
Qed.

Lemma shr_m_of_loc m l : shr_m (shr_record_of_loc m l) = m.
Proof. destruct l as [|[]]; reflexivity. Qed.

Lemma round_nearest_even_bounds m l : m <= round_nearest_even m l <= m + 1.
Proof. destruct l as [|[]]; cbn; try destruct (Z.even m); lia. Qed.

Lemma shr_fexp_spec m e l :
  0 <= m ->
  let e1 := Z.max e (fexp prec emax (Zdigits2 m + e)) in
  snd (shr_fexp prec emax m e l) = e1 /\
  shr_m (fst (shr_fexp prec emax m e l)) = m / 2 ^ (e1 - e) /\
  (e1 = e -> fst (shr_fexp prec emax m e l) = shr_record_of_loc m l) /\
  (l = loc_Exact -> m mod 2 ^ (e1 - e) = 0 ->
   fst (shr_fexp prec emax m e l) = Build_shr_record (m / 2 ^ (e1 - e)) false false).
Proof.
  intros Hm e1. unfold shr_fexp, shr.
  destruct (fexp prec emax (Zdigits2 m + e) - e) as [|p|p] eqn:Hp; cbn [fst snd].
  - assert (e1 = e) as -> by (unfold e1; lia).
    rewrite Z.sub_diag, shr_m_of_loc, Z.div_1_r. repeat split; try reflexivity.
    intros -> _. reflexivity.
  - assert (e1 = e + Zpos p) as -> by (unfold e1; lia).
    replace (e + Zpos p - e) with (Zpos p) by lia.
    rewrite shr_m_iter, shr_m_of_loc by (rewrite shr_m_of_loc; assumption).
    repeat split; try reflexivity; [lia|].
    intros -> Hmod. cbn [shr_record_of_loc].
    rewrite (Z.div_mod m (2 ^ Zpos p)) at 1 by (apply Z.pow_nonzero; lia).
    rewrite Hmod, Z.add_0_r, Z.mul_comm. apply shr_iter_exact.
    apply Z.div_pos; [assumption | apply Z.pow_pos_nonneg; lia].
  - assert (e1 = e) as -> by (unfold e1; lia).
    rewrite Z.sub_diag, shr_m_of_loc, Z.div_1_r. repeat split; try reflexivity.
    intros -> _. reflexivity.
Qed.

(** What [binary_round_aux] returns: the mantissa [mx] is cut at the
    exponent [e1] of the format, rounded by at most one unit, and the
    result keeps that value unless it overflows. *)
Lemma binary_round_aux_spec s mx ex lx :
  0 <= mx ->
  let e1 := Z.max ex (fexp prec emax (Zdigits2 mx + ex)) in
  exists m1,
    mx / 2 ^ (e1 - ex) <= m1 <= mx / 2 ^ (e1 - ex) + 1 /\
    (lx = loc_Exact -> mx mod 2 ^ (e1 - ex) = 0 -> m1 = mx / 2 ^ (e1 - ex)) /\
    match binary_round_aux prec emax s mx ex lx with
    | S754_zero s' => s' = s /\ m1 = 0
    | S754_infinity s' => s' = s /\ (pow2 972 <= F2R m1 e1)%R /\ (m1 < 2 ^ 53 -> 971 < e1)
    | S754_finite s' m e => s' = s /\ F2R (Zpos m) e = F2R m1 e1 /\ (m1 < 2 ^ 53 -> Zpos m = m1 /\ e = e1)
    | S754_nan => False
    end.
Proof.
  intros Hmx e1.
  destruct (shr_fexp_spec mx ex lx Hmx) as (He1 & Hm' & Hsame & Hexact).
  fold e1 in He1, Hm', Hsame, Hexact.
  unfold binary_round_aux.
  destruct (shr_fexp prec emax mx ex lx) as [mrs' e'] eqn:E1. cbn [fst snd] in *. subst e'.
  set (m1 := round_nearest_even (shr_m mrs') (loc_of_shr_record mrs')).
  assert (He1ex : 0 <= e1 - ex) by (unfold e1; lia).
  assert (Hpow : 0 < 2 ^ (e1 - ex)) by (apply Z.pow_pos_nonneg; lia).
  assert (Hm'0 : 0 <= mx / 2 ^ (e1 - ex)) by (apply Z.div_pos; assumption).
  assert (Hb : mx / 2 ^ (e1 - ex) <= m1 <= mx / 2 ^ (e1 - ex) + 1).
  { unfold m1. rewrite <- Hm'. apply round_nearest_even_bounds. }
  assert (Hm'53 : mx / 2 ^ (e1 - ex) < 2 ^ 53).
  { destruct (Z.eq_dec mx 0) as [->|Hne]; [rewrite Z.div_0_l by lia; lia|].
    pose proof (Zdigits2_bounds mx ltac:(lia)) as [_ Hhi].
    pose proof (Zdigits2_pos mx ltac:(lia)).
    apply Z.div_lt_upper_bound; [assumption|].
    rewrite <- Z.pow_add_r by lia.
    eapply Z.lt_le_trans; [exact Hhi|]. apply Z.pow_le_mono_r; [lia|].
    unfold e1. rewrite fexp_spec. lia. }
  assert (He1min : -1074 <= e1) by (unfold e1; rewrite fexp_spec; lia).
  exists m1. split; [exact Hb|]. split.
  { intros Hl Hmod. unfold m1. rewrite (Hexact Hl Hmod). reflexivity. }
  destruct (shr_fexp_spec m1 e1 loc_Exact ltac:(lia)) as (He2 & Hm2 & Hsame2 & _).
  set (e2 := Z.max e1 (fexp prec emax (Zdigits2 m1 + e1))) in *.
  destruct (shr_fexp prec emax m1 e1 loc_Exact) as [mrs2 e2'] eqn:E2. cbn [fst snd] in *. subst e2'.
  destruct (Z.eq_dec m1 0) as [H0|H0].
  - rewrite H0, Z.div_0_l in Hm2 by (apply Z.pow_nonzero; unfold e2; lia).
    rewrite Hm2. split; [reflexivity | exact H0].
  - destruct (Z.eq_dec m1 (2 ^ 53)) as [H53|H53].
    + assert (Zdigits2 m1 = 54) as Hd by (rewrite H53; reflexivity).
      assert (e2 = e1 + 1) as He by (unfold e2; rewrite Hd, fexp_spec; lia).
      rewrite He in *.
      replace (e1 + 1 - e1) with 1 in Hm2 by lia.
      rewrite H53 in Hm2. change (2 ^ 53 / 2 ^ 1) with 4503599627370496 in Hm2.
      rewrite Hm2. cbv beta iota.
      assert (Hv : F2R 4503599627370496 (e1 + 1) = F2R m1 e1).
      { rewrite H53. unfold F2R. rewrite pow2_succ.
        change (2 ^ 53) with (2 * 4503599627370496). rewrite mult_IZR. lra. }
      destruct (e1 + 1 <=? emax - prec) eqn:Hov.
      * split; [reflexivity|]. split; [exact Hv|]. lia.
      * split; [reflexivity|]. split; [|lia]. rewrite <- Hv. apply Z.leb_gt in Hov.
        change (emax - prec) with 971 in Hov.
        unfold F2R. pose proof (pow2_le 972 (e1 + 1) ltac:(lia)). pose proof (pow2_pos 972).
        assert (1 <= IZR 4503599627370496)%R by (apply IZR_le; lia). nra.
    + assert (Hd : Zdigits2 m1 <= 53) by (apply Zdigits2_le; lia).
      assert (e2 = e1) as He by (unfold e2; rewrite fexp_spec; lia).
      rewrite He in *.
      rewrite (Hsame2 eq_refl). cbn [shr_record_of_loc shr_m].
      destruct m1 as [|m|m]; [lia| |lia]. cbv beta iota.
      destruct (e1 <=? emax - prec) eqn:Hov.
      * repeat split; reflexivity.
      * split; [reflexivity|]. apply Z.leb_gt in Hov. change (emax - prec) with 971 in Hov.
        split; [|lia].
        unfold F2R. pose proof (pow2_le 972 e1 ltac:(lia)). pose proof (pow2_pos 972).
        assert (1 <= IZR (Zpos m))%R by (apply IZR_le; lia). nra.
Qed.

(** The rounding error is less than one unit of the exponent [e1]. *)
Lemma binary_round_aux_bounds s mx ex lx :
  0 <= mx ->
  let e1 := Z.max ex (fexp prec emax (Zdigits2 mx + ex)) in
  match binary_round_aux prec emax s mx ex lx with
  | S754_zero s' => s' = s /\ (F2R mx ex < pow2 e1)%R
  | S754_infinity s' => s' = s /\ (pow2 972 <= F2R mx ex + pow2 e1)%R
  | S754_finite s' m e =>
      s' = s /\ (F2R mx ex - pow2 e1 < F2R (Zpos m) e <= F2R mx ex + pow2 e1)%R
  | S754_nan => False
  end.
Proof.
  intros Hmx e1.
  destruct (binary_round_aux_spec s mx ex lx Hmx) as (m1 & Hb & _ & Hr). fold e1 in Hb, Hr.
  assert (He1ex : 0 <= e1 - ex) by (unfold e1; lia).
  assert (Hpow : 0 < 2 ^ (e1 - ex)) by (apply Z.pow_pos_nonneg; lia).
  pose proof (Z.mul_div_le mx _ Hpow) as Hlo.
  pose proof (Z.mul_succ_div_gt mx _ Hpow) as Hhi.
  pose proof (Z.div_pos mx _ Hmx Hpow) as Hm'0.
  set (m' := mx / 2 ^ (e1 - ex)) in *.
  assert (Hlo' : (F2R m' e1 <= F2R mx ex)%R).
  { replace e1 with (ex + (e1 - ex)) at 1 by lia. rewrite <- F2R_shift by lia. apply F2R_le. lia. }
  assert (Hhi' : (F2R mx ex < F2R (m' + 1) e1)%R).
  { replace e1 with (ex + (e1 - ex)) by lia. rewrite <- F2R_shift by lia. apply F2R_lt. lia. }
  assert (Hone : F2R (m' + 1) e1 = (F2R m' e1 + pow2 e1)%R).
  { unfold F2R. rewrite plus_IZR. lra. }
  assert (Hm1 : (F2R m' e1 <= F2R m1 e1 <= F2R (m' + 1) e1)%R).
  { split; apply F2R_le; lia. }
  destruct (binary_round_aux prec emax s mx ex lx) as [s'|s'| |s' m e].
  - destruct Hr as [-> ->]. split; [reflexivity|].
    assert (m' = 0) as Hm0 by lia. rewrite Hm0 in Hhi'. unfold F2R in Hhi' at 2.
    rewrite Rmult_1_l in Hhi'. exact Hhi'.
  - destruct Hr as (-> & Hr & _). split; [reflexivity|]. lra.
  - exact Hr.
  - destruct Hr as (-> & Hr & _). split; [reflexivity|]. rewrite Hr. lra.
Qed.

(** *** Canonical representations *)

Lemma bounded_spec m e :
  SpecFloat.bounded prec emax m e = true <->
  e = Z.max (Zpos (digits2_pos m) + e - 53) (-1074) /\ e <= 971.
Proof.
  unfold SpecFloat.bounded, canonical_mantissa. rewrite andb_true_iff, Z.eqb_eq, Z.leb_le, fexp_spec.
  change (emax - prec) with 971. intuition lia.
Qed.

Lemma bounded_mantissa m e : SpecFloat.bounded prec emax m e = true -> Zpos m < 2 ^ 53.
Proof.
  intros H. apply bounded_spec in H. pose proof (digits2_pos_bounds m) as [_ Hhi].
  eapply Z.lt_le_trans; [exact Hhi|]. apply Z.pow_le_mono_r; lia.
Qed.

Lemma bounded_normal m e :
  SpecFloat.bounded prec emax m e = true -> -1074 < e -> 2 ^ 52 <= Zpos m.
Proof.
  intros H He. apply bounded_spec in H. pose proof (digits2_pos_bounds m) as [Hlo _].
  replace (Zpos (digits2_pos m)) with 53 in Hlo by lia. exact Hlo.
Qed.

(** Of two canonical representations, the one with the lower exponent
    is the lower number. *)
Lemma canonical_lt m1 e1 m2 e2 :
  SpecFloat.bounded prec emax m1 e1 = true -> SpecFloat.bounded prec emax m2 e2 = true ->
  e1 < e2 -> (F2R (Zpos m1) e1 < F2R (Zpos m2) e2)%R.
Proof.
  intros H1 H2 Hlt.
  pose proof (bounded_mantissa _ _ H1) as Hm1.
  assert (He1 : -1074 <= e1) by (apply bounded_spec in H1; lia).
  pose proof (bounded_normal _ _ H2 ltac:(lia)) as Hm2.
  apply IZR_lt in Hm1. apply IZR_le in Hm2.
  change (2 ^ 53) with (2 * 4503599627370496) in Hm1. rewrite mult_IZR in Hm1.
  change (2 ^ 52) with 4503599627370496 in Hm2.
  pose proof (pow2_le (e1 + 1) e2 ltac:(lia)) as Hp. rewrite pow2_succ in Hp.
  pose proof (pow2_pos e1). unfold F2R.
  apply Rlt_le_trans with (2 * IZR 4503599627370496 * pow2 e1)%R; [nra|].
  apply Rle_trans with (IZR 4503599627370496 * pow2 e2)%R; [nra|].
  apply Rmult_le_compat_r; [lra | exact Hm2].
Qed.

(** [binary_round] gives a number that the format holds its canonical
    representation. *)
Lemma binary_round_canonical s m0 E m e :
  SpecFloat.bounded prec emax m e = true ->
  Zpos m0 * 2 ^ (E - Z.min E e) = Zpos m * 2 ^ (e - Z.min E e) ->
  binary_round prec emax s m0 E = S754_finite s m e.
Proof.
  intros Hb Hv.
  pose proof (bounded_mantissa _ _ Hb) as Hm53.
  apply bounded_spec in Hb. destruct Hb as [Hcan Hmax].
  assert (Hd : Zpos (digits2_pos m0) + E = Zpos (digits2_pos m) + e).
  { assert (Hq : 0 < Zpos m0 * 2 ^ (E - Z.min E e)).
    { apply Z.mul_pos_pos; [lia | apply Z.pow_pos_nonneg; lia]. }
    pose proof (digits2_pos_shift m0 (E - Z.min E e) (Z.to_pos (Zpos m0 * 2 ^ (E - Z.min E e)))
                  ltac:(lia) ltac:(rewrite Z2Pos.id by exact Hq; reflexivity)) as Hd0.
    pose proof (digits2_pos_shift m (e - Z.min E e) (Z.to_pos (Zpos m0 * 2 ^ (E - Z.min E e)))
                  ltac:(lia) ltac:(rewrite Z2Pos.id by exact Hq; exact Hv)) as Hd1.
    lia. }
  unfold binary_round. rewrite Hd, fexp_spec, <- Hcan. unfold shl_align.
  assert (Hfin : forall mz ez,
             e = Z.max ez (fexp prec emax (Zdigits2 (Zpos mz) + ez)) ->
             Zpos mz = Zpos m * 2 ^ (e - ez) ->
             binary_round_aux prec emax s (Zpos mz) ez loc_Exact = S754_finite s m e).
  { intros mz ez He Hmz.
    assert (0 <= e - ez) by lia.
    destruct (binary_round_aux_spec s (Zpos mz) ez loc_Exact ltac:(lia)) as (m1 & _ & Hex & Hr).
    rewrite <- He in Hex, Hr.
    assert (Hm1 : m1 = Zpos m).
    { rewrite Hex; [|reflexivity|].
      - rewrite Hmz. apply Z.div_mul, Z.pow_nonzero; lia.
      - rewrite Hmz. apply Z.mod_mul, Z.pow_nonzero; lia. }
    rewrite Hm1 in Hr.
    destruct (binary_round_aux prec emax s (Zpos mz) ez loc_Exact) as [s'|s'| |s' m' e'].
    - destruct Hr as [_ Hr]. lia.
    - destruct Hr as (_ & _ & Hr). specialize (Hr Hm53). lia.
    - destruct Hr.
    - destruct Hr as (-> & _ & Hr). destruct (Hr Hm53) as [Hm' ->]. congruence. }
  destruct (e - E) as [|d|d] eqn:HeE.
  - apply Hfin.
    + cbn [Zdigits2]. rewrite Hd, fexp_spec. lia.
    + replace (Z.min E e) with E in Hv by lia. rewrite Z.sub_diag, Z.mul_1_r in Hv. exact Hv.
  - apply Hfin.
    + cbn [Zdigits2]. rewrite Hd, fexp_spec. lia.
    + replace (Z.min E e) with E in Hv by lia. rewrite Z.sub_diag, Z.mul_1_r in Hv. exact Hv.
  - apply Hfin.
    + cbn [Zdigits2].
      erewrite (digits2_pos_shift m0 (Zpos d)); [|lia|apply Pos_iter_xO].
      rewrite fexp_spec. lia.
    + rewrite Pos_iter_xO, Z.sub_diag, Z.mul_1_r.
      replace (Z.min E e) with e in Hv by lia. rewrite Z.sub_diag, Z.mul_1_r in Hv.
      rewrite <- Hv. f_equal. f_equal. lia.
Qed.

(** *** The numbers that are integers *)

Lemma int_mantissa_spec z :
  0 < z < 2 ^ 53 -> Zpos (int_mantissa z) = z * 2 ^ (53 - Zdigits2 z).
Proof.
  intros Hz. unfold int_mantissa. apply Z2Pos.id.
  pose proof (Zdigits2_le z 53 Hz).
  apply Z.mul_pos_pos; [lia | apply Z.pow_pos_nonneg; lia].
Qed.

Lemma int_digits z :
  0 < z < 2 ^ 53 -> Zpos (digits2_pos (int_mantissa z)) = 53.
Proof.
  intros Hz. pose proof (Zdigits2_le z 53 Hz) as Hd.
  destruct z as [|p|p]; try lia.
  rewrite (digits2_pos_shift p (53 - Zdigits2 (Zpos p)) _ ltac:(lia) (int_mantissa_spec _ Hz)).
  cbn [Zdigits2]. lia.
Qed.

Lemma int_bounded z :
  0 < z < 2 ^ 53 -> SpecFloat.bounded prec emax (int_mantissa z) (int_exponent z) = true.
Proof.
  intros Hz. apply bounded_spec. rewrite (int_digits z Hz). unfold int_exponent.
  pose proof (Zdigits2_le z 53 Hz). pose proof (Zdigits2_pos z ltac:(lia)). lia.
Qed.

Lemma int_value z :
  0 < z < 2 ^ 53 -> F2R (Zpos (int_mantissa z)) (int_exponent z) = IZR z.
Proof.
  intros Hz. pose proof (Zdigits2_le z 53 Hz) as Hd.
  rewrite (int_mantissa_spec z Hz), F2R_shift by lia. unfold int_exponent, F2R.
  replace (Zdigits2 z - 53 + (53 - Zdigits2 z)) with 0 by lia. unfold pow2. cbn. lra.
Qed.

Lemma Prim2SF_number_of_Z z :
  0 < z < 2 ^ 53 ->
  Prim2SF (number_of_Z z) = S754_finite false (int_mantissa z) (int_exponent z).
Proof.
  intros Hz. pose proof (Zdigits2_le z 53 Hz) as Hd.
  destruct z as [|p|p]; try lia. unfold number_of_Z.
  rewrite of_uint63_spec, Uint63.of_Z_spec, Z.mod_small
    by (split; [lia | apply Z.lt_trans with (2 ^ 53); [lia | reflexivity]]).
  cbn [binary_normalize]. apply binary_round_canonical; [apply int_bounded, Hz|].
  unfold int_exponent. replace (Z.min 0 (Zdigits2 (Zpos p) - 53)) with (Zdigits2 (Zpos p) - 53) by lia.
  rewrite Z.sub_diag, Z.mul_1_r, (int_mantissa_spec _ Hz). f_equal. f_equal. lia.
Qed.

Lemma Prim2SF_number_of_Z_neg z :
  0 < z < 2 ^ 53 ->
  Prim2SF (number_of_Z (- z)) = S754_finite true (int_mantissa z) (int_exponent z).
Proof.
  intros Hz. destruct z as [|p|p]; try lia.
  change (number_of_Z (- Zpos p)) with (- number_of_Z (Zpos p))%float.
  rewrite opp_spec, (Prim2SF_number_of_Z _ Hz). reflexivity.
Qed.

(** *** Comparisons *)

Lemma SF2R_finite_pos m e : (0 < SF2R (S754_finite false m e))%R.
Proof.
  cbn. unfold F2R. pose proof (pow2_pos e). assert (0 < IZR (Zpos m))%R by (apply IZR_lt; lia). nra.
Qed.

Lemma SFcompare_spec x y :
  nonneg x -> nonneg y ->
  exists c, SFcompare x y = Some c /\
    match c with
    | Lt => (SF2R x < SF2R y)%R
    | Eq => SF2R x = SF2R y
    | Gt => (SF2R y < SF2R x)%R
    end.
Proof.
  intros Hx Hy.
  destruct x as [[]|sx| |[] mx ex]; try contradiction;
    destruct y as [[]|sy| |[] my ey]; try contradiction; cbn [SFcompare].
  - exists Eq. split; reflexivity.
  - exists Lt. split; [reflexivity|]. apply SF2R_finite_pos.
  - exists Gt. split; [reflexivity|]. apply SF2R_finite_pos.
  - cbn [nonneg] in Hx, Hy. cbn [SF2R cond_Zopp].
    destruct (Z.compare_spec ex ey) as [Heq|Hlt|Hgt].
    + subst ey. change (Pos.compare_cont Eq mx my) with (Z.compare (Zpos mx) (Zpos my)).
      destruct (Z.compare_spec (Zpos mx) (Zpos my)) as [Hm|Hm|Hm].
      * exists Eq. split; [reflexivity|]. rewrite Hm. reflexivity.
      * exists Lt. split; [reflexivity|]. apply F2R_lt, Hm.
      * exists Gt. split; [reflexivity|]. apply F2R_lt, Hm.
    + exists Lt. split; [reflexivity|]. apply canonical_lt; assumption.
    + exists Gt. split; [reflexivity|]. apply canonical_lt; assumption.
Qed.

Lemma SFltb_spec x y :
  nonneg x -> nonneg y -> SFltb x y = true <-> (SF2R x < SF2R y)%R.
Proof.
  intros Hx Hy. unfold SFltb.
  destruct (SFcompare_spec x y Hx Hy) as (c & -> & Hc).
  destruct c; split; intros H; try reflexivity; try discriminate; try assumption; lra.
Qed.

Lemma SFleb_spec x y :
  nonneg x -> nonneg y -> SFleb x y = true <-> (SF2R x <= SF2R y)%R.
Proof.
  intros Hx Hy. unfold SFleb.
  destruct (SFcompare_spec x y Hx Hy) as (c & -> & Hc).
  destruct c; split; intros H; try reflexivity; try discriminate; lra.
Qed.

(** The numbers [0], [1], [2], ... as floats. *)
Lemma number_of_Z_nonneg z :
  0 <= z < 2 ^ 53 ->
  nonneg (Prim2SF (number_of_Z z)) /\ SF2R (Prim2SF (number_of_Z z)) = IZR z.
Proof.
  intros Hz. destruct (Z.eq_dec z 0) as [->|Hne].
  - split; reflexivity.
  - rewrite Prim2SF_number_of_Z by lia. split.
    + apply int_bounded. lia.
    + apply int_value. lia.
Qed.

Lemma number_of_Z_ltb a b :
  0 <= a < 2 ^ 53 -> 0 <= b < 2 ^ 53 ->
  (number_of_Z a <? number_of_Z b)%float = (a <? b).
Proof.
  intros Ha Hb. rewrite ltb_spec.
  destruct (number_of_Z_nonneg a Ha) as [Hna Hva], (number_of_Z_nonneg b Hb) as [Hnb Hvb].
  pose proof (SFltb_spec _ _ Hna Hnb) as H. rewrite Hva, Hvb in H.
  destruct (Z.ltb_spec a b) as [Hlt|Hge].
  - apply H, IZR_lt, Hlt.
  - destruct (SFltb _ _); [|reflexivity].
    apply IZR_le in Hge. pose proof (proj1 H eq_refl). lra.
Qed.

Lemma F2R_mul a e1 b e2 : (F2R a e1 * F2R b e2)%R = F2R (a * b) (e1 + e2).
Proof. unfold F2R. rewrite mult_IZR, pow2_add. ring. Qed.

Lemma F2R_pos m e : 0 < m -> (0 < F2R m e)%R.
Proof.
  intros H. unfold F2R. apply Rmult_lt_0_compat; [apply IZR_lt, H | apply pow2_pos].
Qed.

Lemma pow2_F2R e : pow2 e = F2R 1 e.
Proof. unfold F2R. lra. Qed.

(** The unit in the last place is at most [2 ^ -52] of the number, or
    the least positive number. *)
Lemma ulp_bound mx ex :
  0 < mx ->
  (pow2 (fexp prec emax (Zdigits2 mx + ex)) <= F2R mx ex * pow2 (-52) + pow2 (-1074))%R.
Proof.
  intros Hmx. rewrite fexp_spec.
  pose proof (pow2_pos (-1074)). pose proof (F2R_pos mx ex Hmx). pose proof (pow2_pos (-52)).
  assert (0 < F2R mx ex * pow2 (-52))%R by (apply Rmult_lt_0_compat; assumption).
  destruct (Z.max_spec (Zdigits2 mx + ex - 53) (-1074)) as [[_ ->]|[_ ->]]; [lra|].
  apply Rle_trans with (F2R mx ex * pow2 (-52))%R; [|lra].
  pose proof (Zdigits2_bounds mx Hmx) as [Hlo _]. pose proof (Zdigits2_pos mx Hmx).
  apply IZR_le in Hlo. rewrite <- pow2_IZR in Hlo by lia.
  replace (Zdigits2 mx + ex - 53) with ((Zdigits2 mx - 1) + ex + -52) by lia.
  rewrite !pow2_add. unfold F2R.
  apply Rmult_le_compat_r; [lra|]. apply Rmult_le_compat_r; [left; apply pow2_pos | exact Hlo].
Qed.

Lemma ulp_bound_normal mx ex :
  2 ^ 52 <= mx ->
  (pow2 (Z.max ex (fexp prec emax (Zdigits2 mx + ex))) <= F2R mx ex * pow2 (-52) + pow2 (-1074))%R.
Proof.
  intros Hmx. destruct (Z.max_spec ex (fexp prec emax (Zdigits2 mx + ex))) as [[_ ->]|[_ ->]].
  - apply ulp_bound. lia.
  - pose proof (pow2_pos (-1074)).
    apply Rle_trans with (F2R mx ex * pow2 (-52))%R; [|lra].
    apply IZR_le in Hmx. rewrite <- pow2_IZR in Hmx by lia.
    unfold F2R. pose proof (pow2_opp 52) as Ho. pose proof (pow2_pos ex). pose proof (pow2_pos (-52)).
    change (- (52)) with (-52) in Ho.
    assert (0 <= (IZR mx - pow2 52) * (pow2 ex * pow2 (-52)))%R as Hp
      by (apply Rmult_le_pos; [lra | apply Rmult_le_pos; lra]).
    replace (pow2 ex) with (pow2 ex * (pow2 (-52) * pow2 52))%R at 1 by (rewrite Ho; ring).
    lra.
Qed.

(** *** Products and quotients of positive numbers

    The rounded result is within a factor [1 + 2 ^ -52] above the exact
    one (and one least positive number, for the results that
    underflow). *)

Lemma SFmul_bounds m1 e1 m2 e2 :
  2 ^ 52 <= Zpos m1 ->
  let v := (F2R (Zpos m1) e1 * F2R (Zpos m2) e2)%R in
  match SFmul prec emax (S754_finite false m1 e1) (S754_finite false m2 e2) with
  | S754_zero s => s = false
  | S754_infinity s => (pow2 972 <= v * (1 + pow2 (-52)) + pow2 (-1074))%R
  | S754_finite s m e =>
      s = false /\ (F2R (Zpos m) e <= v * (1 + pow2 (-52)) + pow2 (-1074))%R
  | S754_nan => False
  end.
Proof.
  intros Hm1 v. cbn [SFmul xorb].
  pose proof (binary_round_aux_bounds false (Zpos (m1 * m2)) (e1 + e2) loc_Exact ltac:(lia)) as H.
  pose proof (ulp_bound_normal (Zpos (m1 * m2)) (e1 + e2) ltac:(nia)) as Hu.
  assert (Hv : F2R (Zpos (m1 * m2)) (e1 + e2) = v) by (unfold v; rewrite F2R_mul; reflexivity).
  rewrite Hv in H, Hu. cbv zeta in H.
  destruct (binary_round_aux prec emax false (Zpos (m1 * m2)) (e1 + e2) loc_Exact) as [s|s| |s m e].
  - apply H.
  - destruct H as [_ H]. lra.
  - exact H.
  - destruct H as [-> H]. split; [reflexivity | lra].
Qed.

Lemma SFdiv_bounds m1 e1 m2 e2 :
  2 ^ 52 <= Zpos m1 < 2 ^ 53 ->
  let v1 := F2R (Zpos m1) e1 in
  let v2 := F2R (Zpos m2) e2 in
  match SFdiv prec emax (S754_finite false m1 e1) (S754_finite false m2 e2) with
  | S754_zero s => s = false
  | S754_infinity s => s = false
  | S754_finite s m e =>
      s = false /\
      (F2R (Zpos m) e * v2 <= v1 * (1 + pow2 (-52)) + pow2 (-1074) * v2)%R /\
      (v1 * (1 - 2 * pow2 (-52)) - 2 * pow2 (-1074) * v2 <= F2R (Zpos m) e * v2)%R
  | S754_nan => False
  end.
Proof.
  intros Hm1 v1 v2. cbn [SFdiv xorb]. unfold SFdiv_core_binary.
  assert (Hd1 : Zdigits2 (Zpos m1) = 53) by (apply digits2_pos_unique; exact Hm1).
  rewrite Hd1.
  set (d2 := Zdigits2 (Zpos m2)).
  set (e' := Z.min (fexp prec emax (53 + e1 - (d2 + e2))) (e1 - e2)).
  set (s := e1 - e2 - e').
  assert (Hs : 0 <= s) by (unfold s, e'; lia).
  set (m' := match s with Zpos _ => Z.shiftl (Zpos m1) s | 0 => Zpos m1 | Zneg _ => 0 end).
  assert (Hm' : m' = Zpos m1 * 2 ^ s).
  { unfold m'. destruct s as [|p|p]; [cbn; lia | apply Z.shiftl_mul_pow2; lia | lia]. }
  pose proof (Z_div_mod m' (Zpos m2) ltac:(lia)) as Hdiv.
  destruct (Z.div_eucl m' (Zpos m2)) as [q r]. destruct Hdiv as [Hq Hr].
  assert (H2s : 0 < 2 ^ s) by (apply Z.pow_pos_nonneg; lia).
  assert (Hq0 : 0 <= q) by nia.
  pose proof (pow2_pos (-52)) as He. pose proof (pow2_pos (-1074)) as Ht.
  pose proof (F2R_pos (Zpos m1) e1 ltac:(lia)) as Hv1. fold v1 in Hv1.
  pose proof (F2R_pos (Zpos m2) e2 ltac:(lia)) as Hv2. fold v2 in Hv2.
  assert (Hm'v : F2R m' (e' + e2) = v1).
  { rewrite Hm', F2R_shift by lia. unfold v1. f_equal. unfold s. lia. }
  assert (Hqlo : (F2R q e' * v2 <= v1)%R).
  { unfold v2. rewrite F2R_mul, <- Hm'v. apply F2R_le. nia. }
  assert (Hqhi : (v1 < F2R q e' * v2 + pow2 e' * v2)%R).
  { rewrite (pow2_F2R e'). unfold v2. rewrite !F2R_mul, <- Hm'v.
    unfold F2R. rewrite <- Rmult_plus_distr_r, <- plus_IZR.
    apply Rmult_lt_compat_r; [apply pow2_pos | apply IZR_lt; nia]. }
  assert (Hue : (pow2 e' * v2 <= v1 * pow2 (-52) + pow2 (-1074) * v2)%R).
  { assert (0 < v1 * pow2 (-52))%R by (apply Rmult_lt_0_compat; assumption).
    assert (0 < pow2 (-1074) * v2)%R by (apply Rmult_lt_0_compat; assumption).
    assert (He'le : e' <= fexp prec emax (53 + e1 - (d2 + e2))) by (unfold e'; lia).
    rewrite fexp_spec in He'le.
    destruct (Z_le_gt_dec e' (-1074)) as [Hsub|Hnorm].
    - apply Rle_trans with (pow2 (-1074) * v2)%R; [|lra].
      apply Rmult_le_compat_r; [lra | apply pow2_le, Hsub].
    - apply Rle_trans with (v1 * pow2 (-52))%R; [|lra].
      apply Rle_trans with (pow2 (e1 - d2 - e2) * v2)%R;
        [apply Rmult_le_compat_r; [lra | apply pow2_le; lia]|].
      pose proof (Zdigits2_bounds (Zpos m2) ltac:(lia)) as [_ Hhi]. fold d2 in Hhi.
      pose proof (Zdigits2_pos (Zpos m2) ltac:(lia)) as Hd2. fold d2 in Hd2.
      apply IZR_lt in Hhi. rewrite <- pow2_IZR in Hhi by lia.
      destruct Hm1 as [Hm1 _]. apply IZR_le in Hm1. rewrite <- pow2_IZR in Hm1 by lia.
      unfold v1, v2, F2R.
      replace (e1 - d2 - e2) with (e1 + - d2 + - e2) by lia. rewrite !pow2_add.
      pose proof (pow2_opp d2) as Hod. pose proof (pow2_opp e2) as Hoe. pose proof (pow2_opp 52) as Ho52.
      change (- (52)) with (-52) in Ho52.
      pose proof (pow2_pos e1). pose proof (pow2_pos e2). pose proof (pow2_pos d2).
      pose proof (pow2_pos (- d2)). pose proof (pow2_pos (- e2)).
      replace (pow2 e1 * pow2 (- d2) * pow2 (- e2) * (IZR (Zpos m2) * pow2 e2))%R
        with (pow2 e1 * (pow2 (- d2) * IZR (Zpos m2)) * (pow2 (- e2) * pow2 e2))%R by ring.
      rewrite Hoe, Rmult_1_r.
      apply Rle_trans with (pow2 e1 * 1)%R.
      + apply Rmult_le_compat_l; [lra|]. rewrite <- Hod.
        apply Rmult_le_compat_l; lra.
      + replace (IZR (Zpos m1) * pow2 e1 * pow2 (-52))%R with (pow2 e1 * (pow2 (-52) * IZR (Zpos m1)))%R by ring.
        apply Rmult_le_compat_l; [lra|]. rewrite <- Ho52.
        apply Rmult_le_compat_l; lra. }
  assert (Hu : (pow2 (Z.max e' (fexp prec emax (Zdigits2 q + e'))) * v2
                <= v1 * pow2 (-52) + pow2 (-1074) * v2)%R).
  { destruct (Z.max_spec e' (fexp prec emax (Zdigits2 q + e'))) as [[Hlt ->]|[_ ->]]; [|exact Hue].
    destruct (Z.eq_dec q 0) as [->|Hq1].
    - cbn [Zdigits2] in Hlt |- *. rewrite fexp_spec in Hlt |- *.
      replace (Z.max (0 + e' - 53) (-1074)) with (-1074) by lia.
      assert (0 < v1 * pow2 (-52))%R by (apply Rmult_lt_0_compat; assumption). lra.
    - pose proof (ulp_bound q e' ltac:(lia)) as Hub.
      apply Rle_trans with ((F2R q e' * pow2 (-52) + pow2 (-1074)) * v2)%R;
        [apply Rmult_le_compat_r; [lra | exact Hub]|].
      assert (F2R q e' * v2 * pow2 (-52) <= v1 * pow2 (-52))%R
        by (apply Rmult_le_compat_r; lra).
      lra. }
  pose proof (binary_round_aux_bounds false q e' (new_location (Zpos m2) r) Hq0) as H.
  cbv zeta in H.
  set (U := pow2 (Z.max e' (fexp prec emax (Zdigits2 q + e')))) in *.
  destruct (binary_round_aux prec emax false q e' (new_location (Zpos m2) r)) as [s0|s0| |s0 m e].
  - apply H.
  - apply H.
  - exact H.
  - destruct H as [-> [Hlo Hhi]]. split; [reflexivity|]. split.
    + apply Rle_trans with ((F2R q e' + U) * v2)%R; [apply Rmult_le_compat_r; lra | lra].
    + apply Rle_trans with ((F2R q e' - U) * v2)%R; [lra | apply Rmult_le_compat_r; lra].
Qed.

(** *** The operations of the language on integers *)

Lemma Prim2SF_bounded x s m e :
  Prim2SF x = S754_finite s m e -> SpecFloat.bounded prec emax m e = true.
Proof. intros H. pose proof (Prim2SF_valid x) as Hv. rewrite H in Hv. exact Hv. Qed.

Lemma shl_align_spec m e e' :
  e' <= e -> Zpos (fst (shl_align m e e')) = Zpos m * 2 ^ (e - e').
Proof.
  intros H. unfold shl_align. destruct (e' - e) as [|d|d] eqn:Hd; cbn [fst].
  - replace (e - e') with 0 by lia. lia.
  - lia.
  - rewrite Pos_iter_xO. f_equal. f_equal. lia.
Qed.

Lemma int_exponent_bounds z : 0 < z < 2 ^ 53 -> -52 <= int_exponent z <= 0.
Proof.
  intros Hz. unfold int_exponent.
  pose proof (Zdigits2_le z 53 Hz). pose proof (Zdigits2_pos z ltac:(lia)). lia.
Qed.

Lemma int_mantissa_shift z :
  0 < z < 2 ^ 53 -> Zpos (int_mantissa z) = z * 2 ^ (- int_exponent z).
Proof.
  intros Hz. rewrite (int_mantissa_spec z Hz). unfold int_exponent. f_equal. f_equal. lia.
Qed.

Lemma number_of_Z_succ k :
  0 <= k < 2 ^ 53 - 1 -> (number_of_Z k + 1)%float = number_of_Z (k + 1).
Proof.
  intros Hk. destruct (Z.eq_dec k 0) as [->|Hne]; [reflexivity|].
  apply Prim2SF_inj. rewrite add_spec.
  rewrite (Prim2SF_number_of_Z k), (Prim2SF_number_of_Z (k + 1)) by lia.
  change (Prim2SF 1) with (S754_finite false 4503599627370496 (-52)).
  pose proof (int_exponent_bounds k ltac:(lia)) as Hek.
  pose proof (int_exponent_bounds (k + 1) ltac:(lia)) as Hek1.
  unfold SF64add. cbn [SFadd cond_Zopp].
  replace (Z.min (int_exponent k) (-52)) with (-52) by lia.
  pose proof (shl_align_spec (int_mantissa k) (int_exponent k) (-52) ltac:(lia)) as Ha.
  rewrite (int_mantissa_shift k ltac:(lia)), <- Z.mul_assoc, <- Z.pow_add_r in Ha by lia.
  replace (- int_exponent k + (int_exponent k - -52)) with 52 in Ha by lia.
  change (fst (shl_align 4503599627370496 (-52) (-52))) with 4503599627370496%positive.
  destruct (fst (shl_align (int_mantissa k) (int_exponent k) (-52))) as [p|p|] eqn:Hp;
    cbn [Z.add binary_normalize];
    (apply binary_round_canonical; [apply int_bounded; lia|];
     replace (Z.min (-52) (int_exponent (k + 1))) with (-52) by lia;
     rewrite Z.sub_diag, Z.mul_1_r, (int_mantissa_shift (k + 1)) by lia;
     rewrite <- Z.mul_assoc, <- Z.pow_add_r by lia;
     replace (- int_exponent (k + 1) + (int_exponent (k + 1) - -52)) with 52 by lia;
     rewrite Pos2Z.inj_add, Ha; change (2 ^ 52) with 4503599627370496; lia).
Qed.

Lemma trunc_number_of_Z z : 0 <= z < 2 ^ 53 -> trunc (number_of_Z z) = z.
Proof.
  intros Hz. destruct (Z.eq_dec z 0) as [->|Hne]; [reflexivity|].
  unfold trunc. rewrite Prim2SF_number_of_Z by lia. cbn [cond_Zopp].
  pose proof (int_exponent_bounds z ltac:(lia)) as He.
  pose proof (int_mantissa_shift z ltac:(lia)) as Hm.
  destruct (int_exponent z) as [|p|p] eqn:Hp; [cbn in Hm; lia | lia |].
  rewrite Z.shiftr_div_pow2, Hm by lia. apply Z.div_mul, Z.pow_nonzero; lia.
Qed.

Lemma trunc_number_of_Z_neg z : 0 < z < 2 ^ 53 -> trunc (number_of_Z (- z)) = - z.
Proof.
  intros Hz. pose proof (trunc_number_of_Z z ltac:(lia)) as H. unfold trunc in *.
  rewrite Prim2SF_number_of_Z_neg by assumption. rewrite Prim2SF_number_of_Z in H by assumption.
  cbn [cond_Zopp] in *. rewrite H. reflexivity.
Qed.

Lemma typed_array_get_number_of_Z (a : list float) k :
  0 <= k < 2 ^ 53 ->
  typed_array_get a (number_of_Z k) = default nan (a !! Z.to_nat k).
Proof.
  intros Hk. destruct (Z.eq_dec k 0) as [->|Hne]; [reflexivity|].
  unfold typed_array_get. rewrite Prim2SF_number_of_Z by lia.
  pose proof (int_exponent_bounds k ltac:(lia)) as He.
  pose proof (int_mantissa_shift k ltac:(lia)) as Hm.
  destruct (int_exponent k) as [|p|p] eqn:Hp; [|lia|].
  - assert (Z.to_nat k = Pos.to_nat (int_mantissa k)) as ->; [|reflexivity].
    rewrite <- Z2Nat.inj_pos. f_equal. cbn in Hm. lia.
  - change (- Z.neg p) with (Z.pos p) in Hm. cbv zeta.
    assert (Hs : Z.shiftr (Zpos (int_mantissa k)) (Zpos p) = k).
    { rewrite Z.shiftr_div_pow2, Hm by lia. apply Z.div_mul, Z.pow_nonzero; lia. }
    rewrite Hs, Z.shiftl_mul_pow2, <- Hm, Z.eqb_refl by lia. reflexivity.
Qed.

(** [Math.floor] of a number from [0] to below [2 ^ 52]. *)
Lemma Math_floor_spec x :
  nonneg (Prim2SF x) -> (SF2R (Prim2SF x) < IZR (2 ^ 52))%R ->
  exists k, 0 <= k /\ Math_floor x = number_of_Z k /\
            (IZR k <= SF2R (Prim2SF x) < IZR k + 1)%R.
Proof.
  intros Hx Hlt. unfold Math_floor.
  destruct (Prim2SF x) as [[]|s| |[] m e] eqn:Hp; try contradiction.
  - exists 0. split; [lia|]. split; [apply Prim2SF_inj; rewrite Hp; reflexivity | cbn; lra].
  - cbn [nonneg SF2R cond_Zopp] in *.
    destruct (Z_le_gt_dec 0 e) as [He|He].
    + exfalso. pose proof (bounded_normal m e Hx ltac:(lia)) as Hm.
      apply IZR_le in Hm. unfold F2R in Hlt.
      pose proof (pow2_le 0 e He) as Hp1. change (pow2 0) with 1%R in Hp1.
      assert (0 < IZR (2 ^ 52))%R by (apply IZR_lt; reflexivity). nra.
    + destruct e as [|p|p]; try lia.
      set (k := Z.shiftr (Zpos m) (Zpos p)).
      assert (Hk : k = Zpos m / 2 ^ Zpos p) by (apply Z.shiftr_div_pow2; lia).
      assert (H2p : 0 < 2 ^ Zpos p) by (apply Z.pow_pos_nonneg; lia).
      pose proof (Z.mul_div_le (Zpos m) _ H2p) as Hlo.
      pose proof (Z.mul_succ_div_gt (Zpos m) _ H2p) as Hhi.
      rewrite <- Hk in Hlo, Hhi.
      exists k. split; [rewrite Hk; apply Z.div_pos; lia|]. split; [reflexivity|].
      assert (Hone : forall j, IZR j = F2R (j * 2 ^ Zpos p) (Zneg p)).
      { intros j. rewrite F2R_shift by lia. unfold F2R.
        replace (Zneg p + Zpos p) with 0 by lia. unfold pow2. cbn. lra. }
      replace (IZR k + 1)%R with (IZR (k + 1)) by (rewrite plus_IZR; reflexivity).
      rewrite (Hone k), (Hone (k + 1)). split; [apply F2R_le | apply F2R_lt]; lia.
Qed.

Lemma ToIndex_number_of_Z q :
  0 <= q < 2 ^ 53 -> ToIndex (number_of_Z q) = Ok (Z.to_nat q).
Proof.
  intros Hq. unfold ToIndex. rewrite (trunc_number_of_Z q Hq).
  assert ((q <? 0) || (2 ^ 53 - 1 <? q) = false) as ->
    by (apply orb_false_iff; split; apply Z.ltb_ge; lia).
  destruct (number_of_Z_nonneg q Hq) as [Hn _].
  destruct (Prim2SF (number_of_Z q)) as [[]|s| |[] m e]; try contradiction; reflexivity.
Qed.

Lemma ToIndex_number_of_Z_neg q n :
  0 < q < 2 ^ 53 -> ToIndex (number_of_Z (- q)) <> Ok n.
Proof.
  intros Hq. unfold ToIndex. rewrite (trunc_number_of_Z_neg q Hq), Prim2SF_number_of_Z_neg by exact Hq.
  cbv zeta. replace (- q <? 0) with true by (symmetry; apply Z.ltb_lt; lia). discriminate.
Qed.

Lemma F2R_half m p :
  F2R (2 * m + 2 ^ Zpos p) (- (Zpos p + 1)) = (F2R m (Zneg p) + / 2)%R.
Proof.
  unfold F2R. rewrite plus_IZR, mult_IZR, <- pow2_IZR by lia.
  replace (- (Zpos p + 1)) with (Zneg p + -1) by lia. rewrite pow2_add.
  pose proof (pow2_opp (Zpos p)) as Ho. change (- Zpos p) with (Zneg p) in Ho.
  change (pow2 (-1)) with (/ (2 * 1))%R. rewrite Rmult_1_r.
  replace ((2 * IZR m + pow2 (Zpos p)) * (pow2 (Zneg p) * / 2))%R
    with (IZR m * pow2 (Zneg p) + (pow2 (Zneg p) * pow2 (Zpos p)) * / 2)%R by field.
  rewrite Ho. lra.
Qed.

Lemma F2R_int j p : IZR j = F2R (j * 2 ^ (Zpos p + 1)) (- (Zpos p + 1)).
Proof.
  rewrite F2R_shift by lia. unfold F2R.
  replace (- (Zpos p + 1) + (Zpos p + 1)) with 0 by lia. unfold pow2. cbn. lra.
Qed.

(** [Math.round] and then [ToIndex], on a number that is not below zero:
    the integer at distance at most [1/2], the upper one on a tie. *)
Lemma ToIndex_round x n :
  nonneg (Prim2SF x) -> ToIndex (Math_round x) = Ok n -> Z.of_nat n < 2 ^ 52 ->
  (IZR (Z.of_nat n) <= SF2R (Prim2SF x) + / 2 /\ SF2R (Prim2SF x) < IZR (Z.of_nat n) + / 2)%R.
Proof.
  intros Hx Hn Hn52. unfold Math_round in Hn.
  destruct (Prim2SF x) as [[]|s| |[] m e] eqn:Hp; try contradiction.
  - unfold ToIndex, trunc in Hn. rewrite Hp in Hn. cbn in Hn. injection Hn as <-.
    change (Z.of_nat (Z.to_nat 0)) with 0. cbn [SF2R]. lra.
  - cbn [nonneg SF2R cond_Zopp] in *.
    assert (Hge : 0 <= e -> False).
    { intros He. pose proof (bounded_normal m e Hx ltac:(lia)) as Hm.
      assert (Hx' : Math_round x = x /\ 2 ^ 52 <= trunc x).
      { unfold Math_round, trunc. rewrite Hp. destruct e as [|p|p]; try lia.
        - split; [reflexivity | exact Hm].
        - split; [reflexivity|]. cbn [cond_Zopp]. rewrite Z.shiftl_mul_pow2 by lia.
          assert (0 < 2 ^ Zpos p) by (apply Z.pow_pos_nonneg; lia). nia. }
      assert (Hn' : ToIndex x = Ok n) by (destruct e as [|p|p]; [exact Hn | exact Hn | lia]).
      destruct Hx' as [_ Ht]. unfold ToIndex in Hn'. rewrite Hp in Hn'. cbv zeta in Hn'.
      destruct ((trunc x <? 0) || (2 ^ 53 - 1 <? trunc x)); [discriminate|].
      injection Hn' as <-. rewrite Z2Nat.id in Hn52 by lia. lia. }
    destruct e as [|p|p]; try (exfalso; apply Hge; lia).
    cbv zeta in Hn. rewrite andb_false_r in Hn.
    set (q := Z.shiftr (2 * Zpos m + 2 ^ Zpos p) (Zpos p + 1)) in *.
    assert (Hq : q = (2 * Zpos m + 2 ^ Zpos p) / 2 ^ (Zpos p + 1)) by (apply Z.shiftr_div_pow2; lia).
    assert (H2p : 0 < 2 ^ (Zpos p + 1)) by (apply Z.pow_pos_nonneg; lia).
    assert (H2p' : 0 < 2 ^ Zpos p) by (apply Z.pow_pos_nonneg; lia).
    pose proof (Z.mul_div_le (2 * Zpos m + 2 ^ Zpos p) _ H2p) as Hlo.
    pose proof (Z.mul_succ_div_gt (2 * Zpos m + 2 ^ Zpos p) _ H2p) as Hhi.
    rewrite <- Hq in Hlo, Hhi.
    assert (Hq0 : 0 <= q) by (rewrite Hq; apply Z.div_pos; lia).
    pose proof (bounded_mantissa m _ Hx) as Hm53.
    assert (Hq53 : q < 2 ^ 53).
    { rewrite Hq. apply Z.div_lt_upper_bound; [lia|].
      rewrite (Z.pow_add_r 2 (Zpos p) 1) by lia. change (2 ^ 1) with 2.
      assert (2 <= 2 ^ Zpos p) by (change 2 with (2 ^ 1) at 1; apply Z.pow_le_mono_r; lia).
      nia. }
    rewrite ToIndex_number_of_Z in Hn by lia. injection Hn as <-.
    rewrite Z2Nat.id by lia.
    rewrite <- (F2R_half (Zpos m) p).
    replace (IZR q + / 2)%R with (IZR (q + 1) - / 2)%R by (rewrite plus_IZR; lra).
    rewrite (F2R_int q p), (F2R_int (q + 1) p). split.
    + apply F2R_le. lia.
    + pose proof (F2R_half (Zpos m) p) as Hh.
      assert (F2R (2 * Zpos m + 2 ^ Zpos p) (- (Zpos p + 1)) <
              F2R ((q + 1) * 2 ^ (Zpos p + 1)) (- (Zpos p + 1)))%R by (apply F2R_lt; lia).
      lra.
Qed.

(** A length that is not [0] comes from a positive finite number. *)
Lemma ToIndex_round_positive x n :
  ToIndex (Math_round x) = Ok (S n) -> exists m e, Prim2SF x = S754_finite false m e.
Proof.
  intros Hn. unfold Math_round in Hn.
  destruct (Prim2SF x) as [s|s| |[] m e] eqn:Hp.
  - unfold ToIndex, trunc in Hn. rewrite Hp in Hn. cbn in Hn. discriminate.
  - unfold ToIndex in Hn. rewrite Hp in Hn. discriminate.
  - unfold ToIndex, trunc in Hn. rewrite Hp in Hn. cbn in Hn. discriminate.
  - exfalso. pose proof (Prim2SF_bounded _ _ _ _ Hp) as Hb.
    pose proof (bounded_mantissa m e Hb) as Hm53.
    assert (Hneg : ToIndex x <> Ok (S n)).
    { unfold ToIndex, trunc. rewrite Hp. cbv zeta. cbn [cond_Zopp].
      assert (forall z, 0 < z -> (- z <? 0) || (2 ^ 53 - 1 <? - z) = true) as Hz
        by (intros z Hz; apply orb_true_iff; left; apply Z.ltb_lt; lia).
      destruct e as [|p|p].
      - rewrite Hz by lia. discriminate.
      - rewrite Hz; [discriminate|]. rewrite Z.shiftl_mul_pow2 by lia.
        apply Z.mul_pos_pos; [lia | apply Z.pow_pos_nonneg; lia].
      - destruct (Z.shiftr (Zpos m) (Zpos p)) as [|z|z] eqn:Hs.
        + cbn. discriminate.
        + rewrite Hz by lia. discriminate.
        + pose proof (Z.shiftr_nonneg (Zpos m) (Zpos p)). lia. }
    destruct e as [|p|p]; try contradiction.
    cbv zeta in Hn. change (cond_Zopp true (Zpos m)) with (Zneg m) in Hn. rewrite andb_true_r in Hn.
    set (q := Z.shiftr (2 * Zneg m + 2 ^ Zpos p) (Zpos p + 1)) in *.
    assert (Hq : q = (2 * Zneg m + 2 ^ Zpos p) / 2 ^ (Zpos p + 1)) by (apply Z.shiftr_div_pow2; lia).
    assert (H2p : 0 < 2 ^ (Zpos p + 1)) by (apply Z.pow_pos_nonneg; lia).
    assert (H2p' : 0 < 2 ^ Zpos p) by (apply Z.pow_pos_nonneg; lia).
    assert (H2 : 2 ^ (Zpos p + 1) = 2 * 2 ^ Zpos p) by (rewrite Z.pow_add_r by lia; lia).
    pose proof (Z.mul_div_le (2 * Zneg m + 2 ^ Zpos p) _ H2p) as Hlo.
    pose proof (Z.mul_succ_div_gt (2 * Zneg m + 2 ^ Zpos p) _ H2p) as Hhi.
    rewrite <- Hq in Hlo, Hhi.
    destruct (Z.eq_dec q 0) as [H0|H0].
    + rewrite H0 in Hn. change (ToIndex neg_zero) with (Ok 0%nat : Result nat) in Hn. discriminate.
    + rewrite (proj2 (Z.eqb_neq q 0) H0) in Hn.
      assert (Hq0 : q < 0) by nia.
      assert (Hq53 : - 2 ^ 53 < q) by nia.
      replace q with (- (- q)) in Hn by lia.
      apply (ToIndex_number_of_Z_neg (- q) (S n)); [lia | exact Hn].
  - exists m, e. reflexivity.
Qed.

Lemma SFdiv_sign sx mx ex sy my ey :
  match SFdiv prec emax (S754_finite sx mx ex) (S754_finite sy my ey) with
  | S754_finite s _ _ => s = xorb sx sy
  | _ => True
  end.
Proof.
  cbn [SFdiv]. unfold SFdiv_core_binary.
  set (m' := match _ - _ - _ with Zpos _ => _ | 0 => _ | Zneg _ => _ end).
  assert (Hm' : 0 <= m').
  { unfold m'. destruct (_ - _ - _) as [|p|p]; try lia. apply Z.shiftl_nonneg. lia. }
  pose proof (Z_div_mod m' (Zpos my) ltac:(lia)) as Hdiv.
  destruct (Z.div_eucl m' (Zpos my)) as [q r]. destruct Hdiv as [Hq Hr].
  assert (Hq0 : 0 <= q) by nia.
  set (e' := Z.min _ _).
  pose proof (binary_round_aux_bounds (xorb sx sy) q e' (new_location (Zpos my) r) Hq0) as H.
  destruct (binary_round_aux _ _ _ _ _ _); try exact I. apply H.
Qed.

Lemma int_mantissa_bounds z :
  0 < z < 2 ^ 53 -> 2 ^ 52 <= Zpos (int_mantissa z) < 2 ^ 53.
Proof.
  intros Hz. pose proof (digits2_pos_bounds (int_mantissa z)) as H.
  rewrite (int_digits z Hz) in H. exact H.
Qed.

Lemma pow2_m52 : pow2 (-52) = (/ 4503599627370496)%R.
Proof.
  pose proof (pow2_opp 52) as H. rewrite (pow2_IZR 52) in H by lia.
  change (- (52)) with (-52) in H. change (2 ^ 52) with 4503599627370496 in H.
  apply Rmult_eq_reg_r with 4503599627370496%R; [|lra]. rewrite H. field.
Qed.

(** The arithmetic of the index computation, over the real numbers:
    [q] is the rounded quotient of the length [L] by the ratio [r], [n]
    the rounding of [q] to an integer, and [x] the rounded product of an
    index [i < n] by [r]. *)
Lemma position_in_range (L r q x n i eps tau : R) :
  (1 <= L -> 0 < r ->
   0 < tau <= eps -> eps <= / 4503599627370496 ->
   q * r <= L * (1 + eps) + tau * r ->
   L * (1 - 2 * eps) - 2 * tau * r <= q * r ->
   n <= q + / 2 -> q < n + / 2 -> n <= 4294967296 ->
   0 <= i <= n - 1 ->
   x <= i * r * (1 + eps) + tau ->
   x < L)%R.
Proof.
  intros HL Hr [Ht Hte] He D1 D2 Hn1 Hn2 Hn Hi Hx.
  assert (HLe : (L * eps <= L * / 4503599627370496)%R) by (apply Rmult_le_compat_l; lra).
  assert (Hre : (r * eps <= r * / 4503599627370496)%R) by (apply Rmult_le_compat_l; lra).
  assert (Hrt : (r * tau <= r * / 4503599627370496)%R) by (apply Rmult_le_compat_l; lra).
  assert (Hqr : (q * r <= 4294967297 * r)%R) by (apply Rmult_le_compat_r; lra).
  assert (HLr : (L <= 17179869184 * r)%R) by lra.
  assert (Hir : (i * r <= (q - / 2) * r)%R) by (apply Rmult_le_compat_r; lra).
  assert (Hir0 : (0 <= i * r)%R) by (apply Rmult_le_pos; lra).
  assert (Hire : (i * r * eps <= i * r * / 4503599627370496)%R) by (apply Rmult_le_compat_l; lra).
  lra.
Qed.

(** The position [i * ratio] of an output index, as the loop computes
    it, is a number from [0] to below the input length. *)
Lemma position_bounds L ratio n i :
  0 <= L < 2 ^ 32 ->
  ToIndex (Math_round (number_of_Z L / ratio)) = Ok n -> Z.of_nat n <= 2 ^ 32 ->
  (i < n)%nat ->
  let position := (number_of_Z (Z.of_nat i) * ratio)%float in
  nonneg (Prim2SF position) /\ (SF2R (Prim2SF position) < IZR L)%R.
Proof.
  intros HL Hn Hn32 Hi position.
  destruct n as [|n']; [lia|].
  destruct (ToIndex_round_positive _ _ Hn) as (mq & eq & Hq).
  pose proof (Prim2SF_bounded _ _ _ _ Hq) as Hqb.
  pose proof (ToIndex_round (number_of_Z L / ratio) (S n')) as Hround.
  rewrite Hq in Hround. cbn [nonneg SF2R cond_Zopp] in Hround.
  specialize (Hround Hqb Hn ltac:(lia)). destruct Hround as [Hn1 Hn2].
  rewrite div_spec in Hq. unfold SF64div in Hq.
  destruct (Z.eq_dec L 0) as [->|HL0].
  { change (Prim2SF (number_of_Z 0)) with (S754_zero false) in Hq.
    destruct (Prim2SF ratio) as [s|s| |s m e]; discriminate. }
  rewrite (Prim2SF_number_of_Z L) in Hq by lia.
  destruct (Prim2SF ratio) as [s|s| |sr mr er] eqn:Hr; try discriminate.
  pose proof (SFdiv_sign false (int_mantissa L) (int_exponent L) sr mr er) as Hs.
  rewrite Hq in Hs. cbn [xorb] in Hs. subst sr.
  pose proof (SFdiv_bounds (int_mantissa L) (int_exponent L) mr er
                (int_mantissa_bounds L ltac:(lia))) as Hb.
  rewrite Hq in Hb. cbv zeta in Hb. destruct Hb as (_ & D1 & D2).
  rewrite (int_value L) in D1, D2 by lia.
  set (r := F2R (Zpos mr) er) in *. set (q := F2R (Zpos mq) eq) in *.
  assert (Hr0 : (0 < r)%R) by (apply F2R_pos; lia).
  assert (HL1 : (1 <= IZR L)%R) by (apply IZR_le; lia).
  assert (Htau : (0 < pow2 (-1074) <= pow2 (-52))%R)
    by (split; [apply pow2_pos | apply pow2_le; lia]).
  assert (Hn32' : (IZR (Z.of_nat (S n')) <= 4294967296)%R) by (apply IZR_le; exact Hn32).
  assert (Hi' : (0 <= IZR (Z.of_nat i) <= IZR (Z.of_nat (S n')) - 1)%R).
  { split; [apply IZR_le; lia|]. rewrite <- minus_IZR. apply IZR_le. lia. }
  assert (Hrange : forall x, (x <= IZR (Z.of_nat i) * r * (1 + pow2 (-52)) + pow2 (-1074))%R ->
                             (x < IZR L)%R).
  { intros x Hx.
    apply (position_in_range (IZR L) r q x (IZR (Z.of_nat (S n'))) (IZR (Z.of_nat i))
             (pow2 (-52)) (pow2 (-1074))); try assumption.
    rewrite pow2_m52. lra. }
  unfold position. rewrite mul_spec, Hr. unfold SF64mul.
  destruct (Z.eq_dec (Z.of_nat i) 0) as [Hi0|Hi0].
  { rewrite Hi0. change (Prim2SF (number_of_Z 0)) with (S754_zero false).
    cbn. split; [exact I | lra]. }
  rewrite (Prim2SF_number_of_Z (Z.of_nat i)) by lia.
  pose proof (SFmul_bounds (int_mantissa (Z.of_nat i)) (int_exponent (Z.of_nat i)) mr er
                (proj1 (int_mantissa_bounds (Z.of_nat i) ltac:(lia)))) as Hm.
  cbv zeta in Hm. rewrite (int_value (Z.of_nat i)) in Hm by lia. fold r in Hm.
  pose proof (Prim2SF_valid (number_of_Z (Z.of_nat i) * ratio)) as Hval.
  rewrite mul_spec, Hr, (Prim2SF_number_of_Z (Z.of_nat i)) in Hval by lia. unfold SF64mul in Hval.
  destruct (SFmul prec emax _ _) as [s|s| |s m e].
  - subst s. cbn. split; [exact I | lra].
  - exfalso. apply Hrange in Hm.
    pose proof (pow2_le 32 972 ltac:(lia)) as Hp. rewrite (pow2_IZR 32) in Hp by lia.
    assert (IZR L < IZR (2 ^ 32))%R by (apply IZR_lt; lia). lra.
  - contradiction.
  - destruct Hm as [-> Hm]. split; [exact Hval|]. cbn [SF2R cond_Zopp]. apply Hrange, Hm.
Qed.

(** The index [Math.floor (i * ratio)] is an index of the input, and
    the position lies from it to below the next one. *)
Lemma index_bounds L ratio n i :
  0 <= L < 2 ^ 32 ->
  ToIndex (Math_round (number_of_Z L / ratio)) = Ok n -> Z.of_nat n <= 2 ^ 32 ->
  (i < n)%nat ->
  let position := (number_of_Z (Z.of_nat i) * ratio)%float in
  exists k,
    0 <= k < L /\ Math_floor position = number_of_Z k /\
    (number_of_Z k <=? position)%float = true /\
    (position <? number_of_Z (k + 1))%float = true.
Proof.
  intros HL Hn Hn32 Hi position.
  destruct (position_bounds L ratio n i HL Hn Hn32 Hi) as [Hnn Hlt]. fold position in Hnn, Hlt.
  assert (HL52 : (IZR L < IZR (2 ^ 52))%R) by (apply IZR_lt; lia).
  destruct (Math_floor_spec position Hnn ltac:(lra)) as (k & Hk0 & Hfloor & Hlo & Hhi).
  assert (HkL : k < L) by (apply lt_IZR; lra).
  exists k. split; [lia|]. split; [exact Hfloor|].
  destruct (number_of_Z_nonneg k ltac:(lia)) as [Hnk Hvk].
  destruct (number_of_Z_nonneg (k + 1) ltac:(lia)) as [Hnk1 Hvk1].
  rewrite leb_spec, ltb_spec. split.
  - apply SFleb_spec; [assumption..|]. rewrite Hvk. exact Hlo.
  - apply SFltb_spec; [assumption..|]. rewrite Hvk1, plus_IZR. exact Hhi.
Qed.

End Binary64Spec.

Module AudioUtilsSpec.
Import Js AudioUtils Binary64 Binary64Spec.

Lemma forall_from_spec n z p :
  forall_from n z p = true -> forall x, z <= x < z + Z.of_nat n -> p x = true.
Proof.
  revert z. induction n as [|n IH]; intros z H x Hx; [lia|].
  simpl in H. apply andb_true_iff in H as [Hz Hrest].
  destruct (Z.eq_dec x z) as [->|Hne]; [exact Hz|].
  apply (IH (z + 1)); [exact Hrest|lia].
Qed.

(** Every 16-bit sample, through [pcm16ToFloat32] and back: checked on
    all 65536 of them. *)
Lemma all_samples_ok : forall_from (Z.to_nat 65536) (-32768) sample_ok = true.
Proof. vm_compute. reflexivity. Qed.

Lemma sample_ok_int16 x : -32768 <= x < 32768 -> sample_ok x = true.
Proof.
  intros Hx. apply (forall_from_spec _ _ _ all_samples_ok).
  rewrite Z2Nat.id; lia.
Qed.

(** *** Bytes and 16-bit elements *)

Lemma byte_to_Z_range b : 0 <= byte_to_Z b < 256.
Proof. unfold byte_to_Z. pose proof (Byte.to_N_bounded b). lia. Qed.

Lemma byte_to_of_Z z : byte_to_Z (byte_of_Z z) = z mod 256.
Proof.
  unfold byte_to_Z, byte_of_Z.
  pose proof (Z.mod_pos_bound z 256 ltac:(lia)) as Hm.
  destruct (Byte.of_N (Z.to_N (z mod 256))) as [b|] eqn:E.
  - apply Byte.to_of_N in E. rewrite E. lia.
  - apply Byte.of_N_None_iff in E. lia.
Qed.

Lemma int16_of_bytes_range lo hi : -32768 <= int16_of_bytes lo hi < 32768.
Proof.
  unfold int16_of_bytes.
  pose proof (byte_to_Z_range lo). pose proof (byte_to_Z_range hi).
  cbv zeta. destruct (Z.ltb_spec (byte_to_Z lo + 256 * byte_to_Z hi) 32768); lia.
Qed.

Lemma int16_bytes_roundtrip z :
  -32768 <= z < 32768 ->
  int16_of_bytes (byte_of_Z (z mod 256)) (byte_of_Z ((z / 256) mod 256)) = z.
Proof.
  intros Hz. unfold int16_of_bytes. rewrite !byte_to_of_Z. cbv zeta.
  rewrite Z.mod_mod by lia.
  destruct (Z.ltb_spec (z mod 256 + 256 * ((z / 256) mod 256 mod 256)) 32768) as [H|H];
    revert H; rewrite Z.mod_mod by lia; intros H;
    Z.div_mod_to_equations; lia.
Qed.

Lemma int16_elements_length bytes n :
  (2 * n <= length bytes)%nat -> length (int16_elements bytes n) = n.
Proof.
  revert bytes. induction n as [|n IH]; intros bytes H; [reflexivity|].
  destruct bytes as [|lo [|hi rest]]; simpl in H; try lia.
  simpl. f_equal. apply IH. lia.
Qed.

Lemma int16_elements_app bytes rest n :
  (2 * n <= length bytes)%nat ->
  int16_elements (bytes ++ rest) n = int16_elements bytes n.
Proof.
  revert bytes. induction n as [|n IH]; intros bytes H.
  - destruct bytes; reflexivity.
  - destruct bytes as [|lo [|hi tl]]; simpl in H; try lia.
    simpl. f_equal. apply IH. lia.
Qed.

Lemma int16_elements_range bytes n :
  Forall (fun x => -32768 <= x < 32768) (int16_elements bytes n).
Proof.
  revert bytes. induction n as [|n IH]; intros bytes; [constructor|].
  destruct bytes as [|lo [|hi rest]]; simpl; try constructor.
  - apply int16_of_bytes_range.
  - apply IH.
Qed.

Lemma int16_elements_encode zs :
  Forall (fun x => -32768 <= x < 32768) zs ->
  int16_elements (flat_map int16_to_bytes zs) (length zs) = zs.
Proof.
  induction 1 as [|z zs Hz _ IH]; [reflexivity|].
  simpl. rewrite int16_bytes_roundtrip by exact Hz. f_equal. exact IH.
Qed.

Lemma length_encode zs : length (flat_map int16_to_bytes zs) = (2 * length zs)%nat.
Proof. induction zs as [|z zs IH]; simpl; lia. Qed.

Lemma float32_to_int16_range f : -32768 <= float32_to_int16 f < 32768.
Proof.
  unfold float32_to_int16, ToInt16. cbv zeta.
  match goal with |- _ <= ?a mod 65536 - _ < _ =>
    pose proof (Z.mod_pos_bound a 65536 ltac:(lia)) end.
  lia.
Qed.

(** *** The two conversions on whole buffers *)

Lemma Int16Array_new_window before cont after :
  Nat.even (length before) = true ->
  Int16Array_new (before ++ cont ++ after) (length before) (length cont / 2)
  = Ok (int16_elements cont (length cont / 2)).
Proof.
  intros He. unfold Int16Array_new. rewrite He. cbn [negb].
  assert (Hhalf : (2 * (length cont / 2) <= length cont)%nat).
  { pose proof (Nat.div_mod_eq (length cont) 2). lia. }
  destruct (Nat.ltb_spec (length (before ++ cont ++ after))
              (length before + 2 * (length cont / 2))) as [H|H].
  - rewrite !length_app in H. lia.
  - rewrite drop_app_length, int16_elements_app by exact Hhalf. reflexivity.
Qed.

Lemma pcm16ToFloat32_aligned p :
  aligned p = true ->
  pcm16ToFloat32 p = Ok (map int16_to_float32 (samples (source_bytes p))).
Proof.
  intros Ha. unfold pcm16ToFloat32, samples.
  destruct p as [[before cont after]|bytes]; cbv zeta.
  - unfold buffer, byteOffset, byteLength. cbn [pool_before contents pool_after].
    rewrite Int16Array_new_window by exact Ha. reflexivity.
  - unfold Buffer_from, buffer, byteOffset, byteLength.
    cbn [pool_before contents pool_after source_bytes].
    rewrite (Int16Array_new_window [] bytes []) by reflexivity. reflexivity.
Qed.

Lemma samples_float32ToPcm16 fs :
  samples (contents (float32ToPcm16 fs)) = map float32_to_int16 fs.
Proof.
  unfold samples, float32ToPcm16. cbn [contents].
  rewrite length_encode.
  replace (2 * length (map float32_to_int16 fs) / 2)%nat
    with (length (map float32_to_int16 fs)).
  - apply int16_elements_encode. apply Forall_map, Forall_forall.
    intros f _. apply float32_to_int16_range.
  - symmetry. rewrite Nat.mul_comm. apply Nat.div_mul. lia.
Qed.





(** C9, as the code has it. For every argument whose view starts on a
    sample boundary, of any byte length [n], [pcm16ToFloat32] returns
    [n / 2] samples, the quotient rounded down, each in [-1, 1]: a last
    odd byte is ignored, nothing is thrown. *)
Theorem pcm16ToFloat32_samples (p : ByteSource) :
  aligned p = true ->
  exists fs,
    pcm16ToFloat32 p = Ok fs /\
    length fs = (length (source_bytes p) / 2)%nat /\
    Forall (fun f => in_unit_interval f = true) fs.
Proof.
  intros Ha. eexists. split; [apply pcm16ToFloat32_aligned, Ha|]. split.
  - rewrite length_map. unfold samples. apply int16_elements_length.
    pose proof (Nat.div_mod_eq (length (source_bytes p)) 2). lia.
  - apply Forall_map.
    pose proof (int16_elements_range (source_bytes p) (length (source_bytes p) / 2)) as Hr.
    fold (samples (source_bytes p)) in Hr.
    eapply Forall_impl; [exact Hr|]. intros x Hx. simpl.
    pose proof (sample_ok_int16 x Hx) as Hok. unfold sample_ok in Hok. cbv zeta in Hok.
    apply andb_true_iff in Hok as [Hok _]. apply andb_true_iff in Hok as [Hok _].
    exact Hok.
Qed.

Lemma pcm16ToFloat32_samples_witness :
  exists fs,
    pcm16ToFloat32 (IsBuffer (mkBuffer [x00; x00] [x01; x02; x03] [x09])) = Ok fs /\
    length fs = 1%nat /\
    Forall (fun f => in_unit_interval f = true) fs.
Proof.
  apply (pcm16ToFloat32_samples
           (IsBuffer (mkBuffer [x00; x00] [x01; x02; x03] [x09]))).
  reflexivity.
Defined.

(** C9, the claim as stated fails: a buffer of three bytes is converted,
    its first two bytes giving the one sample returned. *)
Lemma pcm16ToFloat32_odd_length_returns :
  pcm16ToFloat32 (IsUint8Array [x01; x02; x03])
  = Ok [int16_to_float32 513].
Proof. reflexivity. Qed.

(** *** resampleAudio

    Equal rates give the argument back, unless the rate is NaN, which is
    not equal to itself. Otherwise the length of the result and the index
    read for each of its samples go through a division, a multiplication
    and two roundings to an integer; [Binary64Spec] bounds them, so that
    the index is one of the input for all arrays of fewer than [2 ^ 32]
    samples. *)

Lemma resampleAudio_same_rate audioData rate :
  is_nan rate = false -> resampleAudio audioData rate rate = Ok audioData.
Proof.
  unfold resampleAudio, is_nan. intros H. apply negb_false_iff in H. rewrite H. reflexivity.
Qed.

Lemma resampleAudio_length audioData originalSampleRate targetSampleRate out :
  (originalSampleRate =? targetSampleRate)%float = false ->
  resampleAudio audioData originalSampleRate targetSampleRate = Ok out ->
  ToIndex (Math_round (number_of_Z (Z.of_nat (length audioData)) /
                       (originalSampleRate / targetSampleRate))%float) = Ok (length out).
Proof.
  unfold resampleAudio. intros -> H.
  destruct (ToIndex _) as [n|e]; [|discriminate].
  injection H as <-. rewrite length_map, length_seq. reflexivity.
Qed.

(** One iteration of the loop, for an index of the result. *)
Lemma resample_at_spec (audioData : list float) ratio n i :
  Z.of_nat (length audioData) < 2 ^ 32 ->
  ToIndex (Math_round (number_of_Z (Z.of_nat (length audioData)) / ratio)) = Ok n ->
  Z.of_nat n <= 2 ^ 32 ->
  (i < n)%nat ->
  exists k a,
    audioData !! k = Some a /\
    let position := (number_of_Z (Z.of_nat i) * ratio)%float in
    let fraction := (position - number_of_Z (Z.of_nat k))%float in
    (number_of_Z (Z.of_nat k) <=? position)%float = true /\
    (position <? number_of_Z (Z.of_nat (S k)))%float = true /\
    resample_at audioData ratio i =
      match audioData !! S k with
      | Some b => fround (a * (1 - fraction) + b * fraction)%float
      | None => fround a
      end.
Proof.
  intros HL Hn Hn32 Hi.
  destruct (index_bounds (Z.of_nat (length audioData)) ratio n i ltac:(lia) Hn Hn32 Hi)
    as (k & Hk & Hfloor & Hle & Hlt).
  destruct (lookup_lt_is_Some_2 audioData (Z.to_nat k) ltac:(lia)) as [a Ha].
  exists (Z.to_nat k), a. split; [exact Ha|]. cbv zeta.
  rewrite Nat2Z.inj_succ, Z2Nat.id by lia. change (Z.succ k) with (k + 1).
  split; [exact Hle|]. split; [exact Hlt|].
  unfold resample_at. rewrite Hfloor, number_of_Z_succ, number_of_Z_ltb by lia.
  rewrite !typed_array_get_number_of_Z by lia. rewrite Ha. cbn [default].
  replace (Z.to_nat (k + 1)) with (S (Z.to_nat k)) by lia.
  destruct (Z.ltb_spec (k + 1) (Z.of_nat (length audioData))) as [Hin|Hout].
  - destruct (lookup_lt_is_Some_2 audioData (S (Z.to_nat k)) ltac:(lia)) as [b Hb].
    rewrite Hb. reflexivity.
  - rewrite (lookup_ge_None_2 audioData (S (Z.to_nat k))) by lia. reflexivity.
Qed.

(** C6, as the code has it. Equal rates give the argument back, for
    every rate but NaN. When the rates differ, the input has fewer than
    [2 ^ 32] samples and [Math.round(length / ratio)] is an array length
    [n] below [2 ^ 32], the function returns [n] samples, and the sample
    of every index [i] is the [interpolation] there: the index
    [k = Math.floor(i * ratio)] is one of the input, the position
    [i * ratio] lies from [k] to below [k + 1], and the sample is the
    binary32 rounding of [s[k] * (1 - f) + s[k + 1] * f], with [f] the
    position minus [k], when [k] is not the last index of the input, and
    of [s[k]], the last sample, when it is. *)
Theorem resampleAudio_interpolates :
  (forall audioData rate,
     is_nan rate = false -> resampleAudio audioData rate rate = Ok audioData) /\
  (forall audioData originalSampleRate targetSampleRate n,
     (originalSampleRate =? targetSampleRate)%float = false ->
     Z.of_nat (length audioData) < 2 ^ 32 ->
     Z.of_nat n < 2 ^ 32 ->
     ToIndex (Math_round (number_of_Z (Z.of_nat (length audioData)) /
                          (originalSampleRate / targetSampleRate))%float) = Ok n ->
     exists out,
       resampleAudio audioData originalSampleRate targetSampleRate = Ok out /\
       length out = n /\
       forall i y, out !! i = Some y ->
                   interpolation audioData (originalSampleRate / targetSampleRate) i y).
Proof.
  split; [exact resampleAudio_same_rate|].
  intros audioData o t n Hne HL Hn32 Hn.
  unfold resampleAudio. rewrite Hne, Hn.
  eexists. split; [reflexivity|]. split; [rewrite length_map, length_seq; reflexivity|].
  intros i y Hy. rewrite list_lookup_fmap in Hy.
  destruct (seq 0 n !! i) as [j|] eqn:Hj; [|discriminate].
  apply lookup_seq in Hj. destruct Hj as [-> Hi]. cbn in Hy. injection Hy as <-.
  destruct (resample_at_spec audioData (o / t) n i HL Hn ltac:(lia) Hi)
    as (k & a & Ha & Hle & Hlt & Hy).
  exists k, a. split; [exact Ha|]. cbv zeta. split; [exact Hle|]. split; [exact Hlt | exact Hy].
Qed.

Lemma resampleAudio_interpolates_witness :
  resampleAudio [0.5]%float 48000 48000 = Ok [0.5]%float /\
  exists out,
    resampleAudio [0; 0.25; 0.5; 0.75; 1]%float 48000 24000 = Ok out /\
    length out = 3%nat /\
    forall i y, out !! i = Some y -> interpolation [0; 0.25; 0.5; 0.75; 1]%float (48000 / 24000) i y.
Proof.
  destruct resampleAudio_interpolates as [Hsame Hdiffer]. split.
  - apply Hsame. reflexivity.
  - apply (Hdiffer [0; 0.25; 0.5; 0.75; 1]%float 48000%float 24000%float 3%nat).
    + reflexivity.
    + cbn. lia.
    + cbn. lia.
    + reflexivity.
Defined.

Example resampleAudio_halving :
  resampleAudio [0; 0.25; 0.5; 0.75; 1]%float 48000 24000 = Ok [0; 0.5; 1]%float.
Proof. vm_compute. reflexivity. Qed.

Example resampleAudio_doubling :
  resampleAudio [0; 0.5; 1]%float 1 2 = Ok [0; 0.25; 0.5; 0.75; 1; 1]%float.
Proof. vm_compute. reflexivity. Qed.

(** A rate of [0] makes the length infinite, which the typed-array
    constructor refuses. *)
Example resampleAudio_zero_rate :
  resampleAudio [0.5]%float 0 48000 =
    Throw (RangeError "Invalid typed array length: Infinity").
Proof. vm_compute. reflexivity. Qed.

(** C6, the claim as stated fails: NaN is not equal to itself, so that
    for the rate NaN the function goes on to the ratio NaN and the length
    [Math.round(NaN)], which a typed array takes as [0]; the result is
    empty, not the argument. *)
Example resampleAudio_nan_rate :
  resampleAudio [0.5]%float nan nan = Ok [].
Proof. vm_compute. reflexivity. Qed.

(** An argument whose view starts on an odd offset is refused by the
    typed-array constructor. *)
Lemma pcm16ToFloat32_unaligned p :
  aligned p = false ->
  pcm16ToFloat32 p =
    Throw (RangeError "start offset of Int16Array should be a multiple of 2").
Proof.
  destruct p as [[before cont after]|bytes]; [|discriminate].
  unfold aligned, pcm16ToFloat32, Int16Array_new, byteOffset. cbn [pool_before].
  intros ->. reflexivity.
Qed.

End AudioUtilsSpec.

Module RelaySpec.
Import Js Relay.

(** *** Running the monad *)

Ltac run :=
  unfold task_catch, task_bind, sync, spawn, settle, await, try_catch, gets, modify,
    log, lift, throw, when, mbind, M_bind, mret, M_ret, task_ret in *.

(** *** Sockets *)

#[local] Arguments readyState_of : simpl never.
#[local] Arguments sent_to : simpl never.
#[local] Arguments ws_send : simpl never.

Lemma readyState_of_sockets w w' h :
  sockets w' = sockets w -> readyState_of w' h = readyState_of w h.
Proof. unfold readyState_of. intros ->. reflexivity. Qed.

Lemma sent_to_sockets w w' h :
  sockets w' = sockets w -> sent_to w' h = sent_to w h.
Proof. unfold sent_to. intros ->. reflexivity. Qed.

(** Bring the states read in worlds with the sockets of [w] back to [w]. *)
Ltac same_sockets w :=
  repeat match goal with
  | |- context [readyState_of ?w' ?h] =>
      lazymatch w' with
      | w => fail
      | _ => rewrite (readyState_of_sockets w w' h) by reflexivity
      end
  end.

Lemma readyState_of_push w h h' fr :
  readyState_of (set_sockets (alter (push_frame fr) h) w) h' = readyState_of w h'.
Proof.
  unfold readyState_of. cbn. rewrite lookup_alter.
  destruct (decide (h = h')) as [->|]; [|reflexivity].
  destruct (sockets w !! h'); reflexivity.
Qed.

Lemma sent_to_push w h fr :
  readyState_of w h = OPEN ->
  sent_to (set_sockets (alter (push_frame fr) h) w) h = sent_to w h ++ [fr].
Proof.
  unfold readyState_of, sent_to. cbn. rewrite lookup_alter_eq.
  destruct (sockets w !! h); [reflexivity|discriminate].
Qed.

Lemma ws_send_open w h data :
  readyState_of w h = OPEN ->
  ws_send h data w = (Ok tt, set_sockets (alter (push_frame (TextFrame data)) h) w).
Proof.
  intros H. unfold ws_send, ws_readyState. run. rewrite H. reflexivity.
Qed.

(** *** createSession *)

(** C2. For every client that already has a session, [createSession]
    returns the session stored for it and changes nothing but the log:
    no socket is created, the connection map and both session maps are
    as they were. *)
Theorem createSession_existing w clientId ws d existingSessionId :
  clientToSession w !! clientId = Some existingSessionId ->
  exists w',
    createSession clientId ws d w = (Ok (sessions w !! existingSessionId), w') /\
    connections w' = connections w /\
    sockets w' = sockets w /\
    sessions w' = sessions w /\
    clientToSession w' = clientToSession w.
Proof.
  intros H. eexists. split.
  - unfold createSession. run. rewrite H. reflexivity.
  - repeat split.
Qed.

Lemma createSession_timeout w clientId ws d :
  clientToSession w !! clientId = None ->
  handshake d = HsTimeout ->
  exists w',
    createSession clientId ws d w = (Throw (Error "Timeout ao conectar com OpenAI"), w') /\
    sessions w' = sessions w /\
    clientToSession w' = clientToSession w /\
    connections w' =
      <[drawn_connectionId d :=
          Connection.mk (fresh (dom (sockets w))) clientId (connection_time d)]> (connections w).
Proof.
  intros Hnone Hhs. eexists. split.
  - unfold createSession, createConnection, ws_new. run. rewrite Hnone. cbn. rewrite Hhs.
    reflexivity.
  - repeat split.
Qed.

(** C1, on the code. A client without a session, a handshake that ends
    with the timer: [createSession] throws the timeout error and neither
    session map has an entry for the client, but the connection drawn for
    the attempt is still in the connection map, its socket still
    connecting. *)
Theorem createSession_timeout_keeps_connection :
  let r := createSession "client-1" 0%nat Examples.timing_out Examples.accepted in
  r.1 = Throw (Error "Timeout ao conectar com OpenAI") /\
  clientToSession r.2 !! "client-1" = None /\
  sessions r.2 !! "session-1" = None /\
  connections r.2 !! "connection-1" = Some (Connection.mk 1%nat "client-1" 1000) /\
  readyState_of r.2 1%nat = CONNECTING.
Proof. vm_compute. repeat split. Qed.

(** *** The dispatcher *)

(** C10. For every client without a session ([getClientSession] gives
    nothing) and every message, the dispatcher ends at once with one
    error line logged: nothing is left pending, and the sockets (so what
    was sent upstream and to the client), the message objects and the
    four maps are as they were. *)
Theorem handleClientMessage_no_session w clientId message now uuid :
  (getClientSession clientId w).1 = Ok None ->
  handleClientMessage clientId message now uuid w =
    (Ok (Done tt), add_log (mkLog LError "Cliente não possui sessão ativa" []) w).
Proof.
  intros H. unfold handleClientMessage, getClientSession in *. run.
  destruct (clientToSession w !! clientId) as [sid|]; cbn in *.
  - destruct (truthy_string sid); cbn in *.
    + destruct (sessions w !! sid); [discriminate|]. reflexivity.
    + reflexivity.
  - reflexivity.
Qed.

Lemma handleClientMessage_no_session_witness :
  handleClientMessage "client-2" 0%nat 5000 "2f1e4b6a-0000-4000-8000-000000000000"
    Examples.in_session =
    (Ok (Done tt),
     add_log (mkLog LError "Cliente não possui sessão ativa" []) Examples.in_session).
Proof.
  apply (handleClientMessage_no_session Examples.in_session "client-2").
  vm_compute. reflexivity.
Defined.

Lemma createSession_existing_witness :
  exists w',
    createSession "client-1" 0%nat Examples.timing_out Examples.in_session
    = (Ok (sessions Examples.in_session !! "session-1"), w') /\
    connections w' = connections Examples.in_session /\
    sockets w' = sockets Examples.in_session /\
    sessions w' = sessions Examples.in_session /\
    clientToSession w' = clientToSession Examples.in_session.
Proof.
  apply (createSession_existing Examples.in_session "client-1" 0%nat
           Examples.timing_out "session-1").
  vm_compute. reflexivity.
Defined.

(** *** Malformed frames *)

Lemma onClientMessage_malformed JSON_parse w clientId client data e now uuid :
  JSON_parse data = Throw e ->
  clients w !! clientId = Some client ->
  readyState_of w (Client.ws client) = OPEN ->
  exists w',
    onClientMessage JSON_parse clientId (Client.ws client) data now uuid w = (Ok tt, w') /\
    sent_to w' (Client.ws client) =
      sent_to w (Client.ws client) ++
        [TextFrame (error_frame ("Erro no formato da mensagem: " +:+ err_message e)
                      "invalid_message_format");
         TextFrame (JObj [("type", JStr "message");
                          ("error", JObj [("message", JStr "Teste de mensagem..... opa");
                                          ("code", JStr "no_code_here")])])] /\
    readyState_of w' (Client.ws client) = OPEN.
Proof.
  intros Hparse Hclient Hopen. eexists. split; [|split].
  - unfold onClientMessage, wsServer_handleClientMessage, ws_readyState. run.
    rewrite Hparse. cbn. rewrite Hclient. cbn. same_sockets w. rewrite Hopen.
    rewrite decide_True by reflexivity.
    rewrite ws_send_open by (same_sockets w; exact Hopen). cbn.
    rewrite ws_send_open by (rewrite readyState_of_push; same_sockets w; exact Hopen).
    reflexivity.
  - rewrite sent_to_push by (rewrite readyState_of_push; same_sockets w; exact Hopen).
    rewrite sent_to_push by (same_sockets w; exact Hopen).
    rewrite <- app_assoc. reflexivity.
  - rewrite !readyState_of_push. same_sockets w. exact Hopen.
Qed.

(** C5, on the code. A connected client, its socket open, sends a frame
    that is not JSON: the socket stays open and receives two frames, the
    [invalid_message_format] error and then the test message the
    "message" listener sends after every frame. *)
Theorem onClientMessage_malformed_two_frames :
  let w' := (onClientMessage Examples.parse_literals "client-1" 0%nat "not json"
               5000 "2f1e4b6a-0000-4000-8000-000000000000" Examples.in_session).2 in
  sent_to w' 0%nat =
    sent_to Examples.in_session 0%nat ++
    [TextFrame (error_frame "Erro no formato da mensagem: Unexpected token in JSON"
                  "invalid_message_format");
     TextFrame (JObj [("type", JStr "message");
                      ("error", JObj [("message", JStr "Teste de mensagem..... opa");
                                      ("code", JStr "no_code_here")])])] /\
  readyState_of w' 0%nat = OPEN.
Proof. vm_compute. repeat split. Qed.

(** *** Upstream events *)

Lemma ws_send_not_open w h data :
  readyState_of w h <> OPEN -> readyState_of w h <> CONNECTING ->
  ws_send h data w = (Ok tt, w).
Proof.
  intros H1 H2. unfold ws_send, ws_readyState. run.
  destruct (readyState_of w h); try reflexivity; contradiction.
Qed.

Lemma updateSessionState_run w key message :
  let r := updateSessionState key message w in
  r.1 = match update_failure message with Some e => Throw e | None => Ok tt end /\
  sessions r.2 = apply_update (expected_update message) key (sessions w) /\
  logs r.2 =
    logs w ++ match update_failure message with Some _ => [] | None => update_lines message end /\
  sockets r.2 = sockets w /\
  clientToSession r.2 = clientToSession w /\
  connections r.2 = connections w /\
  clients r.2 = clients w.
Proof.
  unfold updateSessionState, expected_update, update_failure, update_lines, shown,
    event_type, carried, field, interpolate. run.
  assert (Hnil : logs w = logs w ++ []) by (rewrite app_nil_r; reflexivity).
  destruct message as [| | | |items|props]; cbn; try (repeat split; exact Hnil).
  destruct (obj_get props "type") as [[| | |t| |]|]; cbn; try (repeat split; exact Hnil).
  destruct (String.eqb t "session.created"); cbn.
  { destruct (obj_get props "session") as [[| | | | |ps]|]; cbn;
      try (repeat split; exact Hnil).
    destruct (obj_get ps "id") as [v|]; cbn; [|repeat split].
    destruct (to_string_throws v); cbn; repeat split; exact Hnil. }
  destruct (String.eqb t "conversation.created"); cbn.
  { destruct (obj_get props "conversation") as [[| | | | |ps]|]; cbn;
      try (repeat split; exact Hnil).
    destruct (obj_get ps "id") as [v|]; cbn; [|repeat split].
    destruct (to_string_throws v); cbn; repeat split; exact Hnil. }
  destruct (String.eqb t "error"); cbn.
  { destruct (obj_get props "error") as [[| | | | |ps]|]; cbn;
      try (repeat split; exact Hnil).
    destruct (obj_get ps "message") as [v|]; cbn; [|repeat split].
    destruct (to_string_throws v); cbn; repeat split; exact Hnil. }
  repeat split; exact Hnil.
Qed.

(** C4, as the code has it. An upstream event for an unknown session
    is dropped: one line is logged, nothing is thrown, nothing else
    changes. For a registered session nothing is thrown either and the
    other maps are as they were; the state is updated as the three event
    types say ([session.created] sets the session identifier,
    [conversation.created] the conversation identifier, any other type
    nothing). When the update raises (the event is [null], or lacks the
    object of its type, or the value its log line shows has no string,
    which is found after the identifier was stored) the error is caught
    and logged and nothing is forwarded, whether the socket is open or
    not. Otherwise the update logs its line and the event is forwarded to
    the client socket exactly when that socket is open, as
    [JSON.stringify] writes it, and the forward is logged. *)
Theorem handleOpenAIMessage_effect w sessionId message :
  match sessions w !! sessionId with
  | None =>
      handleOpenAIMessage sessionId message w =
        (Ok tt, add_log (mkLog LError "Sessão não encontrada: " [str sessionId]) w)
  | Some session =>
      exists w',
        handleOpenAIMessage sessionId message w = (Ok tt, w') /\
        clientToSession w' = clientToSession w /\
        connections w' = connections w /\
        clients w' = clients w /\
        sessions w' = apply_update (expected_update message) sessionId (sessions w) /\
        match update_failure message with
        | Some e =>
            sockets w' = sockets w /\
            logs w' =
              logs w ++
              [mkLog LError "Erro ao processar mensagem da OpenAI: " [str (err_message e)]]
        | None =>
            if decide (readyState_of w (Session.ws session) = OPEN) then
              sockets w' =
                alter (push_frame (TextFrame (JSON_value message))) (Session.ws session)
                  (sockets w) /\
              logs w' =
                logs w ++ update_lines message ++ [mkLog LDebug "Mensagem enviada ao cliente" []]
            else sockets w' = sockets w /\ logs w' = logs w ++ update_lines message
        end
  end.
Proof.
  destruct (sessions w !! sessionId) as [session|] eqn:Hs.
  2:{ unfold handleOpenAIMessage. run. rewrite Hs. reflexivity. }
  pose proof (updateSessionState_run w sessionId message) as Hu. cbv zeta in Hu.
  unfold handleOpenAIMessage, ws_readyState. run. rewrite Hs.
  destruct (updateSessionState sessionId message w) as [r w1]. cbn in Hu.
  destruct Hu as (Hr & Hse & Hlog & Hso & Hc & Hco & Hcl). subst r.
  destruct (update_failure message) as [e|].
  { eexists. split; [reflexivity|]. cbn. rewrite Hlog, app_nil_r. repeat split; assumption. }
  rewrite (readyState_of_sockets w w1) by exact Hso.
  destruct (decide (readyState_of w (Session.ws session) = OPEN)) as [Ho|Hn].
  - rewrite ws_send_open by (rewrite (readyState_of_sockets w w1); assumption).
    eexists. split; [reflexivity|]. cbn. rewrite Hso, Hlog, <- app_assoc.
    repeat split; assumption.
  - eexists. split; [reflexivity|]. repeat split; assumption.
Qed.

(** C4, the claim as stated fails: the session is registered and its
    client socket is open, yet an [error] event without an [error]
    object is not forwarded. *)
Lemma handleOpenAIMessage_error_event_not_forwarded :
  let event := JObj [("type", JStr "error")] in
  let w' := (handleOpenAIMessage "session-1" event Examples.in_session).2 in
  is_Some (sessions Examples.in_session !! "session-1") /\
  readyState_of Examples.in_session 0%nat = OPEN /\
  sent_to w' 0%nat = sent_to Examples.in_session 0%nat.
Proof. vm_compute. repeat split. eexists. reflexivity. Qed.

(** The identifier of a [session.created] event has no string (what
    [{"toString":1}] parses to): it is stored, the log line then throws,
    and the event is not forwarded though the client socket is open. *)
Example handleOpenAIMessage_identifier_without_string :
  let id := JObj [("toString", JNum 1)] in
  let event := JObj [("type", JStr "session.created"); ("session", JObj [("id", id)])] in
  let w' := (handleOpenAIMessage "session-1" event Examples.in_session).2 in
  (Session.sessionId ∘ Session.state) <$> sessions w' !! "session-1" = Some (Some id) /\
  readyState_of Examples.in_session 0%nat = OPEN /\
  sent_to w' 0%nat = sent_to Examples.in_session 0%nat /\
  last (logs w') =
    Some (mkLog LError "Erro ao processar mensagem da OpenAI: "
            [str "Cannot convert object to primitive value"]).
Proof. vm_compute. repeat split. Qed.

(** *** sendEvent *)

Lemma obj_set_absent props k v :
  obj_get props k = None -> obj_set props k v = props ++ [(k, v)].
Proof.
  induction props as [|[k' v'] props IH]; cbn; [reflexivity|].
  destruct (String.eqb k' k); [discriminate|]. intros H. rewrite IH by exact H. reflexivity.
Qed.

Lemma substring_length_prefix n s :
  (n <= String.length s)%nat -> String.length (substring 0 n s) = n.
Proof.
  revert s. induction n as [|n IH]; intros s H.
  - destruct s; reflexivity.
  - destruct s as [|c s]; cbn in *; [lia|]. rewrite IH by lia. reflexivity.
Qed.

Lemma obj_get_set props k v : obj_get (obj_set props k v) k = Some v.
Proof.
  induction props as [|[k' v'] props IH]; cbn.
  - rewrite String.eqb_refl. reflexivity.
  - destruct (String.eqb k' k) eqn:E; cbn.
    + rewrite String.eqb_refl. reflexivity.
    + rewrite E. exact IH.
Qed.

Lemma ws_send_after w h data :
  readyState_of w h <> CONNECTING ->
  ws_send h data w = (Ok tt, set_sockets (alter (after_send data) h) w).
Proof.
  intros Hn. unfold ws_send, ws_readyState, update_socket, readyState_of in *. run.
  assert (Hid : forall m : gmap handle Socket,
            (forall s, m !! h = Some s -> readyState s <> OPEN) ->
            alter (after_send data) h m = m).
  { intros m Hm. apply alter_id. intros s Hs. unfold after_send.
    rewrite decide_False; [reflexivity|]. apply Hm. exact Hs. }
  destruct (sockets w !! h) as [s|] eqn:Hs.
  - destruct (readyState s) eqn:Hrs; try contradiction.
    + f_equal. unfold set_sockets. f_equal. apply alter_ext. intros s' Hs'.
      rewrite Hs in Hs'. injection Hs' as <-. unfold after_send.
      rewrite decide_True by exact Hrs. reflexivity.
    + f_equal. destruct w. unfold set_sockets. cbn in *. f_equal. symmetry. apply Hid.
      intros s' Hs'. rewrite Hs in Hs'. injection Hs' as <-. rewrite Hrs. discriminate.
    + f_equal. destruct w. unfold set_sockets. cbn in *. f_equal. symmetry. apply Hid.
      intros s' Hs'. rewrite Hs in Hs'. injection Hs' as <-. rewrite Hrs. discriminate.
  - f_equal. destruct w. unfold set_sockets. cbn in *. f_equal. symmetry. apply Hid.
    intros s' Hs'. rewrite Hs in Hs'. discriminate.
Qed.

Lemma ws_send_connecting w h data :
  readyState_of w h = CONNECTING ->
  ws_send h data w = (Throw (Error "WebSocket is not open: readyState 0 (CONNECTING)"), w).
Proof.
  intros H. unfold ws_send, ws_readyState. run. rewrite H. reflexivity.
Qed.

(** The event object after [sendEvent], whatever the socket does. *)
Lemma sendEvent_established w connectionId connection event props now uuid :
  connections w !! connectionId = Some connection ->
  readyState_of w (Connection.ws connection) <> CONNECTING ->
  heap w !! event = Some (JObj props) ->
  sendEvent connectionId event now uuid w =
    (Ok (obj_get (stamp now uuid props) "event_id"),
     add_log (mkLog LDebug "Evento enviado para OpenAI" [])
       (set_sockets
          (alter (after_send (JSON_value (JObj (stamp now uuid props))))
             (Connection.ws connection))
          (set_heap (insert event (JObj (stamp now uuid props))) w))).
Proof.
  intros Hc Hopen Hev.
  unfold sendEvent, stamp, read_field, write_field, JSON_stringify, deref. run.
  rewrite Hc. cbn -[JSON_value]. rewrite Hev. cbn -[JSON_value].
  destruct (truthy (obj_get props "event_id")) eqn:Ht; cbn -[JSON_value].
  - rewrite Hev. cbn -[JSON_value]. rewrite ws_send_after by exact Hopen. cbn -[JSON_value].
    rewrite Hev.
    unfold add_log, set_logs, set_sockets, set_heap. cbn -[JSON_value].
    rewrite (insert_id (heap w) event (JObj props) Hev). reflexivity.
  - rewrite Hev. cbn -[JSON_value]. rewrite lookup_insert_eq. cbn -[JSON_value].
    rewrite ws_send_after by (same_sockets w; exact Hopen). cbn -[JSON_value].
    rewrite lookup_insert_eq. cbn -[JSON_value]. rewrite obj_get_set. reflexivity.
Qed.

Lemma sendEvent_stalled w connectionId connection event props now uuid :
  connections w !! connectionId = Some connection ->
  readyState_of w (Connection.ws connection) = CONNECTING ->
  heap w !! event = Some (JObj props) ->
  sendEvent connectionId event now uuid w =
    (Throw (Error "WebSocket is not open: readyState 0 (CONNECTING)"),
     add_log (mkLog LError "Erro ao enviar evento para OpenAI: "
                [str "WebSocket is not open: readyState 0 (CONNECTING)"])
       (set_heap (insert event (JObj (stamp now uuid props))) w)).
Proof.
  intros Hc Hrs Hev.
  unfold sendEvent, stamp, read_field, write_field, JSON_stringify, deref. run.
  rewrite Hc. cbn -[JSON_value]. rewrite Hev. cbn -[JSON_value].
  destruct (truthy (obj_get props "event_id")) eqn:Ht; cbn -[JSON_value].
  - rewrite Hev. cbn -[JSON_value]. rewrite ws_send_connecting by exact Hrs.
    unfold add_log, set_logs, set_heap. cbn.
    rewrite (insert_id (heap w) event (JObj props) Hev). reflexivity.
  - rewrite Hev. cbn -[JSON_value]. rewrite lookup_insert_eq. cbn -[JSON_value].
    rewrite ws_send_connecting by (same_sockets w; exact Hrs). reflexivity.
Qed.

(** C8, as the code has it. For every registered connection and every
    event object, [sendEvent] leaves the object with an [event_id] that
    is truthy. An object without [event_id] gets the identifier made of
    [evt_], the time and the first eight characters of a new UUID, as a
    last property; so does, in place of the old value, an object whose
    [event_id] is falsy (the empty string, [0], [null], [false]); an
    object with a truthy [event_id] is left as it is. The write is made
    in the caller's object, before serialization. On a socket that is
    still connecting [ws.send] then throws and nothing is sent; on any
    other socket the identifier the object now has is returned (the new
    one, or the caller's truthy one, as it is), and an open socket has
    got the object as [JSON.stringify] writes it. *)
Theorem sendEvent_event_id w connectionId connection event props now uuid :
  connections w !! connectionId = Some connection ->
  heap w !! event = Some (JObj props) ->
  let id := new_event_id now uuid in
  let ws := Connection.ws connection in
  let outcome (object : list (string * json)) (returned : jsval) : Prop :=
    exists w',
      heap w' = <[event := JObj object]> (heap w) /\
      if decide (readyState_of w ws = CONNECTING) then
        sendEvent connectionId event now uuid w =
          (Throw (Error "WebSocket is not open: readyState 0 (CONNECTING)"), w') /\
        sockets w' = sockets w
      else
        sendEvent connectionId event now uuid w = (Ok returned, w') /\
        sockets w' = alter (after_send (JSON_value (JObj object))) ws (sockets w) in
  match obj_get props "event_id" with
  | None => outcome (props ++ [("event_id", JStr id)]) (str id)
  | Some v =>
      if truthy (Some v) then outcome props (Some v)
      else outcome (obj_set props "event_id" (JStr id)) (str id)
  end /\
  id = "evt_" +:+ pretty now +:+ "_" +:+ substring 0 8 uuid /\
  ((8 <= String.length uuid)%nat -> String.length (substring 0 8 uuid) = 8%nat).
Proof.
  intros Hc Hev id ws outcome.
  split; [|split; [reflexivity|apply substring_length_prefix]].
  assert (Hout : outcome (stamp now uuid props) (obj_get (stamp now uuid props) "event_id")).
  { unfold outcome.
    destruct (decide (readyState_of w ws = CONNECTING)) as [Hrs|Hrs].
    - eexists. split; [|split; [exact (sendEvent_stalled _ _ _ _ _ _ _ Hc Hrs Hev)|]];
        reflexivity.
    - eexists. split; [|split; [exact (sendEvent_established _ _ _ _ _ _ _ Hc Hrs Hev)|]];
        reflexivity. }
  unfold stamp in Hout.
  destruct (obj_get props "event_id") as [v|] eqn:Hv.
  - destruct (truthy (Some v)).
    + rewrite Hv in Hout. exact Hout.
    + rewrite obj_get_set in Hout. exact Hout.
  - cbn in Hout. rewrite obj_get_set, (obj_set_absent _ _ _ Hv) in Hout. exact Hout.
Qed.

(** C8, the claim as stated fails: the caller supplies an [event_id],
    the empty string, and the event is sent with a new identifier, which
    is the value returned; the caller supplies the [event_id] [Infinity]
    (what [1e400] parses to), which is returned as it is, and the event
    is sent with the [event_id] [null]. *)
Lemma sendEvent_supplied_event_id_not_sent :
  let uuid := "2f1e4b6a-0000-4000-8000-000000000000" in
  let w := Examples.with_events in
  let emptied := sendEvent "connection-1" 2%nat 5000 uuid w in
  let infinite := sendEvent "connection-1" 3%nat 5000 uuid w in
  heap w !! 2%nat = Some (JObj [("type", JStr "response.create"); ("event_id", JStr "")]) /\
  emptied.1 = Ok (str "evt_5000_2f1e4b6a") /\
  sent_to emptied.2 1%nat =
    [TextFrame (JObj [("type", JStr "response.create");
                      ("event_id", JStr "evt_5000_2f1e4b6a")])] /\
  heap w !! 3%nat =
    Some (JObj [("type", JStr "response.create"); ("event_id", JNum infinity)]) /\
  infinite.1 = Ok (Some (JNum infinity)) /\
  sent_to infinite.2 1%nat =
    [TextFrame (JObj [("type", JStr "response.create"); ("event_id", JNull)])].
Proof. vm_compute. repeat split. Qed.

(** *** The liveness check *)

Lemma evolves_refl w : evolves w w.
Proof. repeat split; try reflexivity. intros h. left. reflexivity. Qed.

Lemma evolves_trans w1 w2 w3 : evolves w1 w2 -> evolves w2 w3 -> evolves w1 w3.
Proof.
  intros (A1 & A2 & A3 & A4 & A5) (B1 & B2 & B3 & B4 & B5).
  repeat split; try (etrans; eassumption).
  intros h. destruct (B5 h) as [-> | ->]; [apply A5|right; reflexivity].
Qed.

(** A world with the maps of another, up to removals, and its sockets. *)
Lemma evolves_maps w w' :
  clients w' ⊆ clients w -> sessions w' ⊆ sessions w ->
  clientToSession w' ⊆ clientToSession w -> connections w' ⊆ connections w ->
  sockets w' = sockets w -> evolves w w'.
Proof.
  intros. repeat split; try assumption.
  intros h. left. apply readyState_of_sockets. assumption.
Qed.

Lemma readyState_of_closing w h h' :
  readyState_of (set_sockets (alter closing h) w) h' = readyState_of w h' \/
  readyState_of (set_sockets (alter closing h) w) h' = CLOSING.
Proof.
  unfold readyState_of. cbn. rewrite lookup_alter.
  destruct (decide (h = h')) as [->|]; [|left; reflexivity].
  destruct (sockets w !! h') as [[rs u snt ls]|]; cbn; [|left; reflexivity].
  unfold closing. destruct rs; cbn; auto.
Qed.

Lemma truthy_string_true s : s <> "" -> truthy_string s = true.
Proof.
  intros H. unfold truthy_string. apply negb_true_iff, String.eqb_neq. exact H.
Qed.

Lemma closeConnection_run w connectionId :
  exists w',
    closeConnection connectionId w = (Ok tt, w') /\
    connections w' = delete connectionId (connections w) /\
    clients w' = clients w /\ sessions w' = sessions w /\
    clientToSession w' = clientToSession w /\
    forall h, readyState_of w' h = readyState_of w h \/ readyState_of w' h = CLOSING.
Proof.
  unfold closeConnection, ws_close, update_socket. run.
  destruct (connections w !! connectionId) as [connection|] eqn:Hc.
  - eexists. split; [reflexivity|]. cbn. repeat split.
    intros h.
    rewrite (readyState_of_sockets
               (set_sockets (alter closing (Connection.ws connection)) w)) by reflexivity.
    apply readyState_of_closing.
  - exists w. split; [reflexivity|]. repeat split.
    + symmetry. apply delete_id. exact Hc.
    + intros h. left. reflexivity.
Qed.

Lemma handleClientDisconnect_run w clientId :
  registry_consistent w ->
  exists w',
    handleClientDisconnect clientId w = (Ok tt, w') /\
    evolves w w' /\
    registry_consistent w' /\
    (forall c, c <> clientId ->
       clientToSession w' !! c = clientToSession w !! c /\
       clients w' !! c = clients w !! c) /\
    evicted w w' clientId.
Proof.
  intros Hcons. unfold handleClientDisconnect, closeClientSessions. run. cbn.
  destruct (clientToSession w !! clientId) as [sessionId|] eqn:Hcts.
  2:{ eexists. split; [reflexivity|]. cbn. split; [|split; [|split]].
      - apply evolves_maps; try reflexivity. cbn. apply delete_subseteq.
      - exact Hcons.
      - intros c Hne. cbn. rewrite lookup_delete_ne by congruence. auto.
      - split; [|split]; cbn.
        + apply lookup_delete_eq.
        + exact Hcts.
        + intros sid s Hc'. congruence. }
  destruct (Hcons _ _ Hcts) as (Hne & session & Hs & Hcid & Hconn).
  rewrite (truthy_string_true _ Hne). cbn.
  unfold closeSession. run. cbn. rewrite Hs. cbn.
  rewrite (truthy_string_true _ Hconn). cbn.
  destruct (closeConnection_run
              (add_log (mkLog LInfo "Encerrando sessão" [])
                 (add_log (mkLog LInfo "Cliente desconectado" []) w))
              (Session.openaiConnectionId session))
    as (w1 & Hrun & Hco1 & Hcl1 & Hse1 & Hct1 & Hrs1).
  unfold add_log in Hrun. rewrite Hrun. cbn.
  eexists. split; [reflexivity|]. cbn in *.
  split; [|split; [|split]].
  - repeat split; cbn.
    + rewrite Hcl1. apply delete_subseteq.
    + rewrite Hse1. apply delete_subseteq.
    + rewrite Hct1. apply delete_subseteq.
    + rewrite Hco1. apply delete_subseteq.
    + intros h. unfold readyState_of in *. cbn. apply Hrs1.
  - intros c sid Hc. cbn in Hc. rewrite Hct1, Hcid in Hc.
    apply lookup_delete_Some in Hc as [Hne' Hc].
    destruct (Hcons _ _ Hc) as (Hsid & s' & Hs' & Hcid' & Hconn').
    split; [exact Hsid|]. exists s'. cbn. rewrite Hse1.
    split; [|split]; try assumption.
    rewrite lookup_delete_ne; [exact Hs'|].
    intros ->. rewrite Hs in Hs'. injection Hs' as <-. congruence.
  - intros c Hne'. cbn. rewrite Hct1, Hcl1, Hcid.
    rewrite !lookup_delete_ne by congruence. auto.
  - split; [|split]; cbn.
    + rewrite Hcl1. apply lookup_delete_eq.
    + rewrite Hct1, Hcid. apply lookup_delete_eq.
    + intros sid s Hc' Hs'. rewrite Hcts in Hc'. injection Hc' as <-.
      rewrite Hs in Hs'. injection Hs' as <-.
      rewrite Hse1, Hco1. split; apply lookup_delete_eq.
Qed.

Lemma registry_consistent_maps w w' :
  clientToSession w' = clientToSession w -> sessions w' = sessions w ->
  registry_consistent w -> registry_consistent w'.
Proof. unfold registry_consistent. intros -> ->. auto. Qed.

Lemma evictable_evolves now w w' client :
  evolves w w' -> evictable now w client -> evictable now w' client.
Proof.
  intros (_ & _ & _ & _ & Hrs) He. unfold evictable in *.
  destruct (Hrs (Client.ws client)) as [-> | ->]; auto.
Qed.

Lemma evicted_evolves w w1 w' clientId :
  evicted w w1 clientId -> evolves w1 w' -> evicted w w' clientId.
Proof.
  intros (H1 & H2 & H3) (A1 & A2 & A3 & A4 & _). split; [|split].
  - eapply lookup_weaken_None; eassumption.
  - eapply lookup_weaken_None; eassumption.
  - intros sid s Hc Hs. destruct (H3 sid s Hc Hs) as [Hs1 Hc1].
    split; eapply lookup_weaken_None; eassumption.
Qed.

Lemma evicted_later w w1 w' clientId :
  evolves w w1 -> registry_consistent w1 ->
  clientToSession w1 !! clientId = clientToSession w !! clientId ->
  evicted w1 w' clientId -> evicted w w' clientId.
Proof.
  intros (_ & A2 & _) Hcons Hsame (H1 & H2 & H3). split; [|split]; try assumption.
  intros sid s Hc Hs. rewrite <- Hsame in Hc.
  destruct (Hcons _ _ Hc) as (_ & s1 & Hs1 & _).
  pose proof (lookup_weaken _ _ _ _ Hs1 A2) as Hs1'.
  rewrite Hs in Hs1'. injection Hs1' as <-.
  apply (H3 sid s Hc Hs1).
Qed.

Lemma ws_ping_open w h data :
  readyState_of w h = OPEN ->
  ws_ping h data w = (Ok tt, set_sockets (alter (push_frame (PingFrame data)) h) w).
Proof.
  intros H. unfold ws_ping, ws_readyState. run. rewrite H. reflexivity.
Qed.

Lemma evolves_push w h fr : evolves w (set_sockets (alter (push_frame fr) h) w).
Proof.
  repeat split; try reflexivity. intros h'. left. apply readyState_of_push.
Qed.

#[local] Arguments ws_ping : simpl never.
#[local] Arguments handleClientDisconnect : simpl never.

(** The liveness check removes a client through [handleClientDisconnect],
    the listener of "close": at once when the socket is closing or
    closed, after the ping and a warning when the socket is open and the
    last pong is too old. *)
Lemma checkClient_closed now w clientId client :
  readyState_of w (Client.ws client) = CLOSING \/
  readyState_of w (Client.ws client) = CLOSED ->
  checkClient now clientId client w = handleClientDisconnect clientId w.
Proof.
  intros H. unfold checkClient, ws_readyState. run.
  destruct H as [-> | ->];
    rewrite decide_False by discriminate;
    rewrite bool_decide_eq_false_2 by discriminate; reflexivity.
Qed.

Lemma checkClient_stale now w clientId client :
  readyState_of w (Client.ws client) = OPEN ->
  Client.lastPong client <> 0 ->
  60000 < now - Client.lastPong client ->
  checkClient now clientId client w =
    handleClientDisconnect clientId
      (add_log (mkLog LWarn "Cliente não respondeu ao ping, fechando conexão" [])
         (set_sockets
            (alter (push_frame (PingFrame (JObj [("type", JStr "ping")]))) (Client.ws client))
            w)).
Proof.
  intros Hopen Hpong Hstale. unfold checkClient, ws_readyState. run.
  rewrite Hopen, decide_True by reflexivity.
  rewrite ws_ping_open by exact Hopen.
  assert (Hb : negb (Client.lastPong client =? 0) && (60000 <? now - Client.lastPong client)
               = true).
  { apply andb_true_iff. split.
    - apply negb_true_iff, Z.eqb_neq. exact Hpong.
    - apply Z.ltb_lt. exact Hstale. }
  rewrite Hb. reflexivity.
Qed.

Lemma checkClient_run now w clientId client :
  registry_consistent w ->
  exists w',
    checkClient now clientId client w = (Ok tt, w') /\
    evolves w w' /\
    registry_consistent w' /\
    (forall c, c <> clientId ->
       clientToSession w' !! c = clientToSession w !! c /\
       clients w' !! c = clients w !! c) /\
    (evictable now w client -> evicted w w' clientId).
Proof.
  intros Hcons. unfold checkClient, ws_readyState. run.
  destruct (readyState_of w (Client.ws client)) eqn:Hrs.
  - (* CONNECTING *)
    rewrite decide_False by discriminate. cbn.
    exists w. split; [reflexivity|]. split; [apply evolves_refl|].
    split; [exact Hcons|]. split; [auto|].
    unfold evictable. intros [(H & _)|[H|H]]; congruence.
  - (* OPEN *)
    rewrite decide_True by reflexivity.
    rewrite ws_ping_open by exact Hrs.
    set (w1 := set_sockets _ w).
    assert (Hev1 : evolves w w1) by apply evolves_push.
    destruct (negb (Client.lastPong client =? 0) && (60000 <? now - Client.lastPong client))
      eqn:Hstale.
    + cbn.
      set (w2 := set_logs _ w1).
      assert (Hcons2 : registry_consistent w2).
      { apply (registry_consistent_maps w); [reflexivity..|exact Hcons]. }
      destruct (handleClientDisconnect_run w2 clientId Hcons2)
        as (w' & Hrun & Hev & Hcons' & Hother & Hevicted).
      exists w'. split; [exact Hrun|].
      assert (Hev2 : evolves w w2).
      { eapply evolves_trans; [exact Hev1|]. apply evolves_maps; reflexivity. }
      split; [eapply evolves_trans; eassumption|].
      split; [exact Hcons'|]. split; [exact Hother|].
      intros _. destruct Hevicted as (H1 & H2 & H3). split; [|split]; assumption.
    + exists w1. split; [reflexivity|]. split; [exact Hev1|].
      split; [apply (registry_consistent_maps w); [reflexivity..|exact Hcons]|].
      split; [auto|].
      unfold evictable. intros [(_ & Hne & Hlt)|[H|H]]; try congruence.
      apply andb_false_iff in Hstale as [Hs|Hs].
      * apply negb_false_iff, Z.eqb_eq in Hs. contradiction.
      * apply Z.ltb_ge in Hs. lia.
  - (* CLOSING *)
    rewrite decide_False by discriminate.
    rewrite bool_decide_eq_false_2 by discriminate. cbn.
    destruct (handleClientDisconnect_run w clientId Hcons)
      as (w' & Hrun & Hev & Hcons' & Hother & Hevicted).
    exists w'. split; [exact Hrun|]. split; [exact Hev|]. split; [exact Hcons'|].
    split; [exact Hother|]. intros _. exact Hevicted.
  - (* CLOSED *)
    rewrite decide_False by discriminate.
    rewrite bool_decide_eq_false_2 by discriminate. cbn.
    destruct (handleClientDisconnect_run w clientId Hcons)
      as (w' & Hrun & Hev & Hcons' & Hother & Hevicted).
    exists w'. split; [exact Hrun|]. split; [exact Hev|]. split; [exact Hcons'|].
    split; [exact Hother|]. intros _. exact Hevicted.
Qed.

#[local] Arguments checkClient : simpl never.

Lemma forEach_checkClient now entries :
  forall w,
    registry_consistent w ->
    NoDup entries.*1 ->
    exists w',
      forEach (checkClient now) entries w = (Ok tt, w') /\
      evolves w w' /\
      registry_consistent w' /\
      (forall c, c ∉ entries.*1 ->
         clientToSession w' !! c = clientToSession w !! c /\
         clients w' !! c = clients w !! c) /\
      (forall c client,
         (c, client) ∈ entries -> evictable now w client -> evicted w w' c).
Proof.
  induction entries as [|[c0 client0] rest IH]; intros w Hcons Hnodup.
  - exists w. split; [reflexivity|]. split; [apply evolves_refl|].
    split; [exact Hcons|]. split; [auto|].
    intros c client Hin. apply elem_of_nil in Hin. contradiction.
  - cbn in Hnodup. apply NoDup_cons in Hnodup as [Hnotin Hnodup].
    destruct (checkClient_run now w c0 client0 Hcons)
      as (w1 & Hrun1 & Hev1 & Hcons1 & Hother1 & Hevict1).
    destruct (IH w1 Hcons1 Hnodup) as (w' & Hrun & Hev & Hcons' & Hother & Hevict).
    exists w'. split.
    { cbn. run. rewrite Hrun1. exact Hrun. }
    split; [eapply evolves_trans; eassumption|].
    split; [exact Hcons'|]. split.
    + intros c Hc. cbn in Hc. apply not_elem_of_cons in Hc as [Hne Hc].
      destruct (Hother c Hc) as [-> ->]. apply Hother1. exact Hne.
    + intros c client Hin Hable. apply elem_of_cons in Hin as [Heq|Hin].
      * injection Heq as -> ->.
        eapply evicted_evolves; [apply Hevict1; exact Hable|exact Hev].
      * assert (Hne : c <> c0).
        { intros ->. apply Hnotin.
          apply (list_elem_of_fmap_2 fst rest (c0, client)). exact Hin. }
        apply (evicted_later w w1); try assumption.
        -- apply Hother1. exact Hne.
        -- apply (Hevict c client Hin). eapply evictable_evolves; eassumption.
Qed.


(** *** The registry invariant *)

Lemma initial_consistent cfg : registry_consistent (initial cfg).
Proof. intros c sid H. cbn in H. rewrite lookup_empty in H. discriminate. Qed.

Lemma createSession_consistent w clientId ws d :
  registry_consistent w ->
  drawn_sessionId d <> "" ->
  drawn_connectionId d <> "" ->
  sessions w !! drawn_sessionId d = None ->
  registry_consistent (createSession clientId ws d w).2.
Proof.
  intros Hcons Hsid Hcid Hfresh.
  unfold createSession, createConnection, setMessageHandler, ws_new, ws_set_readyState,
    ws_on, update_socket. run.
  destruct (clientToSession w !! clientId) as [sid|] eqn:Hcts; cbn.
  { apply (registry_consistent_maps w); [reflexivity..|exact Hcons]. }
  destruct (handshake d); cbn.
  - rewrite lookup_insert_eq. cbn.
    intros c sid Hc. cbn in Hc |- *.
    destruct (decide (c = clientId)) as [->|Hne].
    + rewrite lookup_insert_eq in Hc. injection Hc as <-.
      split; [exact Hsid|]. eexists. rewrite lookup_insert_eq.
      split; [reflexivity|]. split; [reflexivity|exact Hcid].
    + rewrite lookup_insert_ne in Hc by congruence.
      destruct (Hcons _ _ Hc) as (Hs & s & Hl & Hc' & Hconn).
      split; [exact Hs|]. exists s. split; [|split; assumption].
      rewrite lookup_insert_ne; [exact Hl|]. intros <-. congruence.
  - apply (registry_consistent_maps w); [reflexivity..|exact Hcons].
  - apply (registry_consistent_maps w); [reflexivity..|exact Hcons].
Qed.

Lemma in_session_consistent : registry_consistent Examples.in_session.
Proof.
  intros c sid H.
  assert (Hm : clientToSession Examples.in_session = {["client-1" := "session-1"]})
    by (vm_compute; reflexivity).
  rewrite Hm in H. apply lookup_singleton_Some in H as [<- <-].
  split; [discriminate|]. eexists. split; [vm_compute; reflexivity|].
  split; [reflexivity|discriminate].
Qed.


Lemma sendEvent_event_id_witness :
  let uuid := "2f1e4b6a-0000-4000-8000-000000000000" in
  let w := Examples.with_events in
  let sends (event : loc) (object : list (string * json)) (returned : jsval) : Prop :=
    exists w',
      heap w' = <[event := JObj object]> (heap w) /\
      sendEvent "connection-1" event 5000 uuid w = (Ok returned, w') /\
      sockets w' = alter (after_send (JObj object)) 1%nat (sockets w) in
  sends 0%nat
    [("type", JStr "response.create"); ("event_id", JStr "evt_5000_2f1e4b6a")]
    (str "evt_5000_2f1e4b6a") /\
  sends 1%nat
    [("type", JStr "response.create"); ("event_id", JStr "evt_client_1")]
    (str "evt_client_1") /\
  sends 2%nat
    [("type", JStr "response.create"); ("event_id", JStr "evt_5000_2f1e4b6a")]
    (str "evt_5000_2f1e4b6a").
Proof.
  split; [|split].
  - exact (proj1 (sendEvent_event_id Examples.with_events "connection-1" Examples.connection_1
                    0%nat [("type", JStr "response.create")] 5000
                    "2f1e4b6a-0000-4000-8000-000000000000" eq_refl eq_refl)).
  - exact (proj1 (sendEvent_event_id Examples.with_events "connection-1" Examples.connection_1
                    1%nat [("type", JStr "response.create"); ("event_id", JStr "evt_client_1")]
                    5000 "2f1e4b6a-0000-4000-8000-000000000000" eq_refl eq_refl)).
  - exact (proj1 (sendEvent_event_id Examples.with_events "connection-1" Examples.connection_1
                    2%nat [("type", JStr "response.create"); ("event_id", JStr "")]
                    5000 "2f1e4b6a-0000-4000-8000-000000000000" eq_refl eq_refl)).
Defined.

End RelaySpec.

(* ===================================================================== *)
(** * Part III: further properties of the code                           *)
(* ===================================================================== *)

(** ** utils/audioUtils.js

    The order the conversions keep, what comes back from the way there
    and back, saturation, and the inputs on which they throw. *)

Module AudioUtilsProps.
Import Js AudioUtils Binary64 Binary64Spec AudioUtilsSpec.

(** *** Comparisons of finite numbers *)

Lemma F2R_opp m e : F2R (- m) e = (- F2R m e)%R.
Proof. unfold F2R. rewrite opp_IZR. ring. Qed.

Lemma SF2R_finite_false m e : SF2R (S754_finite false m e) = F2R (Zpos m) e.
Proof. reflexivity. Qed.

Lemma SF2R_finite_true m e : SF2R (S754_finite true m e) = (- F2R (Zpos m) e)%R.
Proof. cbn [SF2R cond_Zopp]. apply (F2R_opp (Zpos m) e). Qed.

(** Comparison agrees with the order of the values, on finite numbers. *)
Lemma SFcompare_finite x y :
  finite x -> finite y ->
  exists c, SFcompare x y = Some c /\
    match c with
    | Lt => (SF2R x < SF2R y)%R
    | Eq => SF2R x = SF2R y
    | Gt => (SF2R y < SF2R x)%R
    end.
Proof.
  intros Hx Hy.
  destruct x as [sx|sx| |sx mx ex]; try contradiction;
    destruct y as [sy|sy| |sy my ey]; try contradiction.
  - exists Eq. split; reflexivity.
  - pose proof (F2R_pos (Zpos my) ey ltac:(lia)).
    destruct sy; [exists Gt|exists Lt]; (split; [reflexivity|]);
      rewrite ?SF2R_finite_true, ?SF2R_finite_false; cbn [SF2R]; lra.
  - pose proof (F2R_pos (Zpos mx) ex ltac:(lia)).
    destruct sx; [exists Lt|exists Gt]; (split; [reflexivity|]);
      rewrite ?SF2R_finite_true, ?SF2R_finite_false; cbn [SF2R]; lra.
  - cbn [finite] in Hx, Hy.
    pose proof (F2R_pos (Zpos mx) ex ltac:(lia)).
    pose proof (F2R_pos (Zpos my) ey ltac:(lia)).
    destruct sx, sy; rewrite ?SF2R_finite_true, ?SF2R_finite_false.
    + (* both negative *)
      destruct (SFcompare_spec (S754_finite false mx ex) (S754_finite false my ey) Hx Hy)
        as (c & Hc & Hv).
      cbn [SFcompare] in Hc |- *. rewrite !SF2R_finite_false in Hv.
      destruct (Z.compare ex ey); injection Hc as <-.
      * destruct (Pos.compare_cont Eq mx my); cbn [CompOpp];
          [exists Eq|exists Gt|exists Lt]; (split; [reflexivity|]); lra.
      * exists Gt. split; [reflexivity|]. lra.
      * exists Lt. split; [reflexivity|]. lra.
    + exists Lt. split; [reflexivity|]. lra.
    + exists Gt. split; [reflexivity|]. lra.
    + destruct (SFcompare_spec (S754_finite false mx ex) (S754_finite false my ey) Hx Hy)
        as (c & Hc & Hv).
      exists c. split; [exact Hc|]. rewrite !SF2R_finite_false in Hv. exact Hv.
Qed.

Lemma SFltb_finite x y :
  finite x -> finite y -> SFltb x y = true <-> (SF2R x < SF2R y)%R.
Proof.
  intros Hx Hy. unfold SFltb.
  destruct (SFcompare_finite x y Hx Hy) as (c & -> & Hc).
  destruct c; split; intros H; try reflexivity; try discriminate; try assumption; lra.
Qed.

Lemma SFleb_finite x y :
  finite x -> finite y -> SFleb x y = true <-> (SF2R x <= SF2R y)%R.
Proof.
  intros Hx Hy. unfold SFleb.
  destruct (SFcompare_finite x y Hx Hy) as (c & -> & Hc).
  destruct c; split; intros H; try reflexivity; try discriminate; lra.
Qed.

(** A number between [-1] and [1] is finite. *)
Lemma in_unit_interval_finite x :
  in_unit_interval x = true -> finite (Prim2SF x).
Proof.
  unfold in_unit_interval. rewrite andb_true_iff, !leb_spec. intros [Hlo Hhi].
  pose proof (Prim2SF_valid x) as Hv.
  change (Prim2SF (-1)) with (S754_finite true 4503599627370496 (-52)) in Hlo.
  change (Prim2SF 1) with (S754_finite false 4503599627370496 (-52)) in Hhi.
  destruct (Prim2SF x) as [s|[]| |s m e].
  - exact I.
  - vm_compute in Hlo. discriminate.
  - vm_compute in Hhi. discriminate.
  - vm_compute in Hlo. discriminate.
  - exact Hv.
Qed.


(** *** The order of the samples and the way back *)

Lemma steps_ok_spec n :
  forall z,
    steps_ok n z (int16_to_float32 z) = true ->
    forall x, z <= x < z + Z.of_nat n ->
      (int16_to_float32 x <? int16_to_float32 (x + 1))%float = true /\
      comes_back x (float32_to_int16 (int16_to_float32 x)).
Proof.
  induction n as [|n IH]; intros z H x Hx; [lia|].
  cbn [steps_ok] in H. cbv zeta in H.
  apply andb_true_iff in H as [H Hrest]. apply andb_true_iff in H as [Hlt Hback].
  destruct (Z.eq_dec x z) as [->|Hne]; [|apply (IH (z + 1)); [exact Hrest|lia]].
  split; [exact Hlt|]. unfold comes_back.
  destruct (z <? 0); [apply Z.eqb_eq, Hback|].
  apply andb_true_iff in Hback as [A B]. apply Z.leb_le in A, B. lia.
Qed.

(** Checked on all 65536 samples. *)
Lemma all_steps_ok :
  steps_ok (Z.to_nat 65536) (-32768) (int16_to_float32 (-32768)) = true.
Proof. vm_compute. reflexivity. Qed.

Lemma int16_step x :
  -32768 <= x < 32768 ->
  (int16_to_float32 x <? int16_to_float32 (x + 1))%float = true /\
  comes_back x (float32_to_int16 (int16_to_float32 x)).
Proof.
  intros Hx. apply (steps_ok_spec _ _ all_steps_ok). rewrite Z2Nat.id; lia.
Qed.

Lemma int16_to_float32_finite x :
  -32768 <= x < 32768 -> finite (Prim2SF (int16_to_float32 x)).
Proof.
  intros Hx. apply in_unit_interval_finite.
  pose proof (sample_ok_int16 x Hx) as H. unfold sample_ok in H. cbv zeta in H.
  apply andb_true_iff in H as [H _]. apply andb_true_iff in H as [H _]. exact H.
Qed.

Lemma int16_to_float32_values x y :
  -32768 <= x -> x < y -> y < 32768 ->
  (SF2R (Prim2SF (int16_to_float32 x)) < SF2R (Prim2SF (int16_to_float32 y)))%R.
Proof.
  intros Hx Hxy Hy.
  assert (Hstep : forall z, -32768 <= z -> z + 1 < 32768 ->
            (SF2R (Prim2SF (int16_to_float32 z)) < SF2R (Prim2SF (int16_to_float32 (z + 1))))%R).
  { intros z Hz Hz1.
    apply SFltb_finite; [apply int16_to_float32_finite; lia..|].
    rewrite <- ltb_spec. apply int16_step. lia. }
  replace y with (x + 1 + Z.of_nat (Z.to_nat (y - x - 1))) in * by lia.
  induction (Z.to_nat (y - x - 1)) as [|n IH].
  - rewrite Z.add_0_r in *. apply Hstep; lia.
  - eapply Rlt_trans; [apply IH; lia|].
    replace (x + 1 + Z.of_nat (S n)) with (x + 1 + Z.of_nat n + 1) by lia.
    apply Hstep; lia.
Qed.

Lemma int16_to_float32_increasing x y :
  -32768 <= x -> x < y -> y < 32768 ->
  (int16_to_float32 x <? int16_to_float32 y)%float = true.
Proof.
  intros Hx Hxy Hy. rewrite ltb_spec.
  apply SFltb_finite; [apply int16_to_float32_finite; lia..|].
  apply int16_to_float32_values; assumption.
Qed.

(** X1. [pcm16ToFloat32] keeps the order of the samples: of two samples
    of a buffer, the lower one is converted to the lower number. So two
    samples are converted to the same number only when they are equal. *)
Theorem pcm16ToFloat32_increasing p fs i j x y :
  pcm16ToFloat32 p = Ok fs ->
  samples (source_bytes p) !! i = Some x ->
  samples (source_bytes p) !! j = Some y ->
  x < y ->
  exists a b, fs !! i = Some a /\ fs !! j = Some b /\ (a <? b)%float = true.
Proof.
  intros Hrun Hi Hj Hxy.
  assert (Hal : aligned p = true).
  { destruct (aligned p) eqn:Ha; [reflexivity|].
    rewrite (pcm16ToFloat32_unaligned p Ha) in Hrun. discriminate. }
  rewrite (pcm16ToFloat32_aligned p Hal) in Hrun. injection Hrun as <-.
  pose proof (int16_elements_range (source_bytes p) (length (source_bytes p) / 2)) as Hr.
  fold (samples (source_bytes p)) in Hr.
  pose proof (proj1 (Forall_lookup _ _) Hr i x Hi) as Hx.
  pose proof (proj1 (Forall_lookup _ _) Hr j y Hj) as Hy. cbv beta in Hx, Hy.
  exists (int16_to_float32 x), (int16_to_float32 y).
  rewrite !list_lookup_fmap, Hi, Hj. repeat split.
  apply int16_to_float32_increasing; lia.
Qed.

Lemma pcm16ToFloat32_increasing_witness :
  exists a b,
    [int16_to_float32 (-2); int16_to_float32 513] !! 0%nat = Some a /\
    [int16_to_float32 (-2); int16_to_float32 513] !! 1%nat = Some b /\
    (a <? b)%float = true.
Proof.
  apply (pcm16ToFloat32_increasing (IsUint8Array [xfe; xff; x01; x02]) _ 0%nat 1%nat (-2) 513).
  - reflexivity.
  - reflexivity.
  - reflexivity.
  - lia.
Defined.

(** X2. Through [pcm16ToFloat32] and back through [float32ToPcm16], a
    negative sample comes back as it was, and a sample that is not
    negative comes back as it was or one below: the way back never
    raises a sample. *)
Theorem pcm16_round_trip_never_raises (p : ByteSource) fs :
  pcm16ToFloat32 p = Ok fs ->
  Forall2 comes_back (samples (source_bytes p)) (samples (contents (float32ToPcm16 fs))).
Proof.
  intros Hrun.
  assert (Hal : aligned p = true).
  { destruct (aligned p) eqn:Ha; [reflexivity|].
    rewrite (pcm16ToFloat32_unaligned p Ha) in Hrun. discriminate. }
  rewrite (pcm16ToFloat32_aligned p Hal) in Hrun. injection Hrun as <-.
  rewrite samples_float32ToPcm16, map_map.
  pose proof (int16_elements_range (source_bytes p) (length (source_bytes p) / 2)) as Hr.
  fold (samples (source_bytes p)) in Hr.
  induction Hr as [|x xs Hx Hxs IH]; [constructor|].
  cbn [map]. constructor; [|exact IH].
  apply int16_step. exact Hx.
Qed.

Lemma pcm16_round_trip_never_raises_witness :
  Forall2 comes_back [-2; 513; 32767]
    (samples (contents (float32ToPcm16
       [int16_to_float32 (-2); int16_to_float32 513; int16_to_float32 32767]))).
Proof.
  apply (pcm16_round_trip_never_raises (IsUint8Array [xfe; xff; x01; x02; xff; x7f])).
  reflexivity.
Defined.


(** *** Clamping *)

Lemma SFcompare_refl x : x <> S754_nan -> SFcompare x x = Some Eq.
Proof.
  destruct x as [s|s| |s m e]; intros H; try contradiction; cbn [SFcompare].
  - reflexivity.
  - destruct s; reflexivity.
  - rewrite Z.compare_refl.
    change (Pos.compare_cont Eq m m) with (Pos.compare m m). rewrite Pos.compare_refl.
    destruct s; reflexivity.
Qed.

Lemma SFcompare_Eq_finite s m e y :
  SFcompare (S754_finite s m e) y = Some Eq -> y = S754_finite s m e.
Proof.
  destruct y as [sy|sy| |sy my ey]; cbn [SFcompare].
  - destruct s; discriminate.
  - destruct sy; discriminate.
  - discriminate.
  - change (Pos.compare_cont Eq m my) with (Pos.compare m my).
    destruct s, sy; try discriminate;
      destruct (Z.compare_spec e ey) as [->| |]; try discriminate;
      destruct (Pos.compare_spec m my) as [->| |]; try discriminate; reflexivity.
Qed.

Lemma leb_not_nan x y : (x <=? y)%float = true -> is_nan x = false /\ is_nan y = false.
Proof.
  rewrite leb_spec. unfold is_nan. rewrite !FloatAxioms.eqb_spec. unfold SFleb, SFeqb.
  intros H.
  assert (Prim2SF x <> S754_nan /\ Prim2SF y <> S754_nan) as [Hx Hy].
  { destruct (Prim2SF x), (Prim2SF y); cbn [SFcompare] in H; try discriminate;
      split; discriminate. }
  rewrite !SFcompare_refl by assumption. split; reflexivity.
Qed.

(** [x <= y] and not [x < y], for a finite [x]: the same number. *)
Lemma leb_not_ltb_finite x y s m e :
  Prim2SF x = S754_finite s m e ->
  (x <=? y)%float = true -> (x <? y)%float = false -> y = x.
Proof.
  intros Hx. rewrite leb_spec, ltb_spec, Hx. unfold SFleb, SFltb. intros Hle Hlt.
  apply Prim2SF_inj. rewrite Hx. apply SFcompare_Eq_finite.
  destruct (SFcompare (S754_finite s m e) (Prim2SF y)) as [[]|]; try discriminate. reflexivity.
Qed.

Lemma geb_not_gtb_finite x y s m e :
  Prim2SF y = S754_finite s m e ->
  (x <=? y)%float = true -> (x <? y)%float = false -> x = y.
Proof.
  intros Hy. rewrite leb_spec, ltb_spec, Hy. unfold SFleb, SFltb. intros Hle Hlt.
  apply Prim2SF_inj. rewrite Hy.
  destruct (Prim2SF x) as [sx|sx| |sx mx ex] eqn:Hx.
  - cbn [SFcompare] in *. destruct s; discriminate.
  - cbn [SFcompare] in *. destruct sx; discriminate.
  - discriminate.
  - symmetry. apply SFcompare_Eq_finite.
    destruct (SFcompare (S754_finite sx mx ex) (S754_finite s m e)) as [[]|]; try discriminate.
    reflexivity.
Qed.

(** [a <= b] leaves no room for [b < a]. *)
Lemma leb_ltb_false x y : (x <=? y)%float = true -> (y <? x)%float = false.
Proof.
  rewrite leb_spec, ltb_spec. unfold SFleb, SFltb.
  destruct (Prim2SF x) as [sx|sx| |sx mx ex], (Prim2SF y) as [sy|sy| |sy my ey];
    cbn [SFcompare]; try discriminate; try reflexivity;
    try (destruct sx; try discriminate; reflexivity);
    try (destruct sy; try discriminate; reflexivity);
    try (destruct sx, sy; try discriminate; reflexivity).
  change (Pos.compare_cont Eq mx my) with (Pos.compare mx my).
  change (Pos.compare_cont Eq my mx) with (Pos.compare my mx).
  rewrite (Z.compare_antisym ex ey), (Pos.compare_antisym mx my).
  destruct sx, sy; try discriminate; try reflexivity;
    destruct (Z.compare ex ey); cbn; try discriminate; try reflexivity;
    destruct (Pos.compare mx my); cbn; try discriminate; reflexivity.
Qed.

Lemma ltb_leb x y : (x <? y)%float = true -> (x <=? y)%float = true.
Proof.
  rewrite leb_spec, ltb_spec. unfold SFleb, SFltb.
  destruct (SFcompare _ _) as [[]|]; try discriminate; reflexivity.
Qed.

Lemma ltb_leb_trans_one x :
  (x <=? -1)%float = true -> (x <? 1)%float = true.
Proof.
  intros H. pose proof H as Hle. rewrite leb_spec in H. rewrite ltb_spec.
  change (Prim2SF (-1)) with (S754_finite true 4503599627370496 (-52)) in H.
  change (Prim2SF 1) with (S754_finite false 4503599627370496 (-52)).
  unfold SFleb, SFltb in *.
  destruct (Prim2SF x) as [sx|sx| |sx mx ex]; cbn [SFcompare] in *; try discriminate.
  - destruct sx; [reflexivity|discriminate].
  - destruct sx; [reflexivity|discriminate].
Qed.

Lemma clamp_high x :
  (1 <=? x)%float = true -> Math_max (-1) (Math_min 1 x) = 1%float.
Proof.
  intros H. destruct (leb_not_nan _ _ H) as [_ Hnan].
  assert (Hmin : Math_min 1 x = 1%float).
  { unfold Math_min. rewrite Hnan. change (is_nan 1) with false. cbn [orb].
    destruct (1 <? x)%float eqn:Hlt; [reflexivity|].
    rewrite (leb_ltb_false _ _ H). change (get_sign 1) with false. cbv iota.
    apply (leb_not_ltb_finite 1 x false 4503599627370496 (-52)); [reflexivity|assumption..]. }
  rewrite Hmin. reflexivity.
Qed.

Lemma clamp_low x :
  (x <=? -1)%float = true -> Math_max (-1) (Math_min 1 x) = (-1)%float.
Proof.
  intros H. destruct (leb_not_nan _ _ H) as [Hnan _].
  assert (Hmin : Math_min 1 x = x).
  { unfold Math_min. rewrite Hnan. change (is_nan 1) with false. cbn [orb].
    rewrite (leb_ltb_false x 1) by apply ltb_leb, ltb_leb_trans_one, H.
    rewrite (ltb_leb_trans_one x H). reflexivity. }
  rewrite Hmin. unfold Math_max. rewrite Hnan. change (is_nan (-1)) with false. cbn [orb].
  rewrite (leb_ltb_false _ _ H).
  destruct (x <? -1)%float eqn:Hlt; [reflexivity|].
  change (get_sign (-1)) with true. cbv iota.
  apply (geb_not_gtb_finite x (-1) true 4503599627370496 (-52)); [reflexivity|assumption..].
Qed.

Lemma clamp_nan x :
  is_nan x = true -> Math_max (-1) (Math_min 1 x) = nan.
Proof.
  intros H. unfold Math_min. rewrite H, orb_true_r. reflexivity.
Qed.

Lemma float32_to_int16_high x : (1 <=? x)%float = true -> float32_to_int16 x = 32767.
Proof. intros H. unfold float32_to_int16. rewrite (clamp_high x H). reflexivity. Qed.

Lemma float32_to_int16_low x : (x <=? -1)%float = true -> float32_to_int16 x = -32768.
Proof. intros H. unfold float32_to_int16. rewrite (clamp_low x H). reflexivity. Qed.

Lemma float32_to_int16_nan x : is_nan x = true -> float32_to_int16 x = 0.
Proof. intros H. unfold float32_to_int16. rewrite (clamp_nan x H). reflexivity. Qed.

(** X3. [float32ToPcm16] saturates: a sample at or above [1] (also
    [+Infinity]) is stored as [32767], a sample at or below [-1] (also
    [-Infinity]) as [-32768], and NaN as [0]; no sample out of range
    wraps around. *)
Theorem float32ToPcm16_saturates (fs : list float) i x :
  fs !! i = Some x ->
  ((1 <=? x)%float = true ->
   samples (contents (float32ToPcm16 fs)) !! i = Some 32767) /\
  ((x <=? -1)%float = true ->
   samples (contents (float32ToPcm16 fs)) !! i = Some (-32768)) /\
  (is_nan x = true ->
   samples (contents (float32ToPcm16 fs)) !! i = Some 0).
Proof.
  intros Hx. rewrite samples_float32ToPcm16, list_lookup_fmap, Hx. cbn [fmap option_fmap option_map].
  split; [|split]; intros H; f_equal.
  - apply float32_to_int16_high, H.
  - apply float32_to_int16_low, H.
  - apply float32_to_int16_nan, H.
Qed.

Lemma float32ToPcm16_saturates_witness :
  ((1 <=? infinity)%float = true ->
   samples (contents (float32ToPcm16 [0.5; infinity; -7]%float)) !! 1%nat = Some 32767) /\
  ((infinity <=? -1)%float = true ->
   samples (contents (float32ToPcm16 [0.5; infinity; -7]%float)) !! 1%nat = Some (-32768)) /\
  (is_nan infinity = true ->
   samples (contents (float32ToPcm16 [0.5; infinity; -7]%float)) !! 1%nat = Some 0).
Proof.
  apply (float32ToPcm16_saturates [0.5; infinity; -7]%float 1%nat infinity).
  reflexivity.
Defined.

(** X4. What [float32ToPcm16] returns, [pcm16ToFloat32] takes: the
    buffer holds two bytes for each sample, the conversion back does not
    throw and gives as many samples as were given, each between [-1] and
    [1] and each the conversion of the 16-bit value stored for it. *)
Theorem pcm16ToFloat32_float32ToPcm16 (fs : list float) :
  exists back,
    pcm16ToFloat32 (IsBuffer (float32ToPcm16 fs)) = Ok back /\
    byteLength (float32ToPcm16 fs) = (2 * length fs)%nat /\
    length back = length fs /\
    Forall (fun f => in_unit_interval f = true) back /\
    forall i x, fs !! i = Some x ->
                back !! i = Some (int16_to_float32 (float32_to_int16 x)).
Proof.
  exists (map int16_to_float32 (map float32_to_int16 fs)).
  split; [|split; [|split; [|split]]].
  - rewrite pcm16ToFloat32_aligned by reflexivity.
    cbn [source_bytes]. rewrite samples_float32ToPcm16. reflexivity.
  - unfold byteLength, float32ToPcm16. cbn [contents].
    rewrite length_encode, length_map. reflexivity.
  - rewrite !length_map. reflexivity.
  - apply Forall_map, Forall_map. apply Forall_forall. intros x _. cbv beta.
    pose proof (sample_ok_int16 _ (float32_to_int16_range x)) as H.
    unfold sample_ok in H. cbv zeta in H.
    apply andb_true_iff in H as [H _]. apply andb_true_iff in H as [H _]. exact H.
  - intros i x Hx. rewrite !list_lookup_fmap, Hx. reflexivity.
Qed.

(** X5. [pcm16ToFloat32] throws for one reason only: a [Buffer] whose
    view starts on an odd byte of its store, which the [Int16Array]
    constructor refuses with a [RangeError], whatever the length (also
    for an empty view). A [Uint8Array] is copied first and never
    refused. *)
Theorem pcm16ToFloat32_throws_when_unaligned (p : ByteSource) :
  match pcm16ToFloat32 p with
  | Ok fs =>
      aligned p = true /\ fs = map int16_to_float32 (samples (source_bytes p))
  | Throw e =>
      e = RangeError "start offset of Int16Array should be a multiple of 2" /\
      exists b, p = IsBuffer b /\ Nat.even (byteOffset b) = false
  end.
Proof.
  destruct (aligned p) eqn:Ha.
  - rewrite (pcm16ToFloat32_aligned p Ha). split; reflexivity.
  - rewrite (pcm16ToFloat32_unaligned p Ha). split; [reflexivity|].
    destruct p as [b|bytes]; [|discriminate]. exists b. split; [reflexivity|exact Ha].
Qed.

(** *** resampleAudio on nothing *)

(** X6. An empty input is resampled to an empty output whatever the two
    rates are (equal or not, zero, negative, infinite or NaN): the length
    [0 / ratio] is a zero or NaN, which the typed array takes as [0], and
    nothing is thrown. *)
Theorem resampleAudio_empty originalSampleRate targetSampleRate :
  resampleAudio [] originalSampleRate targetSampleRate = Ok [].
Proof.
  unfold resampleAudio.
  destruct (originalSampleRate =? targetSampleRate)%float; [reflexivity|].
  cbn [length]. change (Z.of_nat 0) with 0. cbv zeta.
  set (ratio := (originalSampleRate / targetSampleRate)%float).
  assert (Hq : (exists s, Prim2SF (number_of_Z 0 / ratio) = S754_zero s) \/
               Prim2SF (number_of_Z 0 / ratio) = S754_nan).
  { rewrite div_spec. change (Prim2SF (number_of_Z 0)) with (S754_zero false).
    destruct (Prim2SF ratio) as [s|s| |s m e]; cbn; eauto. }
  assert (Hn : ToIndex (Math_round (number_of_Z 0 / ratio)) = Ok 0%nat).
  { assert (Hr : Math_round (number_of_Z 0 / ratio) = (number_of_Z 0 / ratio)%float)
      by (unfold Math_round; destruct Hq as [[s ->] | ->]; reflexivity).
    rewrite Hr. unfold ToIndex, trunc. destruct Hq as [[s ->] | ->]; reflexivity. }
  rewrite Hn. reflexivity.
Qed.

End AudioUtilsProps.

(** ** The relay: listeners, connections, liveness and shutdown

    The handlers as the server runs them: the "message" listener of a
    client with the dispatcher behind it, the listener of an upstream
    socket, new connections and disconnections, the liveness check and
    the shutdown. *)

Module RelayProps.
Import Js Relay RelaySpec Examples.

#[local] Arguments readyState_of : simpl never.
#[local] Arguments sent_to : simpl never.
#[local] Arguments sendEvent : simpl never.
#[local] Arguments ws_send : simpl never.
#[local] Arguments getClientSession : simpl never.
#[local] Arguments JSON_value : simpl never.

(** *** Induction on the rest of a task *)

Lemma Step_induction {A} (P : Step A -> Prop) :
  (forall a, P (Done a)) ->
  (forall rest, (forall w s w', rest w = (Ok s, w') -> P s) -> P (Yield rest)) ->
  forall s, P s.
Proof.
  intros HD HY. fix IH 1. intros [a|rest].
  - apply HD.
  - apply HY. intros w s w' H.
    destruct (rest w) as [[s'|e] w''].
    + injection H as <- _. apply IH.
    + discriminate.
Qed.

(** *** Promises that settle *)

Lemma finish_step_settle {A} (s : Step A) :
  forall w, finish (step_settle s) w = (Ok (finish s w).1, (finish s w).2).
Proof.
  induction s as [a|rest IH] using Step_induction; intros w.
  - reflexivity.
  - cbn. destruct (rest w) as [[s'|e] w'] eqn:E; [|reflexivity].
    apply (IH w s' w' E).
Qed.

(** *** Running computations *)

Ltac run_m :=
  unfold log, when in *;
  unfold try_catch, gets, modify, lift, throw, mbind, M_bind, mret, M_ret in *.

(** *** Sessions and events *)

Lemma getClientSession_has w clientId session :
  has_session w clientId session ->
  getClientSession clientId w = (Ok (Some session), w).
Proof.
  intros (Hc & Hne & Hs). unfold getClientSession. run. rewrite Hc. cbn.
  rewrite (truthy_string_true _ Hne). cbn. rewrite Hs. reflexivity.
Qed.

(** *** Computations that leave the stores steady *)

Lemma steady_refl w : steady w w.
Proof. repeat split. Qed.

Lemma steady_trans w1 w2 w3 : steady w1 w2 -> steady w2 w3 -> steady w1 w3.
Proof.
  intros (A1 & A2 & A3 & A4 & A5) (B1 & B2 & B3 & B4 & B5).
  repeat split; first [congruence | intros h; rewrite B5; apply A5].
Qed.

Lemma steady_same w w' :
  clients w' = clients w -> sessions w' = sessions w ->
  clientToSession w' = clientToSession w -> connections w' = connections w ->
  sockets w' = sockets w -> steady w w'.
Proof.
  intros. repeat split; try assumption.
  intros h. apply readyState_of_sockets. assumption.
Qed.

Lemma steady_push w h fr : steady w (set_sockets (alter (push_frame fr) h) w).
Proof. repeat split. intros h'. apply readyState_of_push. Qed.

Lemma m_steady_ret {A} (a : A) : m_steady (mret a).
Proof. intros w. apply steady_refl. Qed.

Lemma m_steady_bind {A B} (m : M A) (f : A -> M B) :
  m_steady m -> (forall a, m_steady (f a)) -> m_steady (mbind f m).
Proof.
  intros Hm Hf w. specialize (Hm w). unfold mbind, M_bind.
  destruct (m w) as [[a|e] w']; cbn in *; [|exact Hm].
  eapply steady_trans; [exact Hm|apply Hf].
Qed.

Lemma m_steady_try_catch {A} (body : M A) (handler : JsError -> M A) :
  m_steady body -> (forall e, m_steady (handler e)) -> m_steady (try_catch body handler).
Proof.
  intros Hm Hf w. specialize (Hm w). unfold try_catch.
  destruct (body w) as [[a|e] w']; cbn in *; [exact Hm|].
  eapply steady_trans; [exact Hm|apply Hf].
Qed.

Lemma m_steady_gets {A} (f : World -> A) : m_steady (gets f).
Proof. intros w. apply steady_refl. Qed.

Lemma m_steady_throw {A} e : m_steady (@throw A e).
Proof. intros w. apply steady_refl. Qed.

Lemma m_steady_lift {A} (r : Result A) : m_steady (lift r).
Proof. intros w. apply steady_refl. Qed.

Lemma m_steady_log lvl text values : m_steady (log lvl text values).
Proof. intros w. apply steady_same; reflexivity. Qed.

Lemma m_steady_ws_send h data : m_steady (ws_send h data).
Proof.
  intros w. unfold ws_send, ws_readyState, update_socket. run_m.
  destruct (readyState_of w h); cbn; try apply steady_refl. apply steady_push.
Qed.

Lemma m_steady_read_field l k : m_steady (read_field l k).
Proof. intros w. apply steady_refl. Qed.

Lemma m_steady_write_field l k v : m_steady (write_field l k v).
Proof.
  intros w. unfold write_field, deref. run_m.
  destruct (heap w !! l) as [[]|]; cbn; try apply steady_refl.
  apply steady_same; reflexivity.
Qed.

Lemma m_steady_stringify l : m_steady (JSON_stringify l).
Proof. intros w. apply steady_refl. Qed.

Lemma m_steady_alloc v : m_steady (alloc v).
Proof. intros w. apply steady_same; reflexivity. Qed.

Lemma m_steady_when b (m : M unit) : m_steady m -> m_steady (when b m).
Proof. intros H. destruct b; [exact H|apply m_steady_ret]. Qed.

Ltac steady_with known :=
  repeat first
    [ known
    | apply m_steady_ws_send
    | apply m_steady_when
    | apply m_steady_read_field
    | apply m_steady_write_field
    | apply m_steady_stringify
    | apply m_steady_alloc
    | apply m_steady_log
    | apply m_steady_gets
    | apply m_steady_throw
    | apply m_steady_lift
    | apply m_steady_ret
    | apply m_steady_try_catch
    | apply m_steady_bind
    | match goal with
      | |- forall _, _ => intro
      | |- m_steady (match ?x with _ => _ end) => destruct x
      end ].

Ltac solve_steady := steady_with fail.

Lemma m_steady_sendEvent connectionId event now uuid :
  m_steady (sendEvent connectionId event now uuid).
Proof. unfold sendEvent. solve_steady. Qed.

Lemma m_steady_getClientSession clientId : m_steady (getClientSession clientId).
Proof. unfold getClientSession. solve_steady. Qed.

Lemma m_steady_reportInternalError clientId message error :
  m_steady (reportInternalError clientId message error).
Proof.
  unfold reportInternalError, ws_readyState.
  steady_with ltac:(apply m_steady_getClientSession).
Qed.

(** *** Tasks that leave the stores steady *)

Lemma task_steady_sync {A} (m : M A) : m_steady m -> task_steady (sync m).
Proof.
  intros H w. specialize (H w). unfold sync.
  destruct (m w) as [[a|e] w']; cbn in *; auto.
Qed.

Lemma task_steady_ret {A} (a : A) : task_steady (task_ret a).
Proof. intros w. cbn. split; [apply steady_refl|exact I]. Qed.

Lemma step_bind_steady {A B} (s : Step A) (f : A -> Task B) :
  step_steady s -> (forall a, task_steady (f a)) -> task_steady (step_bind s f).
Proof.
  induction s as [a|rest IH] using Step_induction; intros Hs Hf.
  - apply Hf.
  - intros w. cbn. split; [apply steady_refl|]. intros w1.
    cbn in Hs. specialize (Hs w1).
    destruct (rest w1) as [[s'|e] w2] eqn:E; [|exact Hs].
    destruct Hs as [H1 H2].
    pose proof (IH w1 s' w2 E H2 Hf w2) as H3.
    destruct (step_bind s' f w2) as [[s''|e] w3].
    + destruct H3 as [H3 H4]. split; [eapply steady_trans; eassumption|exact H4].
    + eapply steady_trans; eassumption.
Qed.

Lemma task_steady_bind {A B} (t : Task A) (f : A -> Task B) :
  task_steady t -> (forall a, task_steady (f a)) -> task_steady (task_bind t f).
Proof.
  intros Ht Hf w. specialize (Ht w). unfold task_bind.
  destruct (t w) as [[s|e] w1]; [|exact Ht].
  destruct Ht as [H1 H2].
  pose proof (step_bind_steady s f H2 Hf w1) as H3.
  destruct (step_bind s f w1) as [[s'|e] w2].
  - destruct H3 as [H3 H4]. split; [eapply steady_trans; eassumption|exact H4].
  - eapply steady_trans; eassumption.
Qed.

Lemma step_settle_steady {A} (s : Step A) : step_steady s -> step_steady (step_settle s).
Proof.
  induction s as [a|rest IH] using Step_induction; intros Hs.
  - exact I.
  - cbn. intros w. cbn in Hs. specialize (Hs w).
    destruct (rest w) as [[s'|e] w1] eqn:E.
    + destruct Hs as [H1 H2]. split; [exact H1|]. apply (IH w s' w1 E H2).
    + split; [exact Hs|exact I].
Qed.

Lemma task_steady_settle {A} (t : Task A) : task_steady t -> task_steady (settle t).
Proof.
  intros Ht w. specialize (Ht w). unfold settle.
  destruct (t w) as [[s|e] w1].
  - destruct Ht as [H1 H2]. split; [exact H1|]. apply step_settle_steady. exact H2.
  - split; [exact Ht|exact I].
Qed.

Lemma task_steady_await {A} (t : Task A) : task_steady t -> task_steady (await t).
Proof.
  intros Ht. unfold await. apply task_steady_bind; [apply task_steady_settle; exact Ht|].
  intros r w. split; [apply steady_refl|]. cbn. intros w1.
  destruct r; [split; [apply steady_refl|exact I]|apply steady_refl].
Qed.

Lemma step_catch_steady {A} (s : Step A) (handler : JsError -> Task A) :
  step_steady s -> (forall e, task_steady (handler e)) -> step_steady (step_catch s handler).
Proof.
  induction s as [a|rest IH] using Step_induction; intros Hs Hh.
  - exact I.
  - cbn. intros w. cbn in Hs. specialize (Hs w).
    destruct (rest w) as [[s'|e] w1] eqn:E.
    + destruct Hs as [H1 H2]. split; [exact H1|]. apply (IH w s' w1 E H2 Hh).
    + pose proof (Hh e w1) as H3.
      destruct (handler e w1) as [[s'|e'] w2].
      * destruct H3 as [H3 H4]. split; [eapply steady_trans; eassumption|exact H4].
      * eapply steady_trans; eassumption.
Qed.

Lemma task_steady_catch {A} (body : Task A) (handler : JsError -> Task A) :
  task_steady body -> (forall e, task_steady (handler e)) ->
  task_steady (task_catch body handler).
Proof.
  intros Hb Hh w. specialize (Hb w). unfold task_catch.
  destruct (body w) as [[s|e] w1].
  - destruct Hb as [H1 H2]. split; [exact H1|]. apply step_catch_steady; assumption.
  - pose proof (Hh e w1) as H3.
    destruct (handler e w1) as [[s'|e'] w2].
    + destruct H3 as [H3 H4]. split; [eapply steady_trans; eassumption|exact H4].
    + eapply steady_trans; eassumption.
Qed.

Lemma finish_steady {A} (s : Step A) : step_steady s -> m_steady (finish s).
Proof.
  induction s as [a|rest IH] using Step_induction; intros Hs w.
  - apply steady_refl.
  - cbn. cbn in Hs. specialize (Hs w).
    destruct (rest w) as [[s'|e] w1] eqn:E; [|exact Hs].
    destruct Hs as [H1 H2]. eapply steady_trans; [exact H1|]. apply (IH w s' w1 E H2).
Qed.

Ltac task_steady_with known :=
  repeat first
    [ known
    | apply task_steady_await
    | apply task_steady_ret
    | apply task_steady_sync
    | apply task_steady_catch
    | apply task_steady_bind
    | match goal with
      | |- forall _, _ => intro
      | |- task_steady (match ?x with _ => _ end) => destruct x
      end ].

Lemma task_steady_sendToOpenAI sessionId event now uuid :
  task_steady (sendToOpenAI sessionId event now uuid).
Proof.
  unfold sendToOpenAI.
  task_steady_with fail; steady_with ltac:(apply m_steady_sendEvent).
Qed.

Lemma task_steady_handleClientMessage clientId message now uuid :
  task_steady (handleClientMessage clientId message now uuid).
Proof.
  unfold handleClientMessage, handleSessionUpdate, handleAudioBufferAppend,
    handleAudioBufferCommit, handleAudioBufferClear, handleResponseCreate,
    handleResponseCancel, handleConversationItemCreate, handleConversationItemDelete,
    forward, getSession.
  task_steady_with ltac:(apply task_steady_sendToOpenAI);
    steady_with ltac:(first [ apply m_steady_getClientSession
                            | apply m_steady_reportInternalError ]).
Qed.

(** *** The "message" listener *)

Lemma getClientSession_same w w0 clientId :
  clientToSession w0 = clientToSession w -> sessions w0 = sessions w ->
  getClientSession clientId w0 = ((getClientSession clientId w).1, w0).
Proof.
  intros H1 H2. unfold getClientSession. run_m. rewrite H1.
  destruct (clientToSession w !! clientId) as [sid|]; [|reflexivity].
  destruct (truthy_string sid); [|reflexivity]. rewrite H2. reflexivity.
Qed.

Lemma sendEvent_missing w connectionId event now uuid :
  connections w !! connectionId = None ->
  sendEvent connectionId event now uuid w =
    (Throw (Error ("Conexão não encontrada: " +:+ connectionId)), w).
Proof. intros H. unfold sendEvent. run_m. rewrite H. reflexivity. Qed.

Lemma readyState_of_pushed w w0 h fr h' :
  sockets w0 = alter (push_frame fr) h (sockets w) ->
  readyState_of w0 h' = readyState_of w h'.
Proof.
  intros H. rewrite <- (readyState_of_push w h h' fr).
  apply readyState_of_sockets. exact H.
Qed.

Lemma readyState_after_send data s : readyState (after_send data s) = readyState s.
Proof. unfold after_send. destruct (decide (readyState s = OPEN)); reflexivity. Qed.

Lemma readyState_of_sent w w0 h data h' :
  sockets w0 = alter (after_send data) h (sockets w) ->
  readyState_of w0 h' = readyState_of w h'.
Proof.
  intros H. unfold readyState_of. rewrite H, lookup_alter.
  destruct (decide (h = h')) as [->|]; [|reflexivity].
  destruct (sockets w !! h'); cbn; [apply readyState_after_send|reflexivity].
Qed.

(** X7. [sendEvent] on a registered connection whose socket is still
    connecting (as after a handshake that timed out): [ws.send] throws,
    the error is logged and thrown again, and nothing is sent. The
    event object has by then got its [event_id] (its own if truthy, a
    new one otherwise): the write is not undone. *)
Theorem sendEvent_connecting w connectionId connection event props now uuid :
  connections w !! connectionId = Some connection ->
  readyState_of w (Connection.ws connection) = CONNECTING ->
  heap w !! event = Some (JObj props) ->
  exists w',
    sendEvent connectionId event now uuid w =
      (Throw (Error "WebSocket is not open: readyState 0 (CONNECTING)"), w') /\
    heap w' = <[event := JObj (stamp now uuid props)]> (heap w) /\
    sockets w' = sockets w /\
    logs w' =
      logs w ++
      [mkLog LError "Erro ao enviar evento para OpenAI: "
         [str "WebSocket is not open: readyState 0 (CONNECTING)"]].
Proof.
  intros Hc Hrs Hev.
  unfold sendEvent, stamp, read_field, write_field, JSON_stringify, deref. run_m.
  rewrite Hc. cbn. rewrite Hev. cbn.
  destruct (truthy (obj_get props "event_id")) eqn:Ht; cbn.
  - rewrite Hev. cbn. rewrite ws_send_connecting by exact Hrs. cbn.
    eexists. split; [reflexivity|]. cbn.
    rewrite (insert_id (heap w) event (JObj props) Hev). repeat split.
  - rewrite Hev. cbn. rewrite lookup_insert_eq. cbn.
    rewrite ws_send_connecting by (same_sockets w; exact Hrs). cbn.
    eexists. split; [reflexivity|]. repeat split.
Qed.

(** X8. A client with a session sends a frame that parses to an object
    whose [type] is one of the eight forwarded types, and the upstream
    connection of its session is registered, its socket past the
    handshake. The listener returns; the upstream socket has got the
    message once if it is open, with its [event_id] (the one it had if
    truthy, a new one otherwise) and as [JSON.stringify] writes it (a
    number that is not finite as [null], [-0] as [0]), and nothing if it
    is closing or closed: the message is then dropped and the client is
    not told. The client's socket has got the test frame and no other
    frame; the four maps and the states of the sockets are as they
    were. *)
Theorem onClientMessage_forwards
    JSON_parse w clientId session connection data props t now uuid :
  JSON_parse data = Ok (JObj props) ->
  obj_get props "type" = Some (JStr t) ->
  t ∈ forwarded_types ->
  has_session w clientId session ->
  readyState_of w (Session.ws session) = OPEN ->
  connections w !! Session.openaiConnectionId session = Some connection ->
  readyState_of w (Connection.ws connection) <> CONNECTING ->
  exists w',
    onClientMessage JSON_parse clientId (Session.ws session) data now uuid w = (Ok tt, w') /\
    sockets w' =
      alter (push_frame (TextFrame test_frame)) (Session.ws session)
        (alter (after_send (JSON_value (JObj (stamp now uuid props))))
           (Connection.ws connection) (sockets w)) /\
    steady w w'.
Proof.
  intros Hparse Htype Ht Hsess Hopen Hconn Hup.
  pose proof (getClientSession_has _ _ _ Hsess) as Hget.
  destruct Hsess as (Hc & Hne & Hs).
  unfold forwarded_types in Ht.
  repeat (apply elem_of_cons in Ht as [->|Ht]); [..|apply elem_of_nil in Ht; contradiction].
  all: unfold onClientMessage, wsServer_handleClientMessage, drain, alloc, handleClientMessage,
         handleSessionUpdate, handleAudioBufferAppend, handleAudioBufferCommit,
         handleAudioBufferClear, handleResponseCreate, handleResponseCancel,
         handleConversationItemCreate, handleConversationItemDelete, forward, sendToOpenAI,
         getSession, read_field, deref.
  all: do 3 run.
  all: rewrite Hparse; cbn.
  all: rewrite (getClientSession_same w) by reflexivity; rewrite Hget; cbn.
  all: rewrite lookup_insert_eq; cbn; rewrite Htype; cbn.
  all: repeat first
         [ erewrite sendEvent_established;
             [ | exact Hconn | same_sockets w; exact Hup | cbn; apply lookup_insert_eq ]
         | rewrite Hs
         | progress cbn ].
  all: rewrite ws_send_open
         by (etrans; [eapply readyState_of_sent; reflexivity|same_sockets w; exact Hopen]).
  all: cbn.
  all: eexists; (split; [reflexivity|]).
  all: split; [reflexivity|].
  all: repeat split; intros h.
  all: etrans; [eapply readyState_of_pushed; reflexivity|].
  all: etrans; [eapply readyState_of_sent; reflexivity|].
  all: apply readyState_of_sockets; reflexivity.
Qed.

Lemma reportInternalError_open w clientId session message props error :
  has_session w clientId session ->
  readyState_of w (Session.ws session) = OPEN ->
  heap w !! message = Some (JObj props) ->
  reportInternalError clientId message error w =
    (Ok tt,
     set_sockets
       (alter
          (push_frame
             (TextFrame
                (JSON_value
                   (object_literal
                      [("type", str "error");
                       ("error",
                         Some (JObj [("message",
                                       JStr ("Erro ao processar solicitação: " +:+
                                             err_message error));
                                     ("code", JStr "internal_error")]));
                       ("event_id", obj_get props "event_id")]))))
          (Session.ws session))
       (add_log (mkLog LError "Erro ao processar mensagem do cliente: "
                   [str (err_message error)]) w)).
Proof.
  intros Hsess Hopen Hmsg.
  pose proof (getClientSession_has _ _ _ Hsess) as Hget.
  unfold reportInternalError, ws_readyState, read_field, deref. run_m. cbn.
  rewrite (getClientSession_same w) by reflexivity. rewrite Hget. cbn.
  same_sockets w. rewrite Hopen, decide_True by reflexivity.
  cbn. rewrite Hmsg. cbn.
  rewrite ws_send_open by (same_sockets w; exact Hopen). reflexivity.
Qed.

(** X9. The same frame when the record of the session's upstream
    connection is missing: [sendEvent] throws, the dispatcher catches
    the error and reports it to the client in an [internal_error] frame
    with the text of the error and the [event_id] of the message (none
    if it had none), as [JSON.stringify] writes it (a number that is not
    finite as [null], [-0] as [0]). The report is sent when the rejected
    promise is handled, which is after the listener has sent its test
    frame. *)
Theorem onClientMessage_connection_missing
    JSON_parse w clientId session data props t now uuid :
  JSON_parse data = Ok (JObj props) ->
  obj_get props "type" = Some (JStr t) ->
  t ∈ forwarded_types ->
  has_session w clientId session ->
  readyState_of w (Session.ws session) = OPEN ->
  connections w !! Session.openaiConnectionId session = None ->
  exists w',
    onClientMessage JSON_parse clientId (Session.ws session) data now uuid w = (Ok tt, w') /\
    sent_to w' (Session.ws session) =
      sent_to w (Session.ws session) ++
      [TextFrame test_frame;
       TextFrame
         (JSON_value
            (object_literal
               [("type", str "error");
                ("error",
                  Some (JObj [("message",
                                JStr ("Erro ao processar solicitação: Conexão não encontrada: " +:+
                                      Session.openaiConnectionId session));
                              ("code", JStr "internal_error")]));
                ("event_id", obj_get props "event_id")]))] /\
    steady w w'.
Proof.
  intros Hparse Htype Ht Hsess Hopen Hconn.
  pose proof (getClientSession_has _ _ _ Hsess) as Hget.
  destruct Hsess as (Hc & Hne & Hs).
  unfold forwarded_types in Ht.
  repeat (apply elem_of_cons in Ht as [->|Ht]); [..|apply elem_of_nil in Ht; contradiction].
  all: unfold onClientMessage, wsServer_handleClientMessage, drain, alloc, handleClientMessage,
         handleSessionUpdate, handleAudioBufferAppend, handleAudioBufferCommit,
         handleAudioBufferClear, handleResponseCreate, handleResponseCancel,
         handleConversationItemCreate, handleConversationItemDelete, forward, sendToOpenAI,
         getSession, read_field, deref.
  all: do 3 run.
  all: rewrite Hparse; cbn.
  all: rewrite (getClientSession_same w) by reflexivity; rewrite Hget; cbn.
  all: rewrite lookup_insert_eq; cbn; rewrite Htype; cbn.
  all: repeat first
         [ rewrite sendEvent_missing by exact Hconn
         | rewrite Hs
         | rewrite (getClientSession_same w) by reflexivity; rewrite Hget
         | progress cbn ].
  all: rewrite ws_send_open by (same_sockets w; exact Hopen); cbn.
  all: erewrite reportInternalError_open;
         [ | split; [exact Hc|split; [exact Hne|exact Hs]]
           | etrans; [eapply (readyState_of_pushed w); reflexivity|exact Hopen]
           | cbn; apply lookup_insert_eq ].
  all: cbn.
  all: eexists; (split; [reflexivity|]).
  all: split.
  all: try (repeat split; intros h;
            do 2 (etrans; [eapply readyState_of_pushed; reflexivity|]);
            apply readyState_of_sockets; reflexivity).
  all: unfold sent_to, readyState_of in *; cbn; rewrite !lookup_alter_eq.
  all: destruct (sockets w !! Session.ws session) as [s|]; [|discriminate].
  all: cbn; rewrite <- app_assoc; reflexivity.
Qed.

Lemma spawn_run {A} (t : Task A) w :
  task_steady t ->
  exists pending w1,
    spawn t w = (Ok pending, w1) /\ steady w w1 /\ step_steady pending /\
    forall w2, exists r, finish pending w2 = (Ok r, (finish pending w2).2).
Proof.
  intros Ht. specialize (Ht w). unfold spawn, settle.
  destruct (t w) as [[s|e] w1].
  - destruct Ht as [H1 H2]. exists (step_settle s), w1.
    split; [reflexivity|]. split; [exact H1|]. split; [apply step_settle_steady; exact H2|].
    intros w2. rewrite finish_step_settle. eexists. reflexivity.
  - exists (Done (Throw e)), w1. split; [reflexivity|]. split; [exact Ht|].
    split; [exact I|]. intros w2. eexists. reflexivity.
Qed.

Lemma ws_send_run w h data :
  readyState_of w h <> CONNECTING ->
  exists w', ws_send h data w = (Ok tt, w') /\ steady w w'.
Proof.
  intros H. exists (ws_send h data w).2. split; [|apply m_steady_ws_send].
  rewrite ws_send_after by exact H. reflexivity.
Qed.

Lemma wsServer_handleClientMessage_run JSON_parse w clientId data now uuid :
  exists pending w1,
    wsServer_handleClientMessage JSON_parse clientId data now uuid w = (Ok pending, w1) /\
    steady w w1 /\
    match pending with
    | Some rest =>
        step_steady rest /\
        forall w2, exists r, finish rest w2 = (Ok r, (finish rest w2).2)
    | None => True
    end.
Proof.
  unfold wsServer_handleClientMessage. run_m. cbn.
  destruct (JSON_parse data) as [parsed|e]; cbn.
  - unfold alloc.
    match goal with
    | |- context [spawn ?t ?w1] =>
        destruct (spawn_run t w1 (task_steady_handleClientMessage _ _ _ _))
          as (pending & w2 & Hsp & Hst & Hstep & Hfin)
    end.
    rewrite Hsp. exists (Some pending), w2. split; [reflexivity|].
    split; [|split; assumption].
    eapply steady_trans; [|exact Hst]. apply steady_same; reflexivity.
  - destruct (clients w !! clientId) as [client|]; cbn.
    + unfold ws_readyState. run_m.
      match goal with
      | |- context [decide (?x = OPEN)] =>
          destruct (decide (x = OPEN)) as [Ho|Hn]
      end.
      * match goal with
        | |- context [ws_send ?h ?d ?w1] =>
            destruct (ws_send_run w1 h d) as (w2 & Hsend & Hst);
              [rewrite Ho; discriminate|]
        end.
        rewrite Hsend. exists None, w2. split; [reflexivity|]. split; [|exact I].
        eapply steady_trans; [|exact Hst]. apply steady_same; reflexivity.
      * eexists None, _. split; [reflexivity|]. split; [|exact I].
        apply steady_same; reflexivity.
    + eexists None, _. split; [reflexivity|]. split; [|exact I].
      apply steady_same; reflexivity.
Qed.

Lemma drain_run rest w :
  step_steady rest ->
  (forall w2, exists r, finish rest w2 = (Ok r, (finish rest w2).2)) ->
  exists w', drain rest w = (Ok tt, w') /\ steady w w'.
Proof.
  intros Hstep Hfin. unfold drain. run_m.
  destruct (Hfin w) as (r & Hr). rewrite Hr.
  pose proof (finish_steady rest Hstep w) as H3.
  destruct r as [[]|e].
  - eexists. split; [reflexivity|]. exact H3.
  - eexists. split; [reflexivity|].
    eapply steady_trans; [exact H3|]. apply steady_same; reflexivity.
Qed.

Lemma onClientMessage_run JSON_parse w clientId ws data now uuid :
  steady w (onClientMessage JSON_parse clientId ws data now uuid w).2 /\
  (readyState_of w ws <> CONNECTING ->
   (onClientMessage JSON_parse clientId ws data now uuid w).1 = Ok tt).
Proof.
  unfold onClientMessage.
  set (w0 := add_log (mkLog LInfo "CHegou alguma coisa! "
                        [str (substring 0 100 (Buffer_JSON_text data))]) w).
  assert (H0 : steady w w0) by (apply steady_same; reflexivity).
  destruct (wsServer_handleClientMessage_run JSON_parse w0 clientId data now uuid)
    as (pending & w1 & Hrun & H1 & Hpending).
  assert (H01 : steady w w1) by exact (steady_trans _ _ _ H0 H1).
  pose proof (m_steady_ws_send ws test_frame w1) as H2.
  run_m.
  change (set_logs _ w) with w0. cbv beta iota.
  rewrite Hrun. fold test_frame.
  assert (Hsend : readyState_of w ws <> CONNECTING ->
                  ws_send ws test_frame w1 = (Ok tt, (ws_send ws test_frame w1).2)).
  { intros Hws. destruct (ws_send_run w1 ws test_frame) as (w2 & Hsend & _).
    - destruct H01 as (_ & _ & _ & _ & Hrs). rewrite Hrs. exact Hws.
    - rewrite Hsend. reflexivity. }
  destruct (ws_send ws test_frame w1) as [[[]|e] w2]; cbn in *.
  2:{ split; [exact (steady_trans _ _ _ H01 H2)|].
      intros Hws. specialize (Hsend Hws). discriminate. }
  assert (H02 : steady w w2) by exact (steady_trans _ _ _ H01 H2).
  destruct pending as [rest|]; [|split; [exact H02|reflexivity]].
  destruct Hpending as [Hstep Hfin].
  destruct (drain_run rest w2 Hstep Hfin) as (w3 & Hdrain & H3).
  rewrite Hdrain. split; [exact (steady_trans _ _ _ H02 H3)|reflexivity].
Qed.

(** X10. Whatever a client sends, the "message" listener never throws
    and registers or removes nothing: for every parser, frame, client
    and store in which the listener's socket is past its handshake, the
    call returns, and the clients, the sessions, the two other maps and
    the state of every socket are as before. *)
Theorem onClientMessage_never_throws JSON_parse w clientId ws data now uuid :
  readyState_of w ws <> CONNECTING ->
  exists w',
    onClientMessage JSON_parse clientId ws data now uuid w = (Ok tt, w') /\
    steady w w'.
Proof.
  intros Hws.
  destruct (onClientMessage_run JSON_parse w clientId ws data now uuid) as [Hst Hok].
  specialize (Hok Hws).
  destruct (onClientMessage JSON_parse clientId ws data now uuid w) as [r w'].
  cbn in *. subst r. exists w'. split; [reflexivity|exact Hst].
Qed.

Lemma getClientSession_ok w clientId :
  exists session, (getClientSession clientId w).1 = Ok session.
Proof.
  unfold getClientSession. run_m.
  destruct (clientToSession w !! clientId) as [sid|]; [|eexists; reflexivity].
  destruct (truthy_string sid); eexists; reflexivity.
Qed.


#[local] Arguments is_string : simpl never.
#[local] Arguments interpolate : simpl never.

(** X11. A frame that parses to a value whose [type] is none of the
    eight (another string, no [type], not an object, the value is
    [null], or a [type] that is not a string but has one, as the log
    line of the dispatcher shows it) goes nowhere: nothing is sent
    upstream and no error frame is sent; of all sockets only the
    listener's own has changed, by the test frame. *)
Theorem onClientMessage_other_type JSON_parse w clientId ws data v now uuid :
  JSON_parse data = Ok v ->
  (forall t, message_type (Some v) = Some t -> t ∉ forwarded_types) ->
  has_string (field v "type") ->
  readyState_of w ws = OPEN ->
  exists w',
    onClientMessage JSON_parse clientId ws data now uuid w = (Ok tt, w') /\
    sockets w' = alter (push_frame (TextFrame test_frame)) ws (sockets w) /\
    steady w w'.
Proof.
  intros Hparse Hnf Hstr Hopen.
  destruct (getClientSession_ok w clientId) as (x & Hx).
  unfold onClientMessage, wsServer_handleClientMessage, drain, alloc, handleClientMessage,
    read_field, deref.
  do 3 run. rewrite Hparse. cbn.
  rewrite (getClientSession_same w) by reflexivity. rewrite Hx. cbn.
  fold test_frame.
  assert (Hsteady : forall w0,
            sockets w0 = alter (push_frame (TextFrame test_frame)) ws (sockets w) ->
            clients w0 = clients w -> sessions w0 = sessions w ->
            clientToSession w0 = clientToSession w -> connections w0 = connections w ->
            steady w w0).
  { intros w0 H1 H2 H3 H4 H5. repeat split; try assumption. intros h.
    eapply readyState_of_pushed. exact H1. }
  destruct x as [session|]; cbn.
  2:{ rewrite ws_send_open by (same_sockets w; exact Hopen). cbn.
      eexists. split; [reflexivity|]. split; [reflexivity|].
      apply Hsteady; reflexivity. }
  rewrite lookup_insert_eq.
  assert (Hcases : v = JNull \/
            exists ty, get_prop (Some v) "type" = Ok ty /\ interpolate ty = Ok ty /\
                       forall x, x ∈ forwarded_types -> is_string ty x = false).
  { destruct v as [| | | | |props]; [left; reflexivity|right..].
    1-4: exists None; split; [reflexivity|split; [reflexivity|intros; reflexivity]].
    exists (obj_get props "type"). split; [reflexivity|]. split; [exact Hstr|].
    intros x0 Hx0.
    destruct (obj_get props "type") as [[| | |t| |]|] eqn:E; try reflexivity.
    unfold is_string. apply String.eqb_neq. intros ->.
    apply (Hnf x0); [cbn; rewrite E; reflexivity|exact Hx0]. }
  destruct Hcases as [-> | (ty & Hgp & Hty & Hforw)].
  - cbn.
    unfold reportInternalError, ws_readyState, read_field, deref. run_m. cbn.
    rewrite (getClientSession_same w) by reflexivity. rewrite Hx. cbn.
    same_sockets w.
    destruct (decide (readyState_of w (Session.ws session) = OPEN)) as [Ho|Hn]; cbn.
    + rewrite lookup_insert_eq. cbn.
      rewrite ws_send_open by (same_sockets w; exact Hopen). cbn.
      eexists. split; [reflexivity|]. split; [reflexivity|].
      apply Hsteady; reflexivity.
    + rewrite ws_send_open by (same_sockets w; exact Hopen). cbn.
      eexists. split; [reflexivity|]. split; [reflexivity|].
      apply Hsteady; reflexivity.
  - rewrite Hgp. cbn. rewrite Hty. cbn.
    rewrite !Hforw by (unfold forwarded_types; repeat constructor).
    cbn.
    rewrite ws_send_open by (same_sockets w; exact Hopen). cbn.
    eexists. split; [reflexivity|]. split; [reflexivity|].
    apply Hsteady; reflexivity.
Qed.

(** X12. The frame [null] from a client whose session has its socket
    open: reading [message.type] throws inside the [try] of the
    dispatcher, and its [catch] throws again reading
    [message.event_id], so that the promise of the dispatcher is
    rejected and nobody handles it. The client gets the test frame and
    no error frame; the log has the dispatcher's error line with the
    [TypeError], and its last line is the one of the process's listener
    of unhandled rejections. *)
Theorem onClientMessage_null JSON_parse w clientId session data now uuid :
  JSON_parse data = Ok JNull ->
  has_session w clientId session ->
  readyState_of w (Session.ws session) = OPEN ->
  exists w',
    onClientMessage JSON_parse clientId (Session.ws session) data now uuid w = (Ok tt, w') /\
    sent_to w' (Session.ws session) = sent_to w (Session.ws session) ++ [TextFrame test_frame] /\
    map template (logs w') =
      map template (logs w) ++
      ["CHegou alguma coisa! "; "Mensagem recebida";
       "Erro ao processar mensagem do cliente: "; "Rejeição de Promise não tratada"] /\
    mkLog LError "Erro ao processar mensagem do cliente: "
      [str "Cannot read properties of null (reading 'type')"] ∈ logs w'.
Proof.
  intros Hparse Hsess Hopen.
  pose proof (getClientSession_has _ _ _ Hsess) as Hget.
  unfold onClientMessage, wsServer_handleClientMessage, drain, alloc, handleClientMessage,
    read_field, deref.
  do 3 run. rewrite Hparse. cbn.
  rewrite (getClientSession_same w) by reflexivity. rewrite Hget. cbn.
  rewrite lookup_insert_eq. cbn.
  unfold reportInternalError, ws_readyState, read_field, deref. run_m. cbn.
  rewrite (getClientSession_same w) by reflexivity. rewrite Hget. cbn.
  same_sockets w. rewrite Hopen, decide_True by reflexivity. cbn.
  rewrite lookup_insert_eq. cbn.
  rewrite ws_send_open by (same_sockets w; exact Hopen). cbn.
  eexists. split; [reflexivity|]. split; [|split].
  - unfold sent_to, readyState_of in *. cbn. rewrite lookup_alter_eq.
    destruct (sockets w !! Session.ws session); [reflexivity|discriminate].
  - cbn. rewrite !map_app, <- !app_assoc. reflexivity.
  - cbn. rewrite !elem_of_app, !list_elem_of_singleton. auto.
Qed.

(** X22. A client with a session, its socket open, sends a frame that
    parses to an object whose [type] has no string (an object with a
    [toString] property of its own, or an array that holds one): the
    first log line of the dispatcher throws a [TypeError], and its
    [catch] reports it. The client gets the [internal_error] frame with
    the text of the error and the [event_id] of the message, as
    [JSON.stringify] writes it, and then the test frame; nothing is sent
    upstream, and the four maps and the states of the sockets are as
    they were. *)
Theorem onClientMessage_type_without_string
    JSON_parse w clientId session data props type now uuid :
  JSON_parse data = Ok (JObj props) ->
  obj_get props "type" = Some type ->
  to_string_throws type = true ->
  has_session w clientId session ->
  readyState_of w (Session.ws session) = OPEN ->
  exists w',
    onClientMessage JSON_parse clientId (Session.ws session) data now uuid w = (Ok tt, w') /\
    sockets w' =
      alter (push_frame (TextFrame test_frame)) (Session.ws session)
        (alter
           (push_frame
              (TextFrame
                 (JSON_value
                    (object_literal
                       [("type", str "error");
                        ("error",
                          Some (JObj [("message",
                                        JStr ("Erro ao processar solicitação: " +:+
                                              "Cannot convert object to primitive value"));
                                      ("code", JStr "internal_error")]));
                        ("event_id", obj_get props "event_id")]))))
           (Session.ws session) (sockets w)) /\
    steady w w'.
Proof.
  intros Hparse Htype Hthrows Hsess Hopen.
  pose proof (getClientSession_has _ _ _ Hsess) as Hget.
  unfold onClientMessage, wsServer_handleClientMessage, drain, alloc, handleClientMessage,
    read_field, deref.
  do 3 run. rewrite Hparse. cbn.
  rewrite (getClientSession_same w) by reflexivity. rewrite Hget. cbn.
  rewrite lookup_insert_eq. cbn. rewrite Htype. unfold interpolate. rewrite Hthrows. cbn.
  erewrite reportInternalError_open;
    [ | exact Hsess | same_sockets w; exact Hopen | cbn; apply lookup_insert_eq ].
  cbn.
  rewrite ws_send_open
    by (etrans; [eapply (readyState_of_pushed w); reflexivity|exact Hopen]).
  cbn. eexists. split; [reflexivity|]. split; [reflexivity|].
  repeat split. intros h.
  do 2 (etrans; [eapply readyState_of_pushed; reflexivity|]).
  apply readyState_of_sockets. reflexivity.
Qed.

(** *** New connections *)

Lemma fresh_socket_ne w h s : sockets w !! h = Some s -> fresh (dom (sockets w)) <> h.
Proof.
  intros Hs Heq. apply (is_fresh (dom (sockets w))). rewrite Heq.
  apply elem_of_dom. eexists. exact Hs.
Qed.



(** X15. Connecting and disconnecting is a round trip on the four
    maps: after [handleConnection] (the handshake opening) and then
    [handleClientDisconnect] for a new client with new identifiers, the
    clients, the sessions, the client-to-session map and the
    connections are what they were before; [getClientSession] finds
    nothing for the client; the upstream socket is closing.
    [handleClientDisconnect] itself leaves the client's socket as it
    is. *)
Theorem connect_then_disconnect w ws s clientIp clientId now d established :
  clients w !! clientId = None ->
  clientToSession w !! clientId = None ->
  sessions w !! drawn_sessionId d = None ->
  connections w !! drawn_connectionId d = None ->
  drawn_sessionId d <> "" ->
  drawn_connectionId d <> "" ->
  handshake d = HsOpen ->
  sockets w !! ws = Some s ->
  readyState s = OPEN ->
  exists w1 w2,
    handleConnection ws clientIp clientId now d established w = (Ok tt, w1) /\
    handleClientDisconnect clientId w1 = (Ok tt, w2) /\
    clients w2 = clients w /\
    sessions w2 = sessions w /\
    clientToSession w2 = clientToSession w /\
    connections w2 = connections w /\
    getClientSession clientId w2 = (Ok None, w2) /\
    readyState_of w2 (fresh (dom (sockets w))) = CLOSING /\
    readyState_of w2 ws = OPEN.
Proof.
  intros Hcl Hnone Hse Hco Hsid Hcid Hhs Hs Hopen.
  pose proof (fresh_socket_ne w ws s Hs) as Hfresh.
  unfold handleConnection, createSession, createConnection, setMessageHandler, ws_new,
    ws_set_readyState, ws_on, update_socket.
  do 2 run. cbn. rewrite Hnone. cbn. rewrite Hhs. cbn.
  rewrite lookup_insert_eq. cbn.
  rewrite ws_send_open.
  2:{ unfold readyState_of. cbn.
      rewrite lookup_alter_eq, !lookup_alter_ne, lookup_insert_ne, Hs by congruence.
      cbn. exact Hopen. }
  eexists. eexists. split; [reflexivity|].
  unfold handleClientDisconnect, closeClientSessions, closeSession, closeConnection, ws_close,
    update_socket.
  do 2 run. cbn. rewrite lookup_insert_eq. cbn.
  rewrite (truthy_string_true _ Hsid). cbn. rewrite lookup_insert_eq. cbn.
  rewrite (truthy_string_true _ Hcid). cbn. rewrite lookup_insert_eq. cbn.
  split; [reflexivity|]. cbn.
  rewrite !delete_insert_id by assumption.
  repeat split.
  - unfold getClientSession. run_m. cbn. rewrite lookup_delete_eq. reflexivity.
  - unfold readyState_of. cbn.
    rewrite lookup_alter_eq, !lookup_alter_ne, !lookup_alter_eq, lookup_insert_eq
      by congruence.
    reflexivity.
  - unfold readyState_of. cbn.
    rewrite lookup_alter_ne, !lookup_alter_eq, !lookup_alter_ne, lookup_insert_ne, Hs
      by congruence.
    cbn. exact Hopen.
Qed.

(** *** The upstream listener *)

(** X16. Disconnecting a client twice, as when the liveness check has
    removed a client whose socket closes later: in a consistent
    registry both calls return, and the second changes nothing but the
    log, which gets its one line: no map and no socket is touched. *)
Theorem handleClientDisconnect_twice w clientId :
  registry_consistent w ->
  exists w1 w2,
    handleClientDisconnect clientId w = (Ok tt, w1) /\
    handleClientDisconnect clientId w1 = (Ok tt, w2) /\
    clients w2 = clients w1 /\
    sessions w2 = sessions w1 /\
    clientToSession w2 = clientToSession w1 /\
    connections w2 = connections w1 /\
    sockets w2 = sockets w1 /\
    logs w2 = logs w1 ++ [mkLog LInfo "Cliente desconectado" []].
Proof.
  intros Hcons.
  destruct (handleClientDisconnect_run w clientId Hcons)
    as (w1 & Hrun & _ & _ & _ & Hcl & Hc2s & _).
  exists w1. eexists. split; [exact Hrun|].
  unfold handleClientDisconnect, closeClientSessions. run_m. cbn. rewrite Hc2s. cbn.
  split; [reflexivity|]. cbn. repeat split.
  apply delete_id. exact Hcl.
Qed.

Lemma sessions_updated_refl m : sessions_updated m m.
Proof. intros sid. destruct (m !! sid); [repeat split|exact I]. Qed.

Lemma sessions_updated_alter f key m :
  (forall s, same_identity s (f s)) -> sessions_updated m (alter f key m).
Proof.
  intros Hf sid. rewrite lookup_alter.
  destruct (decide (key = sid)) as [->|].
  - destruct (m !! sid); cbn; [apply Hf|exact I].
  - destruct (m !! sid); [repeat split|exact I].
Qed.

Lemma sessions_updated_apply u key m : sessions_updated m (apply_update u key m).
Proof.
  destruct u; cbn; try apply sessions_updated_refl;
    apply sessions_updated_alter; intros s; repeat split.
Qed.

Lemma handleOpenAIMessage_run w sessionId message :
  exists w',
    handleOpenAIMessage sessionId message w = (Ok tt, w') /\
    clients w' = clients w /\
    clientToSession w' = clientToSession w /\
    connections w' = connections w /\
    (forall h, readyState_of w' h = readyState_of w h) /\
    sessions_updated (sessions w) (sessions w').
Proof.
  unfold handleOpenAIMessage, ws_readyState. run_m.
  destruct (sessions w !! sessionId) as [session|] eqn:Hs; cbn.
  2:{ eexists. split; [reflexivity|]. repeat split. apply sessions_updated_refl. }
  pose proof (updateSessionState_run w sessionId message) as Hu. cbv zeta in Hu.
  pose proof (sessions_updated_apply (expected_update message) sessionId (sessions w)) as Hup.
  destruct (updateSessionState sessionId message w) as [r w1]. cbn in Hu.
  destruct Hu as (Hr & Hse & Hlog & Hso & Hc & Hco & Hcl). subst r. rewrite <- Hse in Hup.
  destruct (update_failure message) as [e|]; cbn.
  { eexists. split; [reflexivity|]. cbn. repeat split; try assumption.
    intros h. apply readyState_of_sockets. exact Hso. }
  destruct (decide (readyState_of w1 (Session.ws session) = OPEN)) as [Ho|Hn]; cbn.
  all: try rewrite ws_send_open by exact Ho; cbn.
  all: eexists; (split; [reflexivity|]); cbn.
  all: repeat split; try assumption.
  all: intros h; (etrans; [|apply (readyState_of_sockets w w1); exact Hso]).
  all: first [reflexivity|eapply readyState_of_pushed; reflexivity].
Qed.

Section Upstream.

#[local] Arguments get_prop : simpl never.
#[local] Arguments interpolate : simpl never.

Lemma onOpenAIMessage_run JSON_parse connectionId sessionId data w :
  exists w',
    onOpenAIMessage JSON_parse connectionId sessionId data w = (Ok tt, w') /\
    clients w' = clients w /\
    clientToSession w' = clientToSession w /\
    connections w' = connections w /\
    (forall h, readyState_of w' h = readyState_of w h) /\
    sessions_updated (sessions w) (sessions w').
Proof.
  unfold onOpenAIMessage. run_m.
  destruct (JSON_parse data) as [message|e] eqn:Hparse; cbn.
  2:{ eexists. split; [reflexivity|]. repeat split. apply sessions_updated_refl. }
  assert (Hend : forall w0,
            clients w0 = clients w -> clientToSession w0 = clientToSession w ->
            connections w0 = connections w -> sockets w0 = sockets w ->
            sessions w0 = sessions w ->
            exists w',
              handleOpenAIMessage sessionId message w0 = (Ok tt, w') /\
              clients w' = clients w /\
              clientToSession w' = clientToSession w /\
              connections w' = connections w /\
              (forall h, readyState_of w' h = readyState_of w h) /\
              sessions_updated (sessions w) (sessions w')).
  { intros w0 H1 H2 H3 H4 H5.
    destruct (handleOpenAIMessage_run w0 sessionId message)
      as (w' & Hrun & A1 & A2 & A3 & A4 & A5).
    exists w'. split; [exact Hrun|]. rewrite A1, A2, A3, <- H5.
    repeat split; try assumption.
    intros h. rewrite A4. apply readyState_of_sockets. exact H4. }
  destruct (get_prop (Some message) "type") as [type|e] eqn:Htype; cbn.
  2:{ eexists. split; [reflexivity|]. repeat split. apply sessions_updated_refl. }
  assert (Hprop : forall k, exists v, get_prop (Some message) k = Ok v).
  { intros k. unfold get_prop in *. destruct message; try discriminate; eexists; reflexivity. }
  destruct (interpolate type) as [text|e]; cbn.
  2:{ eexists. split; [reflexivity|]. repeat split. apply sessions_updated_refl. }
  destruct (is_string type "response.text.delta"); cbn.
  { destruct (Hprop "delta") as (v & ->). cbn.
    destruct (interpolate v) as [shown|e]; cbn.
    2:{ eexists. split; [reflexivity|]. repeat split. apply sessions_updated_refl. }
    match goal with
    | |- context [handleOpenAIMessage _ _ ?w0] =>
        destruct (Hend w0) as (w' & Hrun & Hrest); try reflexivity
    end.
    rewrite Hrun. exists w'. split; [reflexivity|exact Hrest]. }
  destruct (is_string type "response.audio.delta"); cbn.
  { destruct (Hprop "delta") as (v & ->). cbn.
    match goal with
    | |- context [handleOpenAIMessage _ _ ?w0] =>
        destruct (Hend w0) as (w' & Hrun & Hrest); try reflexivity
    end.
    rewrite Hrun. exists w'. split; [reflexivity|exact Hrest]. }
  destruct (is_string type "error"); cbn.
  { destruct (Hprop "error") as (v & ->). cbn.
    match goal with
    | |- context [handleOpenAIMessage _ _ ?w0] =>
        destruct (Hend w0) as (w' & Hrun & Hrest); try reflexivity
    end.
    rewrite Hrun. exists w'. split; [reflexivity|exact Hrest]. }
  match goal with
  | |- context [handleOpenAIMessage _ _ ?w0] =>
      destruct (Hend w0) as (w' & Hrun & Hrest); try reflexivity
  end.
  rewrite Hrun. exists w'. split; [reflexivity|exact Hrest].
Qed.

End Upstream.

(** X17. Whatever arrives from upstream, the "message" listener of an
    upstream socket never throws, for every parser, text and store: the
    clients, the client-to-session map, the connections and the state
    of every socket are as before, and the sessions are the same under
    the same identifiers up to their conversation state. A text that
    does not parse changes nothing at all but the log, which gets one
    error line with the parser's message. *)
Theorem onOpenAIMessage_never_throws JSON_parse connectionId sessionId data w :
  exists w',
    onOpenAIMessage JSON_parse connectionId sessionId data w = (Ok tt, w') /\
    clients w' = clients w /\
    clientToSession w' = clientToSession w /\
    connections w' = connections w /\
    (forall h, readyState_of w' h = readyState_of w h) /\
    sessions_updated (sessions w) (sessions w') /\
    (forall e,
       JSON_parse data = Throw e ->
       sessions w' = sessions w /\ sockets w' = sockets w /\ heap w' = heap w /\
       logs w' =
         logs w ++ [mkLog LError "Erro ao processar mensagem da OpenAI: " [str (err_message e)]]).
Proof.
  destruct (onOpenAIMessage_run JSON_parse connectionId sessionId data w)
    as (w' & Hrun & H1 & H2 & H3 & H4 & H5).
  exists w'. split; [exact Hrun|]. repeat split; try assumption.
  all: unfold onOpenAIMessage in Hrun; run_m; rewrite H in Hrun; cbn in Hrun.
  all: injection Hrun as <-; reflexivity.
Qed.

Lemma registry_consistent_updated w w' :
  clientToSession w' = clientToSession w ->
  sessions_updated (sessions w) (sessions w') ->
  registry_consistent w -> registry_consistent w'.
Proof.
  intros Hc Hu Hcons c sid H. rewrite Hc in H.
  destruct (Hcons c sid H) as (Hsid & s & Hs & Hcid & Hconn).
  split; [exact Hsid|]. specialize (Hu sid). rewrite Hs in Hu.
  destruct (sessions w' !! sid) as [s'|]; [|contradiction].
  destruct Hu as (_ & E1 & E2 & _). exists s'. split; [reflexivity|]. split; congruence.
Qed.

Lemma steady_consistent w w' : steady w w' -> registry_consistent w -> registry_consistent w'.
Proof.
  intros (_ & H1 & H2 & _). apply registry_consistent_maps; assumption.
Qed.

Lemma handleConnection_consistent w ws clientIp clientId now d established :
  registry_consistent w ->
  drawn_sessionId d <> "" ->
  drawn_connectionId d <> "" ->
  sessions w !! drawn_sessionId d = None ->
  registry_consistent (handleConnection ws clientIp clientId now d established w).2.
Proof.
  intros Hcons Hsid Hcid Hfresh. unfold handleConnection. run_m. cbn.
  match goal with
  | |- context [createSession clientId ws d ?w0] =>
      pose proof (createSession_consistent w0 clientId ws d) as H1;
        destruct (createSession clientId ws d w0) as [[session|e] w1]
  end; cbn in *.
  - specialize (H1 ltac:(apply (registry_consistent_maps w); [reflexivity..|exact Hcons])
                  Hsid Hcid Hfresh).
    unfold ws_on, update_socket. run_m. cbn.
    match goal with
    | |- context [ws_send ?h ?data ?w2] =>
        pose proof (m_steady_ws_send h data w2) as H2;
          destruct (ws_send h data w2) as [[[]|e] w3]
    end; cbn in *.
    + apply (steady_consistent _ _ H2).
      apply (registry_consistent_maps w1); [reflexivity..|exact H1].
    + match goal with
      | |- context [ws_send ?h ?data ?w2] =>
          pose proof (m_steady_ws_send h data w2) as H3;
            destruct (ws_send h data w2) as [[[]|e'] w4]
      end; cbn in *.
      * unfold ws_close, update_socket. run_m. cbn.
        apply (registry_consistent_maps w4); [reflexivity..|].
        apply (steady_consistent _ _ H3).
        apply (registry_consistent_maps w3); [reflexivity..|].
        apply (steady_consistent _ _ H2).
        apply (registry_consistent_maps w1); [reflexivity..|exact H1].
      * apply (steady_consistent _ _ H3).
        apply (registry_consistent_maps w3); [reflexivity..|].
        apply (steady_consistent _ _ H2).
        apply (registry_consistent_maps w1); [reflexivity..|exact H1].
  - specialize (H1 ltac:(apply (registry_consistent_maps w); [reflexivity..|exact Hcons])
                  Hsid Hcid Hfresh).
    match goal with
    | |- context [ws_send ?h ?data ?w2] =>
        pose proof (m_steady_ws_send h data w2) as H3;
          destruct (ws_send h data w2) as [[[]|e'] w4]
    end; cbn in *.
    + unfold ws_close, update_socket. run_m. cbn.
      apply (registry_consistent_maps w4); [reflexivity..|].
      apply (steady_consistent _ _ H3).
      apply (registry_consistent_maps w1); [reflexivity..|exact H1].
    + apply (steady_consistent _ _ H3).
      apply (registry_consistent_maps w1); [reflexivity..|exact H1].
Qed.



(** *** The liveness check and the sockets of clients *)

Lemma not_upstream_evolves w w' h : evolves w w' -> not_upstream w h -> not_upstream w' h.
Proof.
  intros (_ & _ & _ & Hc & _) H id c Hid. apply (H id).
  eapply lookup_weaken; eassumption.
Qed.

Lemma closeConnection_socket w connectionId h :
  not_upstream w h ->
  sockets (closeConnection connectionId w).2 !! h = sockets w !! h.
Proof.
  intros H. unfold closeConnection, ws_close, update_socket. run_m.
  destruct (connections w !! connectionId) as [c|] eqn:Hc; cbn; [|reflexivity].
  apply lookup_alter_ne. apply (H _ _ Hc).
Qed.

Lemma handleClientDisconnect_socket w clientId h :
  not_upstream w h ->
  sockets (handleClientDisconnect clientId w).2 !! h = sockets w !! h.
Proof.
  intros H. unfold handleClientDisconnect, closeClientSessions, closeSession. run_m. cbn.
  destruct (clientToSession w !! clientId) as [sid|]; cbn; [|reflexivity].
  destruct (truthy_string sid); cbn; [|reflexivity].
  destruct (sessions w !! sid) as [session|]; cbn; [|reflexivity].
  destruct (truthy_string (Session.openaiConnectionId session)); cbn; [|reflexivity].
  match goal with
  | |- context [closeConnection ?id ?w0] =>
      pose proof (closeConnection_socket w0 id h H) as Hs;
        destruct (closeConnection id w0) as [[[]|e] w1]
  end; cbn in *; exact Hs.
Qed.

Lemma checkClient_socket now w clientId client h :
  not_upstream w h ->
  readyState_of (checkClient now clientId client w).2 h = readyState_of w h.
Proof.
  intros H. unfold checkClient, ws_readyState. run_m.
  destruct (readyState_of w (Client.ws client)) eqn:Hrs.
  - rewrite decide_False by discriminate. reflexivity.
  - rewrite decide_True by reflexivity. rewrite ws_ping_open by exact Hrs.
    destruct (negb (Client.lastPong client =? 0) && (60000 <? now - Client.lastPong client)).
    + cbn.
      match goal with
      | |- context [handleClientDisconnect ?c ?w0] =>
          pose proof (handleClientDisconnect_socket w0 c h H) as Hs
      end.
      unfold readyState_of at 1. rewrite Hs. apply readyState_of_push.
    + apply readyState_of_push.
  - rewrite decide_False by discriminate.
    rewrite bool_decide_eq_false_2 by discriminate. cbn.
    unfold readyState_of. rewrite handleClientDisconnect_socket by exact H. reflexivity.
  - rewrite decide_False by discriminate.
    rewrite bool_decide_eq_false_2 by discriminate. cbn.
    unfold readyState_of. rewrite handleClientDisconnect_socket by exact H. reflexivity.
Qed.

Lemma forEach_checkClient_socket now h entries :
  forall w,
    registry_consistent w -> not_upstream w h ->
    readyState_of (forEach (checkClient now) entries w).2 h = readyState_of w h.
Proof.
  induction entries as [|[c0 client0] rest IH]; intros w Hcons Hup; [reflexivity|].
  destruct (checkClient_run now w c0 client0 Hcons) as (w1 & Hrun & Hev & Hcons1 & _).
  pose proof (checkClient_socket now w c0 client0 h Hup) as Hs.
  rewrite Hrun in Hs. cbn in Hs.
  cbn. run_m. rewrite Hrun. rewrite <- Hs.
  apply IH; [exact Hcons1|]. eapply not_upstream_evolves; eassumption.
Qed.

(** X18. The liveness check removes a client that is late with its
    pong but does not close its socket: for a client whose socket is
    open (and carries no upstream connection) and whose last pong is
    more than 60 s old, after the check the client record is gone and
    the socket is still open. A pong that arrives on it afterwards
    makes its "pong" listener throw a [TypeError]: the listener writes
    to the client record without looking whether it is there. *)
Theorem pingInterval_leaves_socket_open w now clientId client now' :
  registry_consistent w ->
  clients w !! clientId = Some client ->
  not_upstream w (Client.ws client) ->
  readyState_of w (Client.ws client) = OPEN ->
  Client.lastPong client <> 0 ->
  60000 < now - Client.lastPong client ->
  exists w',
    pingInterval now w = (Ok tt, w') /\
    clients w' !! clientId = None /\
    readyState_of w' (Client.ws client) = OPEN /\
    onPong clientId now' w' =
      (Throw (TypeError "Cannot set properties of undefined (setting 'lastPong')"), w').
Proof.
  intros Hcons Hclient Hup Hopen Hpong Hstale.
  destruct (forEach_checkClient now (map_to_list (clients w)) w Hcons
              (NoDup_fst_map_to_list _))
    as (w' & Hrun & _ & _ & _ & Hevict).
  pose proof (forEach_checkClient_socket now (Client.ws client) (map_to_list (clients w))
                w Hcons Hup) as Hs.
  rewrite Hrun in Hs. cbn in Hs.
  destruct (Hevict clientId client) as (Hgone & _).
  { apply elem_of_map_to_list. exact Hclient. }
  { left. auto. }
  exists w'. split; [exact Hrun|]. split; [exact Hgone|]. split; [congruence|].
  unfold onPong. run_m. rewrite Hgone. reflexivity.
Qed.

Lemma handleClientDisconnect_others w c0 sid s :
  registry_consistent w ->
  sessions w !! sid = Some s ->
  Session.clientId s <> c0 ->
  sessions (handleClientDisconnect c0 w).2 !! sid = Some s.
Proof.
  intros Hcons Hs Hne.
  unfold handleClientDisconnect, closeClientSessions, closeSession. run_m. cbn.
  destruct (clientToSession w !! c0) as [sid0|] eqn:Hc; cbn; [|exact Hs].
  destruct (Hcons _ _ Hc) as (Hsid0 & s0 & Hs0 & Hcid0 & Hconn0).
  rewrite (truthy_string_true _ Hsid0). cbn. rewrite Hs0. cbn.
  rewrite (truthy_string_true _ Hconn0). cbn.
  match goal with
  | |- context [closeConnection ?id ?w0] =>
      destruct (closeConnection_run w0 id) as (w1 & Hrun & _ & _ & Hse & _)
  end.
  rewrite Hrun. cbn. rewrite Hse. cbn.
  rewrite lookup_delete_ne; [exact Hs|].
  intros ->. rewrite Hs0 in Hs. injection Hs as <-. contradiction.
Qed.

Lemma checkClient_others now w c0 client0 sid s :
  registry_consistent w ->
  sessions w !! sid = Some s ->
  Session.clientId s <> c0 ->
  sessions (checkClient now c0 client0 w).2 !! sid = Some s.
Proof.
  intros Hcons Hs Hne. unfold checkClient, ws_readyState. run_m.
  destruct (readyState_of w (Client.ws client0)) eqn:Hrs.
  - rewrite decide_False by discriminate. exact Hs.
  - rewrite decide_True by reflexivity. rewrite ws_ping_open by exact Hrs.
    destruct (negb (Client.lastPong client0 =? 0) && (60000 <? now - Client.lastPong client0));
      [|exact Hs].
    cbn. apply handleClientDisconnect_others; [|exact Hs|exact Hne].
    apply (registry_consistent_maps w); [reflexivity..|exact Hcons].
  - rewrite decide_False by discriminate.
    rewrite bool_decide_eq_false_2 by discriminate. cbn.
    apply handleClientDisconnect_others; assumption.
  - rewrite decide_False by discriminate.
    rewrite bool_decide_eq_false_2 by discriminate. cbn.
    apply handleClientDisconnect_others; assumption.
Qed.

Lemma checkClient_live now w clientId client :
  readyState_of w (Client.ws client) = OPEN ->
  Client.lastPong client = 0 \/ now - Client.lastPong client <= 60000 ->
  checkClient now clientId client w =
    (Ok tt,
     set_sockets
       (alter (push_frame (PingFrame (JObj [("type", JStr "ping")]))) (Client.ws client)) w).
Proof.
  intros Hopen Hlive. unfold checkClient, ws_readyState. run_m.
  rewrite Hopen, decide_True by reflexivity.
  rewrite ws_ping_open by exact Hopen.
  assert (Hb : negb (Client.lastPong client =? 0) && (60000 <? now - Client.lastPong client)
               = false).
  { apply andb_false_iff. destruct Hlive as [H|H].
    - left. apply negb_false_iff, Z.eqb_eq. exact H.
    - right. apply Z.ltb_ge. exact H. }
  rewrite Hb. reflexivity.
Qed.

Lemma forEach_checkClient_live now k client entries :
  forall w,
    registry_consistent w ->
    not_upstream w (Client.ws client) ->
    readyState_of w (Client.ws client) = OPEN ->
    Client.lastPong client = 0 \/ now - Client.lastPong client <= 60000 ->
    (forall cl, (k, cl) ∈ entries -> cl = client) ->
    clients (forEach (checkClient now) entries w).2 !! k = clients w !! k /\
    clientToSession (forEach (checkClient now) entries w).2 !! k = clientToSession w !! k /\
    forall sid s,
      sessions w !! sid = Some s -> Session.clientId s = k ->
      sessions (forEach (checkClient now) entries w).2 !! sid = Some s.
Proof.
  induction entries as [|[c0 client0] rest IH]; intros w Hcons Hup Hopen Hlive Hin.
  - cbn. auto.
  - destruct (checkClient_run now w c0 client0 Hcons)
      as (w1 & Hrun & Hev & Hcons1 & Hother1 & _).
    pose proof (checkClient_socket now w c0 client0 _ Hup) as Hsock.
    rewrite Hrun in Hsock. cbn in Hsock.
    assert (Hup1 : not_upstream w1 (Client.ws client))
      by (eapply not_upstream_evolves; eassumption).
    assert (Hopen1 : readyState_of w1 (Client.ws client) = OPEN) by congruence.
    assert (Hin1 : forall cl, (k, cl) ∈ rest -> cl = client)
      by (intros cl Hcl; apply Hin; apply elem_of_cons; right; exact Hcl).
    destruct (IH w1 Hcons1 Hup1 Hopen1 Hlive Hin1) as (IH1 & IH2 & IH3).
    cbn. run_m. rewrite Hrun.
    destruct (decide (c0 = k)) as [->|Hne].
    + assert (client0 = client) as -> by (apply Hin; apply elem_of_cons; left; reflexivity).
      rewrite (checkClient_live now w k client Hopen Hlive) in Hrun.
      injection Hrun as <-.
      split; [exact IH1|]. split; [exact IH2|]. exact IH3.
    + destruct (Hother1 k (not_eq_sym Hne)) as [Hc2s Hcl].
      split; [congruence|]. split; [congruence|].
      intros sid s Hs Hcid. apply IH3; [|exact Hcid].
      pose proof (checkClient_others now w c0 client0 sid s Hcons Hs) as Hs1.
      rewrite Hrun in Hs1. apply Hs1. congruence.
Qed.

(** X19. The liveness check keeps the clients that are alive: a client
    whose socket is open (and carries no upstream connection) and whose
    last pong is at most 60 s old, or was never recorded, has after the
    check the same record, the same entry in the client-to-session map
    and the same session, and its socket is still open, whichever other
    clients the check removes. *)
Theorem pingInterval_keeps_live w now clientId client :
  registry_consistent w ->
  clients w !! clientId = Some client ->
  not_upstream w (Client.ws client) ->
  readyState_of w (Client.ws client) = OPEN ->
  Client.lastPong client = 0 \/ now - Client.lastPong client <= 60000 ->
  exists w',
    pingInterval now w = (Ok tt, w') /\
    clients w' !! clientId = Some client /\
    clientToSession w' !! clientId = clientToSession w !! clientId /\
    (forall sessionId session,
       clientToSession w !! clientId = Some sessionId ->
       sessions w !! sessionId = Some session ->
       sessions w' !! sessionId = Some session) /\
    readyState_of w' (Client.ws client) = OPEN.
Proof.
  intros Hcons Hclient Hup Hopen Hlive.
  destruct (forEach_checkClient now (map_to_list (clients w)) w Hcons
              (NoDup_fst_map_to_list _))
    as (w' & Hrun & _).
  pose proof (forEach_checkClient_socket now (Client.ws client) (map_to_list (clients w))
                w Hcons Hup) as Hs.
  destruct (forEach_checkClient_live now clientId client (map_to_list (clients w)) w
              Hcons Hup Hopen Hlive) as (H1 & H2 & H3).
  { intros cl Hcl. apply elem_of_map_to_list in Hcl. congruence. }
  rewrite Hrun in Hs, H1, H2, H3. cbn in *.
  exists w'. split; [exact Hrun|]. split; [congruence|]. split; [exact H2|].
  split; [|congruence].
  intros sid s Hc Hsess. apply H3; [exact Hsess|].
  destruct (Hcons _ _ Hc) as (_ & s' & Hs' & Hcid & _). congruence.
Qed.

(** *** Shutting down *)

Lemma closeClientSessions_run w clientId :
  registry_consistent w ->
  exists w',
    closeClientSessions clientId w = (Ok tt, w') /\
    evolves w w' /\
    registry_consistent w' /\
    (forall c, c <> clientId -> clientToSession w' !! c = clientToSession w !! c) /\
    clients w' = clients w /\
    unsessioned w w' clientId.
Proof.
  intros Hcons. unfold closeClientSessions. run_m.
  destruct (clientToSession w !! clientId) as [sessionId|] eqn:Hcts.
  2:{ exists w. split; [reflexivity|]. split; [apply evolves_refl|].
      split; [exact Hcons|]. split; [auto|]. split; [reflexivity|].
      split; [exact Hcts|]. intros sid s Hc. congruence. }
  destruct (Hcons _ _ Hcts) as (Hne & session & Hs & Hcid & Hconn).
  rewrite (truthy_string_true _ Hne). cbn.
  unfold closeSession. run_m. cbn. rewrite Hs. cbn.
  rewrite (truthy_string_true _ Hconn). cbn.
  match goal with
  | |- context [closeConnection ?id ?w0] =>
      destruct (closeConnection_run w0 id) as (w1 & Hrun & Hco1 & Hcl1 & Hse1 & Hct1 & Hrs1)
  end.
  rewrite Hrun. cbn.
  eexists. split; [reflexivity|]. cbn in *.
  split; [|split; [|split; [|split]]].
  - repeat split; cbn.
    + rewrite Hcl1. reflexivity.
    + rewrite Hse1. apply delete_subseteq.
    + rewrite Hct1. apply delete_subseteq.
    + rewrite Hco1. apply delete_subseteq.
    + intros h. unfold readyState_of in *. cbn. apply Hrs1.
  - intros c sid Hc. cbn in Hc. rewrite Hct1, Hcid in Hc.
    apply lookup_delete_Some in Hc as [Hne' Hc].
    destruct (Hcons _ _ Hc) as (Hsid & s' & Hs' & Hcid' & Hconn').
    split; [exact Hsid|]. exists s'. cbn. rewrite Hse1.
    split; [|split]; try assumption.
    rewrite lookup_delete_ne; [exact Hs'|].
    intros ->. rewrite Hs in Hs'. injection Hs' as <-. congruence.
  - intros c Hne'. cbn. rewrite Hct1, Hcid.
    rewrite lookup_delete_ne by congruence. reflexivity.
  - exact Hcl1.
  - split; cbn.
    + rewrite Hct1, Hcid. apply lookup_delete_eq.
    + intros sid s Hc' Hs'. rewrite Hcts in Hc'. injection Hc' as <-.
      rewrite Hs in Hs'. injection Hs' as <-.
      rewrite Hse1, Hco1. split; apply lookup_delete_eq.
Qed.

Lemma closeClient_run w clientId client :
  registry_consistent w ->
  exists w',
    closeClient clientId client w = (Ok tt, w') /\
    evolves w w' /\
    registry_consistent w' /\
    (forall c, c <> clientId -> clientToSession w' !! c = clientToSession w !! c) /\
    clients w' = clients w /\
    unsessioned w w' clientId /\
    readyState_of w' (Client.ws client) <> OPEN.
Proof.
  intros Hcons.
  destruct (closeClientSessions_run w clientId Hcons)
    as (w1 & Hrun & Hev & Hcons1 & Hother & Hcl & Hun).
  unfold closeClient, ws_readyState, ws_close, update_socket. run_m. rewrite Hrun.
  destruct (decide (readyState_of w1 (Client.ws client) = OPEN)) as [Ho|Hn].
  - eexists. split; [reflexivity|].
    assert (Hev1 : evolves w1 (set_sockets (alter closing (Client.ws client)) w1)).
    { repeat split; try reflexivity. intros h. apply readyState_of_closing. }
    split; [eapply evolves_trans; eassumption|].
    split; [apply (registry_consistent_maps w1); [reflexivity..|exact Hcons1]|].
    split; [exact Hother|]. split; [exact Hcl|]. split; [exact Hun|].
    unfold readyState_of in *. cbn. rewrite lookup_alter_eq.
    destruct (sockets w1 !! Client.ws client) as [[rs u snt ls]|]; cbn in *; [|discriminate].
    subst rs. cbn. discriminate.
  - exists w1. split; [reflexivity|]. split; [exact Hev|]. split; [exact Hcons1|].
    split; [exact Hother|]. split; [exact Hcl|]. split; [exact Hun|exact Hn].
Qed.

Lemma unsessioned_evolves w w1 w' clientId :
  unsessioned w w1 clientId -> evolves w1 w' -> unsessioned w w' clientId.
Proof.
  intros (H2 & H3) (A1 & A2 & A3 & A4 & _). split.
  - eapply lookup_weaken_None; eassumption.
  - intros sid s Hc Hs. destruct (H3 sid s Hc Hs) as [Hs1 Hc1].
    split; eapply lookup_weaken_None; eassumption.
Qed.

Lemma unsessioned_later w w1 w' clientId :
  evolves w w1 -> registry_consistent w1 ->
  clientToSession w1 !! clientId = clientToSession w !! clientId ->
  unsessioned w1 w' clientId -> unsessioned w w' clientId.
Proof.
  intros (_ & A2 & _) Hcons Hsame (H2 & H3). split; [assumption|].
  intros sid s Hc Hs. rewrite <- Hsame in Hc.
  destruct (Hcons _ _ Hc) as (_ & s1 & Hs1 & _).
  pose proof (lookup_weaken _ _ _ _ Hs1 A2) as Hs1'.
  rewrite Hs in Hs1'. injection Hs1' as <-.
  apply (H3 sid s Hc Hs1).
Qed.

Lemma not_open_evolves w w' h :
  evolves w w' -> readyState_of w h <> OPEN -> readyState_of w' h <> OPEN.
Proof.
  intros (_ & _ & _ & _ & Hrs) H. destruct (Hrs h) as [-> | ->]; [exact H|discriminate].
Qed.

#[local] Arguments closeClient : simpl never.

Lemma forEach_closeClient entries :
  forall w,
    registry_consistent w ->
    NoDup entries.*1 ->
    exists w',
      forEach closeClient entries w = (Ok tt, w') /\
      evolves w w' /\
      registry_consistent w' /\
      (forall c, c ∉ entries.*1 -> clientToSession w' !! c = clientToSession w !! c) /\
      clients w' = clients w /\
      (forall c client,
         (c, client) ∈ entries ->
         unsessioned w w' c /\ readyState_of w' (Client.ws client) <> OPEN).
Proof.
  induction entries as [|[c0 client0] rest IH]; intros w Hcons Hnodup.
  - exists w. split; [reflexivity|]. split; [apply evolves_refl|].
    split; [exact Hcons|]. split; [auto|]. split; [reflexivity|].
    intros c client Hin. apply elem_of_nil in Hin. contradiction.
  - cbn in Hnodup. apply NoDup_cons in Hnodup as [Hnotin Hnodup].
    destruct (closeClient_run w c0 client0 Hcons)
      as (w1 & Hrun1 & Hev1 & Hcons1 & Hother1 & Hcl1 & Hun1 & Hrs1).
    destruct (IH w1 Hcons1 Hnodup) as (w' & Hrun & Hev & Hcons' & Hother & Hcl & Hall).
    exists w'. split.
    { cbn. run_m. rewrite Hrun1. exact Hrun. }
    split; [eapply evolves_trans; eassumption|].
    split; [exact Hcons'|]. split; [|split; [congruence|]].
    + intros c Hc. cbn in Hc. apply not_elem_of_cons in Hc as [Hne Hc].
      rewrite (Hother c Hc). apply Hother1. exact Hne.
    + intros c client Hin. apply elem_of_cons in Hin as [Heq|Hin].
      * injection Heq as -> ->. split.
        -- eapply unsessioned_evolves; eassumption.
        -- eapply not_open_evolves; eassumption.
      * assert (Hne : c <> c0).
        { intros ->. apply Hnotin.
          apply (list_elem_of_fmap_2 fst rest (c0, client)). exact Hin. }
        destruct (Hall c client Hin) as [Hun Hrs]. split; [|exact Hrs].
        apply (unsessioned_later w w1); try assumption.
        apply Hother1. exact Hne.
Qed.

(** X20. Shutting the server down, in a store whose registry is
    consistent: [close] returns without an error, no client is
    registered afterwards, the registry is still consistent, and for
    every client that was registered its socket is not open any more,
    it has no entry in the client-to-session map, and the session it
    had and that session's upstream connection are in no map. *)
Theorem close_clears w :
  registry_consistent w ->
  exists w',
    close w = (Ok tt, w') /\
    clients w' = ∅ /\
    registry_consistent w' /\
    forall clientId client,
      clients w !! clientId = Some client ->
      readyState_of w' (Client.ws client) <> OPEN /\
      clientToSession w' !! clientId = None /\
      forall sessionId session,
        clientToSession w !! clientId = Some sessionId ->
        sessions w !! sessionId = Some session ->
        sessions w' !! sessionId = None /\
        connections w' !! Session.openaiConnectionId session = None.
Proof.
  intros Hcons.
  set (w0 := add_log (mkLog LInfo "Encerrando servidor WebSocket" []) w).
  assert (Hcons0 : registry_consistent w0)
    by (apply (registry_consistent_maps w); [reflexivity..|exact Hcons]).
  destruct (forEach_closeClient (map_to_list (clients w)) w0 Hcons0
              (NoDup_fst_map_to_list _))
    as (w1 & Hrun & Hev & Hcons1 & _ & _ & Hall).
  exists (set_clients (fun _ => ∅) w1). split.
  { unfold close. run_m. cbn. fold (add_log (mkLog LInfo "Encerrando servidor WebSocket" []) w).
    fold w0. rewrite Hrun. reflexivity. }
  split; [reflexivity|].
  split; [apply (registry_consistent_maps w1); [reflexivity..|exact Hcons1]|].
  intros c client Hc.
  destruct (Hall c client) as [(H1 & H2) H3].
  { apply elem_of_map_to_list. exact Hc. }
  split; [exact H3|]. split; [exact H1|]. exact H2.
Qed.

(** X21. The two maps of the session manager stay in step under every
    handler of the server. If each entry of the client-to-session map
    names a stored session of that client, with identifiers that are
    not empty, then so it is after a new connection (with a new session
    identifier), a client frame, an upstream frame, a client closing, a
    pong, a liveness check and the shutdown, however each of them
    ends. *)
Theorem registry_consistent_kept w :
  registry_consistent w ->
  (forall ws clientIp clientId now d established,
     drawn_sessionId d <> "" -> drawn_connectionId d <> "" ->
     sessions w !! drawn_sessionId d = None ->
     registry_consistent (handleConnection ws clientIp clientId now d established w).2) /\
  (forall JSON_parse clientId ws data now uuid,
     registry_consistent (onClientMessage JSON_parse clientId ws data now uuid w).2) /\
  (forall JSON_parse connectionId sessionId data,
     registry_consistent (onOpenAIMessage JSON_parse connectionId sessionId data w).2) /\
  (forall clientId, registry_consistent (handleClientDisconnect clientId w).2) /\
  (forall clientId now, registry_consistent (onPong clientId now w).2) /\
  (forall now, registry_consistent (pingInterval now w).2) /\
  registry_consistent (close w).2.
Proof.
  intros Hcons. split; [|split; [|split; [|split; [|split; [|split]]]]].
  - intros. apply handleConnection_consistent; assumption.
  - intros. eapply steady_consistent; [apply onClientMessage_run|exact Hcons].
  - intros JSON_parse connectionId sessionId data.
    destruct (onOpenAIMessage_run JSON_parse connectionId sessionId data w)
      as (w' & Hrun & _ & H2 & _ & _ & H5).
    rewrite Hrun. apply (registry_consistent_updated w); assumption.
  - intros clientId.
    destruct (handleClientDisconnect_run w clientId Hcons) as (w' & Hrun & _ & H & _).
    rewrite Hrun. exact H.
  - intros clientId now. unfold onPong. run_m.
    destruct (clients w !! clientId); cbn; [|exact Hcons].
    apply (registry_consistent_maps w); [reflexivity..|exact Hcons].
  - intros now.
    destruct (forEach_checkClient now (map_to_list (clients w)) w Hcons
                (NoDup_fst_map_to_list _)) as (w' & Hrun & _ & H & _).
    unfold pingInterval. rewrite Hrun. exact H.
  - set (w0 := add_log (mkLog LInfo "Encerrando servidor WebSocket" []) w).
    assert (Hcons0 : registry_consistent w0)
      by (apply (registry_consistent_maps w); [reflexivity..|exact Hcons]).
    destruct (forEach_closeClient (map_to_list (clients w)) w0 Hcons0
                (NoDup_fst_map_to_list _)) as (w1 & Hrun & _ & H & _).
    unfold close. run_m. cbn.
    fold (add_log (mkLog LInfo "Encerrando servidor WebSocket" []) w). fold w0.
    rewrite Hrun. cbn. apply (registry_consistent_maps w1); [reflexivity..|exact H].
Qed.

(** *** The properties on the examples *)

Lemma in_session_has_session : has_session Examples.in_session "client-1" session_1.
Proof. split; [|split]; [vm_compute; reflexivity|discriminate|vm_compute; reflexivity]. Qed.

Lemma in_session_not_upstream : not_upstream Examples.in_session 0%nat.
Proof.
  intros id c H.
  assert (Hm : connections Examples.in_session = {["connection-1" := connection_1]})
    by (vm_compute; reflexivity).
  rewrite Hm in H. apply lookup_singleton_Some in H as [_ <-]. discriminate.
Qed.

Lemma sendEvent_connecting_witness :
  exists w',
    sendEvent "connection-1" 0%nat 5000 "2f1e4b6a-0000-4000-8000-000000000000" stalled =
      (Throw (Error "WebSocket is not open: readyState 0 (CONNECTING)"), w') /\
    heap w' =
      <[0%nat := JObj (stamp 5000 "2f1e4b6a-0000-4000-8000-000000000000" response_create)]>
        (heap stalled) /\
    sockets w' = sockets stalled /\
    logs w' =
      logs stalled ++
      [mkLog LError "Erro ao enviar evento para OpenAI: "
         [str "WebSocket is not open: readyState 0 (CONNECTING)"]].
Proof.
  apply (sendEvent_connecting stalled "connection-1" connection_1 0%nat response_create).
  - vm_compute. reflexivity.
  - vm_compute. reflexivity.
  - vm_compute. reflexivity.
Defined.

Lemma handleClientDisconnect_twice_witness :
  exists w1 w2,
    handleClientDisconnect "client-1" Examples.in_session = (Ok tt, w1) /\
    handleClientDisconnect "client-1" w1 = (Ok tt, w2) /\
    clients w2 = clients w1 /\
    sessions w2 = sessions w1 /\
    clientToSession w2 = clientToSession w1 /\
    connections w2 = connections w1 /\
    sockets w2 = sockets w1 /\
    logs w2 = logs w1 ++ [mkLog LInfo "Cliente desconectado" []].
Proof.
  apply (handleClientDisconnect_twice Examples.in_session "client-1").
  exact in_session_consistent.
Defined.

Lemma onClientMessage_forwards_witness :
  exists w',
    onClientMessage (parse_one "response" (JObj response_overflowing)) "client-1" 0%nat
      "response" 5000 "2f1e4b6a-0000-4000-8000-000000000000" Examples.in_session = (Ok tt, w') /\
    sockets w' =
      alter (push_frame (TextFrame test_frame)) 0%nat
        (alter
           (after_send
              (JObj [("type", JStr "response.create"); ("n", JNull);
                     ("event_id", JStr "evt_5000_2f1e4b6a")]))
           1%nat (sockets Examples.in_session)) /\
    steady Examples.in_session w'.
Proof.
  apply (onClientMessage_forwards (parse_one "response" (JObj response_overflowing))
           Examples.in_session "client-1" session_1 connection_1 "response"
           response_overflowing "response.create").
  - reflexivity.
  - reflexivity.
  - unfold forwarded_types. repeat constructor.
  - exact in_session_has_session.
  - vm_compute. reflexivity.
  - vm_compute. reflexivity.
  - vm_compute. discriminate.
Defined.

Lemma onClientMessage_other_type_witness :
  exists w',
    onClientMessage (parse_one "bye" (JObj [("type", JStr "session.close")])) "client-1" 0%nat
      "bye" 5000 "2f1e4b6a-0000-4000-8000-000000000000" Examples.in_session = (Ok tt, w') /\
    sockets w' =
      alter (push_frame (TextFrame test_frame)) 0%nat (sockets Examples.in_session) /\
    steady Examples.in_session w'.
Proof.
  apply (onClientMessage_other_type (parse_one "bye" (JObj [("type", JStr "session.close")]))
           Examples.in_session "client-1" 0%nat "bye" (JObj [("type", JStr "session.close")])).
  - reflexivity.
  - intros t H. injection H as <-. unfold forwarded_types. intros Hin.
    repeat (apply elem_of_cons in Hin as [Hin|Hin]; [discriminate|]).
    apply elem_of_nil in Hin. exact Hin.
  - reflexivity.
  - vm_compute. reflexivity.
Defined.

Lemma onClientMessage_null_witness :
  exists w',
    onClientMessage Examples.parse_literals "client-1" 0%nat "null" 5000
      "2f1e4b6a-0000-4000-8000-000000000000" Examples.in_session = (Ok tt, w') /\
    sent_to w' 0%nat = sent_to Examples.in_session 0%nat ++ [TextFrame test_frame] /\
    map template (logs w') =
      map template (logs Examples.in_session) ++
      ["CHegou alguma coisa! "; "Mensagem recebida";
       "Erro ao processar mensagem do cliente: "; "Rejeição de Promise não tratada"] /\
    mkLog LError "Erro ao processar mensagem do cliente: "
      [str "Cannot read properties of null (reading 'type')"] ∈ logs w'.
Proof.
  apply (onClientMessage_null Examples.parse_literals Examples.in_session "client-1" session_1
           "null").
  - reflexivity.
  - exact in_session_has_session.
  - vm_compute. reflexivity.
Defined.

Lemma onClientMessage_connection_missing_witness :
  exists w',
    onClientMessage (parse_one "response" (JObj response_numbered)) "client-1" 0%nat "response"
      5000 "2f1e4b6a-0000-4000-8000-000000000000" orphaned = (Ok tt, w') /\
    sent_to w' 0%nat =
      sent_to orphaned 0%nat ++
      [TextFrame test_frame;
       TextFrame
         (JObj
            [("type", JStr "error");
             ("error",
               JObj [("message",
                       JStr "Erro ao processar solicitação: Conexão não encontrada: connection-1");
                     ("code", JStr "internal_error")]);
             ("event_id", JNull)])] /\
    steady orphaned w'.
Proof.
  apply (onClientMessage_connection_missing (parse_one "response" (JObj response_numbered))
           orphaned "client-1" session_1 "response" response_numbered "response.create").
  - reflexivity.
  - reflexivity.
  - unfold forwarded_types. repeat constructor.
  - split; [|split]; [vm_compute; reflexivity|discriminate|vm_compute; reflexivity].
  - vm_compute. reflexivity.
  - vm_compute. reflexivity.
Defined.

Lemma onClientMessage_type_without_string_witness :
  exists w',
    onClientMessage (parse_one "odd" (JObj typed_by_object)) "client-1" 0%nat "odd"
      5000 "2f1e4b6a-0000-4000-8000-000000000000" Examples.in_session = (Ok tt, w') /\
    sockets w' =
      alter (push_frame (TextFrame test_frame)) 0%nat
        (alter
           (push_frame
              (TextFrame
                 (JObj
                    [("type", JStr "error");
                     ("error",
                       JObj [("message",
                               JStr "Erro ao processar solicitação: Cannot convert object to primitive value");
                             ("code", JStr "internal_error")])])))
           0%nat (sockets Examples.in_session)) /\
    steady Examples.in_session w'.
Proof.
  apply (onClientMessage_type_without_string (parse_one "odd" (JObj typed_by_object))
           Examples.in_session "client-1" session_1 "odd" typed_by_object
           (JObj [("toString", JNum 1)])).
  - reflexivity.
  - reflexivity.
  - reflexivity.
  - exact in_session_has_session.
  - vm_compute. reflexivity.
Defined.

Lemma onClientMessage_never_throws_witness :
  exists w',
    onClientMessage Examples.parse_literals "client-1" 0%nat "true" 5000
      "2f1e4b6a-0000-4000-8000-000000000000" Examples.in_session = (Ok tt, w') /\
    steady Examples.in_session w'.
Proof.
  apply (onClientMessage_never_throws Examples.parse_literals Examples.in_session).
  vm_compute. discriminate.
Defined.



Lemma connect_then_disconnect_witness :
  exists w1 w2,
    handleConnection 0%nat "10.0.0.1" "client-1" 900 Examples.opening 1201 Examples.accepted
      = (Ok tt, w1) /\
    handleClientDisconnect "client-1" w1 = (Ok tt, w2) /\
    clients w2 = clients Examples.accepted /\
    sessions w2 = sessions Examples.accepted /\
    clientToSession w2 = clientToSession Examples.accepted /\
    connections w2 = connections Examples.accepted /\
    getClientSession "client-1" w2 = (Ok None, w2) /\
    readyState_of w2 (fresh (dom (sockets Examples.accepted))) = CLOSING /\
    readyState_of w2 0%nat = OPEN.
Proof.
  apply (connect_then_disconnect Examples.accepted 0%nat accepted_socket "10.0.0.1"
           "client-1" 900 Examples.opening 1201).
  - reflexivity.
  - reflexivity.
  - reflexivity.
  - reflexivity.
  - discriminate.
  - discriminate.
  - reflexivity.
  - reflexivity.
  - reflexivity.
Defined.

Lemma pingInterval_keeps_live_witness :
  exists w',
    pingInterval 31000 Examples.in_session = (Ok tt, w') /\
    clients w' !! "client-1" = Some client_1 /\
    clientToSession w' !! "client-1" = clientToSession Examples.in_session !! "client-1" /\
    (forall sessionId session,
       clientToSession Examples.in_session !! "client-1" = Some sessionId ->
       sessions Examples.in_session !! sessionId = Some session ->
       sessions w' !! sessionId = Some session) /\
    readyState_of w' 0%nat = OPEN.
Proof.
  apply (pingInterval_keeps_live Examples.in_session 31000 "client-1" client_1).
  - exact in_session_consistent.
  - vm_compute. reflexivity.
  - exact in_session_not_upstream.
  - vm_compute. reflexivity.
  - right. cbn. lia.
Defined.

Lemma pingInterval_leaves_socket_open_witness :
  exists w',
    pingInterval 100000 Examples.in_session = (Ok tt, w') /\
    clients w' !! "client-1" = None /\
    readyState_of w' 0%nat = OPEN /\
    onPong "client-1" 100500 w' =
      (Throw (TypeError "Cannot set properties of undefined (setting 'lastPong')"), w').
Proof.
  apply (pingInterval_leaves_socket_open Examples.in_session 100000 "client-1" client_1).
  - exact in_session_consistent.
  - vm_compute. reflexivity.
  - exact in_session_not_upstream.
  - vm_compute. reflexivity.
  - cbn. lia.
  - cbn. lia.
Defined.

Lemma close_clears_witness :
  exists w',
    close Examples.in_session = (Ok tt, w') /\
    clients w' = ∅ /\
    registry_consistent w' /\
    forall clientId client,
      clients Examples.in_session !! clientId = Some client ->
      readyState_of w' (Client.ws client) <> OPEN /\
      clientToSession w' !! clientId = None /\
      forall sessionId session,
        clientToSession Examples.in_session !! clientId = Some sessionId ->
        sessions Examples.in_session !! sessionId = Some session ->
        sessions w' !! sessionId = None /\
        connections w' !! Session.openaiConnectionId session = None.
Proof.
  apply (close_clears Examples.in_session). exact in_session_consistent.
Defined.

Lemma registry_consistent_kept_witness :
  (forall ws clientIp clientId now d established,
     drawn_sessionId d <> "" -> drawn_connectionId d <> "" ->
     sessions Examples.in_session !! drawn_sessionId d = None ->
     registry_consistent
       (handleConnection ws clientIp clientId now d established Examples.in_session).2) /\
  (forall JSON_parse clientId ws data now uuid,
     registry_consistent
       (onClientMessage JSON_parse clientId ws data now uuid Examples.in_session).2) /\
  (forall JSON_parse connectionId sessionId data,
     registry_consistent
       (onOpenAIMessage JSON_parse connectionId sessionId data Examples.in_session).2) /\
  (forall clientId, registry_consistent (handleClientDisconnect clientId Examples.in_session).2) /\
  (forall clientId now, registry_consistent (onPong clientId now Examples.in_session).2) /\
  (forall now, registry_consistent (pingInterval now Examples.in_session).2) /\
  registry_consistent (close Examples.in_session).2.
Proof.
  apply (registry_consistent_kept Examples.in_session). exact in_session_consistent.
Defined.

End RelayProps.
